(** * texttable: aligned ASCII text tables (texttable.c / texttable.h)

    A shallow embedding of the table engine: [TextTableInit],
    [TextTableAdd] and [TextTablePrint], with the properties of the
    specification stated over it.

    Conventions of the embedding.
    - A C string is the [list ascii] of its characters before the
      terminating NUL; a NULL pointer is [None].
    - The doubly linked chain [head .. tail] of [TextTableEntry_t] nodes is
      the [list] of its nodes in chain order; [nextEntry] is the tail of the
      list, and a pointer that walks the chain is the suffix it points to
      (NULL is [[]]).
    - [textLen] and [ansiSeqLen] always hold the lengths of [text] and
      [ansiSeq] (0 when the pointer is NULL); they are derived, not stored.
    - [writeTxt] points into the immutable [text] buffer and is only read
      and incremented, so it is the suffix of the text it points to.
    - [size_t] values are natural numbers: table dimensions are taken below
      [SIZE_MAX].
    - [malloc] draws its result from an oracle kept in the heap state.
    - Behaviour the C standard leaves undefined (a write past the end of a
      buffer, a NULL dereference) is the outcome [Undefined]. *)

From Stdlib Require Import Ascii String List Arith Bool Lia.
Import ListNotations.

Set Implicit Arguments.

(** ** Outcomes *)

Inductive outcome (A : Type) : Type :=
| Done (a : A)        (* the call returned *)
| Undefined           (* undefined behaviour in C *)
| OutOfFuel.          (* the loop bound of the model was too small *)

Arguments Done {A} a.
Arguments Undefined {A}.
Arguments OutOfFuel {A}.

Definition bind {A B : Type} (m : outcome A) (k : A -> outcome B) : outcome B :=
  match m with
  | Done a => k a
  | Undefined => Undefined
  | OutOfFuel => OutOfFuel
  end.

Notation "x <- m ;; k" := (bind m (fun x => k))
  (at level 61, m at next level, right associativity).
Notation "' pat <- m ;; k" := (bind m (fun x => match x with pat => k end))
  (at level 61, pat pattern, m at next level, right associativity).

(** ** The allocator *)

Record heap : Type := mkHeap {
  live : list nat;       (* blocks allocated and not yet freed *)
  next_block : nat;      (* the next fresh block *)
  oracle : list bool     (* results of the coming malloc calls; [[]]: all succeed *)
}.

Definition malloc (h : heap) : option nat * heap :=
  match oracle h with
  | false :: o => (None, mkHeap (live h) (next_block h) o)
  | true :: o =>
      (Some (next_block h), mkHeap (next_block h :: live h) (S (next_block h)) o)
  | [] =>
      (Some (next_block h), mkHeap (next_block h :: live h) (S (next_block h)) [])
  end.

Definition free (p : nat) (h : heap) : heap :=
  mkHeap (remove Nat.eq_dec p (live h)) (next_block h) (oracle h).

(** ** texttable.h *)

Definition TEXT_TABLE_MAX_COLUMN_LEN : nat := 96.
Definition TEXT_TABLE_MAX_X_POS : nat := 30.
Definition TEXT_TABLE_MAX_ANSI_SEQ_LEN : nat := 24.

Definition cstring : Type := list ascii.

Record TextTableEntry_t : Type := mkEntry {
  text : option cstring;
  rowMaxTextLen : nat;
  ansiSeq : option cstring;
  writeTxt : option cstring
}.

Definition textLen (e : TextTableEntry_t) : nat :=
  match text e with Some s => length s | None => 0 end.

Definition ansiSeqLen (e : TextTableEntry_t) : nat :=
  match ansiSeq e with Some s => length s | None => 0 end.

Record TextTable_t : Type := mkTable {
  chain : list TextTableEntry_t;   (* head .. tail *)
  entries : nat;
  charGridX : ascii;
  charGridBoundary : ascii;
  charGridSeparator : ascii;
  charHeadX : ascii;
  charHeadBoundary : ascii;
  charHeadSeparator : ascii;
  charConnectorXY : ascii;
  spacesBetweenBorder : nat
}.

Inductive TabStyle_e : Type :=
| TABSTYLE_REGULAR_HEAD_ON
| TABSTYLE_REGULAR_HEAD_OFF
| TABSTYLE_SEPARATED_HEAD_ON
| TABSTYLE_SEPARATED_HEAD_OFF
| TABSTYLE_COMACT.

Definition is_compact (s : TabStyle_e) : bool :=
  match s with TABSTYLE_COMACT => true | _ => false end.

(** ** texttable.c *)

Definition NUL : ascii := Ascii.zero.
Definition LF : ascii := ascii_of_nat 10.
Definition SPACE : ascii := " "%char.

Definition sAnsiSequenceEnd : cstring :=
  [ascii_of_nat 27; "["%char; "0"%char; "m"%char].

Record T_Column : Type := mkColumn {
  col_rowMaxTextLen : nat;
  col_ansiSeqMaxLen : nat
}.

(** *** TextTableInit *)

Definition TextTableInit (table : option TextTable_t) : bool * option TextTable_t :=
  match table with
  | Some _ =>
      (true, Some (mkTable [] 0 "-"%char "|"%char "|"%char "="%char
                           "|"%char "|"%char "+"%char 1))
  | None => (false, None)
  end.

(** *** TextTableAdd *)

(** [memset(pEntry, 0, sizeof(TextTableEntry_t))] *)
Definition zero_entry : TextTableEntry_t := mkEntry None 0 None None.

(** Linking [pEntry] behind [tail] and counting it. *)
Definition link_entry (t : TextTable_t) (pEntry : TextTableEntry_t) : TextTable_t :=
  mkTable (chain t ++ [pEntry]) (S (entries t))
          (charGridX t) (charGridBoundary t) (charGridSeparator t)
          (charHeadX t) (charHeadBoundary t) (charHeadSeparator t)
          (charConnectorXY t) (spacesBetweenBorder t).

(** A store through [pEntry], which is [table->tail] once linked. *)
Definition set_tail (t : TextTable_t) (pEntry : TextTableEntry_t) : TextTable_t :=
  mkTable (removelast (chain t) ++ [pEntry]) (entries t)
          (charGridX t) (charGridBoundary t) (charGridSeparator t)
          (charHeadX t) (charHeadBoundary t) (charHeadSeparator t)
          (charConnectorXY t) (spacesBetweenBorder t).

Definition is_LF (c : ascii) : bool := Ascii.eqb LF c.
Definition is_NUL (c : ascii) : bool := Ascii.eqb NUL c.

(** The loop [for (i = 0; i < textLen; i++)] over the stored text, carrying
    [pEntry->rowMaxTextLen] and [rowTextLen]. *)
Fixpoint scan_rows (txt : cstring) (rowMax rowTextLen : nat) : nat * nat :=
  match txt with
  | [] => (rowMax, rowTextLen)
  | c :: rest =>
      if is_LF c
      then scan_rows rest (if rowMax <? rowTextLen then rowTextLen else rowMax) 0
      else scan_rows rest rowMax (S rowTextLen)
  end.

Definition calc_rowMaxTextLen (txt : cstring) : nat :=
  let '(rowMax, rowTextLen) := scan_rows txt 1 0 in
  if rowMax <? rowTextLen then rowTextLen else rowMax.

(** [format] is the text that [vsnprintf] produces from the format string
    and its arguments ([None]: the format pointer is NULL). *)
Definition TextTableAdd (table : option TextTable_t) (ansi : option cstring)
    (format : option cstring) (h : heap)
  : outcome (bool * option TextTable_t * heap) :=
  match table with
  | None => Done (false, None, h)
  | Some t =>
    let '(p, h) := malloc h in
    match p with
    | None => Done (false, Some t, h)
    | Some _ =>
      let pEntry := zero_entry in
      let t := link_entry t pEntry in
      match format with
      | None => Done (true, Some t, h)
      | Some formatted =>
        let textLen := length formatted in
        if 0 <? textLen then
          (* the ANSI sequence *)
          '(pEntry, h) <-
            match ansi with
            | Some a =>
                if length a <? TEXT_TABLE_MAX_ANSI_SEQ_LEN then
                  let '(q, h) := malloc h in
                  match q with
                  | Some _ =>
                      Done (mkEntry (text pEntry) (rowMaxTextLen pEntry)
                                    (Some a) (writeTxt pEntry), h)
                  | None => Undefined   (* snprintf into a NULL buffer *)
                  end
                else Done (pEntry, h)
            | None => Done (pEntry, h)
            end ;;
          let t := set_tail t pEntry in
          let textLen :=
            if TEXT_TABLE_MAX_COLUMN_LEN <? textLen
            then TEXT_TABLE_MAX_COLUMN_LEN else textLen in
          let '(r, h) := malloc h in
          match r with
          | None => Done (false, Some t, h)
          | Some _ =>
            let txt := firstn textLen formatted in
            let pEntry := mkEntry (Some txt) (calc_rowMaxTextLen txt)
                                  (ansiSeq pEntry) (writeTxt pEntry) in
            Done (true, Some (set_tail t pEntry), h)
          end
        else Done (true, Some t, h)
      end
    end
  end.

(** *** TextTablePrint *)

(** What the callback sees of a buffer: the characters before the first NUL. *)
Fixpoint c_str (buf : list ascii) : cstring :=
  match buf with
  | [] => []
  | c :: rest => if is_NUL c then [] else c :: c_str rest
  end.

(** [pColumn[j] = x] *)
Fixpoint array_set (j : nat) (x : T_Column) (a : list T_Column) : list T_Column :=
  match a, j with
  | [], _ => []
  | _ :: a', 0 => x :: a'
  | y :: a', S j' => y :: array_set j' x a'
  end.

Definition array_get (a : list T_Column) (j : nat) : T_Column :=
  nth j a (mkColumn 0 0).

Definition update_column (c : T_Column) (e : TextTableEntry_t) : T_Column :=
  mkColumn
    (if col_rowMaxTextLen c <? rowMaxTextLen e
     then rowMaxTextLen e else col_rowMaxTextLen c)
    (if col_ansiSeqMaxLen c <? ansiSeqLen e
     then ansiSeqLen e else col_ansiSeqMaxLen c).

(** The inner loop over [j] of the width calculation; [n] columns remain. *)
Fixpoint metrics_columns (n j : nat) (pEntry : list TextTableEntry_t)
    (pColumn : list T_Column) : outcome (list TextTableEntry_t * list T_Column) :=
  match n with
  | 0 => Done (pEntry, pColumn)
  | S n' =>
      match pEntry with
      | [] => Undefined
      | e :: next =>
          metrics_columns n' (S j) next
            (array_set j (update_column (array_get pColumn j) e) pColumn)
      end
  end.

(** The outer loop over [i]; [n] rows remain. *)
Fixpoint metrics_rows (columns n : nat) (pEntry : list TextTableEntry_t)
    (pColumn : list T_Column) : outcome (list TextTableEntry_t * list T_Column) :=
  match n with
  | 0 => Done (pEntry, pColumn)
  | S n' =>
      '(pEntry, pColumn) <- metrics_columns columns 0 pEntry pColumn ;;
      metrics_rows columns n' pEntry pColumn
  end.

Definition set_writeTxt (e : TextTableEntry_t) (w : option cstring) : TextTableEntry_t :=
  mkEntry (text e) (rowMaxTextLen e) (ansiSeq e) w.

Definition set_chain (t : TextTable_t) (c : list TextTableEntry_t) : TextTable_t :=
  mkTable c (entries t)
          (charGridX t) (charGridBoundary t) (charGridSeparator t)
          (charHeadX t) (charHeadBoundary t) (charHeadSeparator t)
          (charConnectorXY t) (spacesBetweenBorder t).

Section Render.

Variable table : TextTable_t.
Variable tabStyle : TabStyle_e.
Variables posX columns : nat.
Variable pColumn : list T_Column.

(** [for (spaces = 0; spaces < table->spacesBetweenBorder; spaces++)] *)
Definition spaces : cstring := repeat SPACE (spacesBetweenBorder table).

(** The row length: the size of the three line buffers. *)
Definition calc_rowLen : nat :=
  fold_left
    (fun rowLen c =>
       let rowLen := rowLen + (col_rowMaxTextLen c + spacesBetweenBorder table * 2 + 1) in
       if col_ansiSeqMaxLen c =? 0 then rowLen
       else rowLen + (col_ansiSeqMaxLen c + length sAnsiSequenceEnd))
    pColumn 2
  + posX.

(** Border and header line: what is written from [posX] up to the NUL,
    behind the [posX] blanks that [memset] left. The NUL lands at index
    [posX + 1 + sum (width + 2 * spaces + 1)], below [calc_rowLen]. *)
Definition border (x : ascii) : list ascii :=
  repeat SPACE posX ++
  charConnectorXY table ::
  flat_map
    (fun c =>
       repeat x (col_rowMaxTextLen c + spacesBetweenBorder table * 2)
       ++ [charConnectorXY table])
    pColumn.

Definition gridBuf : list ascii := border (charGridX table).
Definition headBuf : list ascii := border (charHeadX table).

(** Left boundary and padding in front of column [j] of row [i]. *)
Definition open_column (i j : nat) : cstring :=
  if j =? 0 then
    if i =? 0 then
      match tabStyle with
      | TABSTYLE_COMACT => []
      | TABSTYLE_REGULAR_HEAD_OFF | TABSTYLE_SEPARATED_HEAD_OFF =>
          charGridBoundary table :: spaces
      | TABSTYLE_REGULAR_HEAD_ON | TABSTYLE_SEPARATED_HEAD_ON =>
          charHeadBoundary table :: spaces
      end
    else if is_compact tabStyle then []
         else charGridBoundary table :: spaces
  else spaces.

(** The loop [for (k = 0; k < pColumn[j].rowMaxTextLen; k++)]; [n]
    characters remain. [rowBuf] is what has been written from [posX] on. *)
Fixpoint write_column_row (n k : nat) (e : TextTableEntry_t) (rowBuf : cstring)
  : TextTableEntry_t * cstring :=
  match n with
  | 0 => (e, rowBuf)
  | S n' =>
      let rowBuf :=
        if k =? 0
        then match ansiSeq e with Some a => rowBuf ++ a | None => rowBuf end
        else rowBuf in
      match writeTxt e with
      | Some (c :: rest) =>
          if is_NUL c || is_LF c
          then write_column_row n' (S k) e (rowBuf ++ [SPACE])
          else write_column_row n' (S k) (set_writeTxt e (Some rest)) (rowBuf ++ [c])
      | _ => write_column_row n' (S k) e (rowBuf ++ [SPACE])
      end
  end.

(** Closing tag of the ANSI sequence. *)
Definition ansi_end (e : TextTableEntry_t) : cstring :=
  match ansiSeq e with Some _ => sAnsiSequenceEnd | None => [] end.

(** "check if newline in column row - increase write pointer" *)
Definition skip_newline (e : TextTableEntry_t) (newLine : bool)
  : TextTableEntry_t * bool :=
  match writeTxt e with
  | Some (c :: rest) =>
      if is_LF c then (set_writeTxt e (Some rest), true) else (e, newLine)
  | _ => (e, newLine)
  end.

(** Padding and separator behind column [j]. *)
Definition close_column (j : nat) : cstring :=
  spaces ++
  (if is_compact tabStyle then []
   else if j <? columns - 1 then [charGridSeparator table] else []).

(** Right boundary of row [i]. *)
Definition close_row (i : nat) : cstring :=
  if i =? 0 then
    match tabStyle with
    | TABSTYLE_COMACT => []
    | TABSTYLE_REGULAR_HEAD_OFF | TABSTYLE_SEPARATED_HEAD_OFF =>
        [charGridBoundary table]
    | TABSTYLE_REGULAR_HEAD_ON | TABSTYLE_SEPARATED_HEAD_ON =>
        [charHeadBoundary table]
    end
  else if is_compact tabStyle then [] else [charGridBoundary table].

(** The loop over the columns [j] of one physical line of row [i]; [n]
    columns remain. Returns the cells of the line as they are left, the
    cell behind them, the line and [newLine]. *)
Fixpoint columns_loop (i : nat) (firstRowPerColumn : bool) (n j : nat)
    (pEntry : list TextTableEntry_t) (rowBuf : cstring) (newLine : bool)
  : outcome (list TextTableEntry_t * list TextTableEntry_t * cstring * bool) :=
  match n with
  | 0 => Done ([], pEntry, rowBuf, newLine)
  | S n' =>
      match pEntry with
      | [] => Undefined
      | e :: next =>
          let rowBuf := rowBuf ++ open_column i j in
          let e := if firstRowPerColumn then set_writeTxt e (text e) else e in
          let '(e, rowBuf) :=
            write_column_row (col_rowMaxTextLen (array_get pColumn j)) 0 e rowBuf in
          let rowBuf := rowBuf ++ ansi_end e in
          let '(e, newLine) := skip_newline e newLine in
          let rowBuf := rowBuf ++ close_column j in
          '(es, p, rowBuf, newLine) <-
            columns_loop i firstRowPerColumn n' (S j) next rowBuf newLine ;;
          Done (e :: es, p, rowBuf, newLine)
      end
  end.

(** "first line" *)
Definition first_line (firstTableLine : bool) : list cstring :=
  if firstTableLine then
    match tabStyle with
    | TABSTYLE_COMACT => []
    | TABSTYLE_REGULAR_HEAD_OFF | TABSTYLE_SEPARATED_HEAD_OFF => [c_str gridBuf]
    | TABSTYLE_REGULAR_HEAD_ON | TABSTYLE_SEPARATED_HEAD_ON => [c_str headBuf]
    end
  else [].

(** The [do ... while (newLine)] loop of row [i], started at [pEntrySave].
    Writing the terminating NUL at [idxRow = posX + length rowBuf] must
    stay inside the buffer of [calc_rowLen] bytes. *)
Fixpoint do_while (fuel i : nat) (firstRowPerColumn firstTableLine : bool)
    (pEntrySave : list TextTableEntry_t)
  : outcome (list cstring * list TextTableEntry_t * list TextTableEntry_t) :=
  match fuel with
  | 0 => OutOfFuel
  | S fuel' =>
      '(es, pEntry, rowBuf, newLine) <-
        columns_loop i firstRowPerColumn columns 0 pEntrySave [] false ;;
      let rowBuf := rowBuf ++ close_row i in
      if posX + length rowBuf <? calc_rowLen then
        let out := first_line firstTableLine
                   ++ [c_str (repeat SPACE posX ++ rowBuf)] in
        if newLine then
          '(lines, es, pEntry) <- do_while fuel' i false false (es ++ pEntry) ;;
          Done (out ++ lines, es, pEntry)
        else Done (out, es, pEntry)
      else Undefined
  end.

(** A row needs one pass, and one more for every newline it steps over. *)
Definition row_fuel (pEntrySave : list TextTableEntry_t) : nat :=
  S (list_sum (map textLen (firstn columns pEntrySave))).

(** The line behind row [i] of [rows]. *)
Definition after_row (rows i : nat) : list cstring :=
  if i =? 0 then
    match tabStyle with
    | TABSTYLE_COMACT | TABSTYLE_REGULAR_HEAD_OFF => []
    | TABSTYLE_SEPARATED_HEAD_OFF => [c_str gridBuf]
    | TABSTYLE_REGULAR_HEAD_ON | TABSTYLE_SEPARATED_HEAD_ON => [c_str headBuf]
    end
  else if i <? rows - 1 then
    match tabStyle with
    | TABSTYLE_COMACT | TABSTYLE_REGULAR_HEAD_ON | TABSTYLE_REGULAR_HEAD_OFF => []
    | TABSTYLE_SEPARATED_HEAD_OFF | TABSTYLE_SEPARATED_HEAD_ON => [c_str gridBuf]
    end
  else [].

(** The loop over the rows [i]; [n] rows remain. Returns the lines handed
    to the callback, the cells behind [pEntry] as they are left, and the
    cell behind the last row. *)
Fixpoint rows_loop (rows n i : nat) (pEntry : list TextTableEntry_t)
    (firstTableLine : bool)
  : outcome (list cstring * list TextTableEntry_t * list TextTableEntry_t) :=
  match n with
  | 0 => Done ([], [], pEntry)
  | S n' =>
      '(lines, es, pEntry) <-
        do_while (row_fuel pEntry) i true firstTableLine pEntry ;;
      '(lines', es', pEntry) <- rows_loop rows n' (S i) pEntry false ;;
      Done (lines ++ after_row rows i ++ lines', es ++ es', pEntry)
  end.

(** The closing line of the table. *)
Definition last_line : list cstring :=
  if is_compact tabStyle then [] else [c_str gridBuf].

End Render.

(** The callback is opaque to the library, which only calls it: a call is
    recorded as the line handed over. A NULL function pointer is [None]. *)
Inductive callback : Type := PrintLine.

Record print_result : Type := mkResult {
  ret : bool;                        (* the return value *)
  lines : list cstring;              (* the callback's calls, in order *)
  table_after : option TextTable_t;  (* the table as the call leaves it *)
  heap_after : heap
}.

Definition TextTablePrint (table : option TextTable_t)
    (PrintLineCallbackFunction : option callback) (tabStyle : TabStyle_e)
    (posX columns : nat) (h : heap) : outcome print_result :=
  match table with
  | None => Done (mkResult false [] None h)
  | Some t =>
  match PrintLineCallbackFunction with
  | None => Done (mkResult false [] table h)
  | Some _ =>
  if TEXT_TABLE_MAX_X_POS <? posX then Done (mkResult false [] table h)
  else if columns =? 0 then Done (mkResult false [] table h)
  else if entries t =? 0 then Done (mkResult false [] table h)
  else
    let rows := entries t / columns in
    if negb (entries t =? rows * columns) then Done (mkResult false [] table h)
    else
      let '(pColumn_p, h) := malloc h in
      match pColumn_p with
      | None => Done (mkResult false [] table h)
      | Some pColumn_p =>
        '(_, pColumn) <-
          metrics_rows columns rows (chain t) (repeat (mkColumn 0 0) columns) ;;
        let '(rowBuf_p, h) := malloc h in
        match rowBuf_p with
        | None => Done (mkResult false [] table h)
        | Some rowBuf_p =>
          let '(gridBuf_p, h) := malloc h in
          match gridBuf_p with
          | None => Done (mkResult false [] table h)
          | Some gridBuf_p =>
            let '(headBuf_p, h) := malloc h in
            match headBuf_p with
            | None => Done (mkResult false [] table h)
            | Some headBuf_p =>
              '(out, es, pEntry) <-
                rows_loop t tabStyle posX columns pColumn rows rows 0 (chain t) true ;;
              let out := out ++ last_line t tabStyle posX pColumn in
              let h := free gridBuf_p h in
              let h := free headBuf_p h in
              let h := free rowBuf_p h in
              let h := free pColumn_p h in
              Done (mkResult true out (Some (set_chain t (es ++ pEntry))) h)
            end
          end
        end
      end
  end
  end.

(** *** TextTableFree *)

(** The cells above hold what [text] and [ansiSeq] point to, not where it
    lies. [TextTableFree] hands the pointers to [free], so the places are
    kept beside the chain: for every cell the block of the node and the
    blocks of its text and of its style prefix. *)
Record T_Blocks : Type := mkBlocks {
  node_p : nat;
  text_p : option nat;
  ansiSeq_p : option nat
}.

(** [TextTableAdd] with the blocks that its [malloc] calls return written
    down in [places]. *)
Definition TextTableAdd_at (table : option TextTable_t) (places : list T_Blocks)
    (ansi : option cstring) (format : option cstring) (h : heap)
  : outcome (bool * option TextTable_t * list T_Blocks * heap) :=
  match table with
  | None => Done (false, None, places, h)
  | Some t =>
    let '(p, h) := malloc h in
    match p with
    | None => Done (false, Some t, places, h)
    | Some p =>
      let pEntry := zero_entry in
      let b := mkBlocks p None None in
      let t := link_entry t pEntry in
      match format with
      | None => Done (true, Some t, places ++ [b], h)
      | Some formatted =>
        let textLen := length formatted in
        if 0 <? textLen then
          '(pEntry, b, h) <-
            match ansi with
            | Some a =>
                if length a <? TEXT_TABLE_MAX_ANSI_SEQ_LEN then
                  let '(q, h) := malloc h in
                  match q with
                  | Some q =>
                      Done (mkEntry (text pEntry) (rowMaxTextLen pEntry)
                                    (Some a) (writeTxt pEntry),
                            mkBlocks p None (Some q), h)
                  | None => Undefined
                  end
                else Done (pEntry, b, h)
            | None => Done (pEntry, b, h)
            end ;;
          let t := set_tail t pEntry in
          let textLen :=
            if TEXT_TABLE_MAX_COLUMN_LEN <? textLen
            then TEXT_TABLE_MAX_COLUMN_LEN else textLen in
          let '(r, h) := malloc h in
          match r with
          | None => Done (false, Some t, places ++ [b], h)
          | Some r =>
            let txt := firstn textLen formatted in
            let pEntry := mkEntry (Some txt) (calc_rowMaxTextLen txt)
                                  (ansiSeq pEntry) (writeTxt pEntry) in
            Done (true, Some (set_tail t pEntry),
                  places ++ [mkBlocks p (Some r) (ansiSeq_p b)], h)
          end
        else Done (true, Some t, places ++ [b], h)
      end
    end
  end.

(** [free(p)]: the block must be live. *)
Definition free_live (p : nat) (h : heap) : outcome heap :=
  if existsb (Nat.eqb p) (live h) then Done (free p h) else Undefined.

(** The loop [while (NULL != pEntry)] of [TextTableFree]. *)
Fixpoint free_entries (pEntry : list TextTableEntry_t) (places : list T_Blocks)
    (h : heap) : outcome heap :=
  match pEntry with
  | [] => Done h
  | e :: pEntryNext =>
      match places with
      | [] => Undefined
      | b :: places =>
          h <- match text e with
               | None => Done h
               | Some _ =>
                   match text_p b with
                   | Some p => free_live p h
                   | None => Undefined
                   end
               end ;;
          h <- match ansiSeq e with
               | None => Done h
               | Some _ =>
                   match ansiSeq_p b with
                   | Some p => free_live p h
                   | None => Undefined
                   end
               end ;;
          h <- free_live (node_p b) h ;;
          free_entries pEntryNext places h
      end
  end.

Definition TextTableFree (table : option TextTable_t) (places : list T_Blocks)
    (h : heap) : outcome (option TextTable_t * list T_Blocks * heap) :=
  match table with
  | None => Done (None, places, h)
  | Some t =>
      h <- free_entries (chain t) places h ;;
      Done (Some (mkTable [] 0
                          (charGridX t) (charGridBoundary t) (charGridSeparator t)
                          (charHeadX t) (charHeadBoundary t) (charHeadSeparator t)
                          (charConnectorXY t) (spacesBetweenBorder t)),
            [], h)
  end.

(** ** Definitions used to state the properties *)

Definition str (s : string) : cstring := list_ascii_of_string s.

(** A heap with nothing allocated whose allocator never fails. *)
Definition empty_heap : heap := mkHeap [] 0 [].

(** A run of [TextTableAdd] calls, each of which has to return [true]. *)
Fixpoint add_all (cells : list (option cstring * option cstring))
    (table : option TextTable_t) (h : heap) : outcome (option TextTable_t * heap) :=
  match cells with
  | [] => Done (table, h)
  | (ansi, format) :: rest =>
      '(ok, table, h) <- TextTableAdd table ansi format h ;;
      if ok : bool then add_all rest table h else Undefined
  end.

(** The table [TextTableInit] leaves behind. *)
Definition fresh_table : option TextTable_t :=
  snd (TextTableInit (Some (mkTable [] 0 NUL NUL NUL NUL NUL NUL NUL 0))).

(** Splitting a text at its newline characters. *)
Fixpoint split_newline (txt : cstring) : list cstring :=
  match txt with
  | [] => [[]]
  | c :: rest =>
      if is_LF c then [] :: split_newline rest
      else match split_newline rest with
           | s :: ss => (c :: s) :: ss
           | [] => [[c]]
           end
  end.

(** The width the specification gives a cell: the longest piece of its
    content split at newlines, and at least 1; absent content is empty. *)
Definition max_subrow_width (content : option cstring) : nat :=
  Nat.max 1
    (list_max (map (@length ascii)
                   (split_newline (match content with Some s => s | None => [] end)))).

(** The content [TextTableAdd] stores for a formatted text. *)
Definition stored_text (format : option cstring) : option cstring :=
  match format with
  | Some (c :: f) => Some (firstn TEXT_TABLE_MAX_COLUMN_LEN (c :: f))
  | _ => None
  end.

(** The column widths [TextTablePrint] computes for a table. *)
Definition column_metrics (t : TextTable_t) (columns : nat) : list T_Column :=
  match metrics_rows columns (entries t / columns) (chain t)
                     (repeat (mkColumn 0 0) columns) with
  | Done (_, pColumn) => pColumn
  | _ => []
  end.

(** The regular divider line and the header divider line of a table. *)
Definition grid_line (t : TextTable_t) (posX columns : nat) : cstring :=
  c_str (gridBuf t posX (column_metrics t columns)).

Definition head_line (t : TextTable_t) (posX columns : nat) : cstring :=
  c_str (headBuf t posX (column_metrics t columns)).

(** The content lines of row [i]: what the [do ... while] loop of that row
    hands to the callback, the first line of the table apart. *)
Definition row_lines_with (t : TextTable_t) (tabStyle : TabStyle_e)
    (posX columns : nat) (pColumn : list T_Column) (i : nat)
    (pEntrySave : list TextTableEntry_t) : list cstring :=
  match do_while t tabStyle posX columns pColumn
                 (row_fuel columns pEntrySave) i true false pEntrySave with
  | Done (ls, _, _) => ls
  | _ => []
  end.

Definition row_lines_at (t : TextTable_t) (tabStyle : TabStyle_e)
    (posX columns i : nat) (pEntrySave : list TextTableEntry_t) : list cstring :=
  row_lines_with t tabStyle posX columns (column_metrics t columns) i pEntrySave.

Definition row_lines (t : TextTable_t) (tabStyle : TabStyle_e)
    (posX columns i : nat) : list cstring :=
  row_lines_at t tabStyle posX columns i (skipn (i * columns) (chain t)).

(** Forgetting the write pointer of a cell. *)
Definition erase (e : TextTableEntry_t) : TextTableEntry_t := set_writeTxt e None.

(** What is left to read behind the write pointer. *)
Definition cursor_len (e : TextTableEntry_t) : nat :=
  match writeTxt e with Some s => length s | None => 0 end.


(** The six cells of the end-to-end example. *)
Definition example_cells : list (option cstring * option cstring) :=
  [ (None, Some (str "H1")); (None, Some (str "H2"));
    (None, Some (str "R1C1")); (None, Some (str "R1C2" ++ [LF] ++ str "R1C2b"));
    (None, Some (str "R2C1")); (None, Some (str "R2C2")) ].

Definition example_table : TextTable_t :=
  mkTable
    [ mkEntry (Some (str "H1")) 2 None None;
      mkEntry (Some (str "H2")) 2 None None;
      mkEntry (Some (str "R1C1")) 4 None None;
      mkEntry (Some (str "R1C2" ++ [LF] ++ str "R1C2b")) 5 None None;
      mkEntry (Some (str "R2C1")) 4 None None;
      mkEntry (Some (str "R2C2")) 4 None None ]
    6 "-"%char "|"%char "|"%char "="%char "|"%char "|"%char "+"%char 1.

Definition example_heap : heap := mkHeap (rev (seq 0 12)) 12 [].

(** Style prefixes of 23, 24 and 25 characters. *)
Definition prefix23 : cstring := str "0123456789abcdefghijklm".
Definition prefix24 : cstring := str "0123456789abcdefghijklmn".
Definition prefix25 : cstring := str "0123456789abcdefghijklmno".

(** The style prefix of the cell at the tail of a table. *)
Definition tail_ansiSeq (table : option TextTable_t) : option cstring :=
  match table with
  | Some t => ansiSeq (last (chain t) zero_entry)
  | None => None
  end.

(** What a caller can see of a call of [TextTablePrint]: the return value
    and the lines handed to the callback. *)
Definition observable (o : outcome print_result) : outcome (bool * list cstring) :=
  r <- o ;; Done (ret r, lines r).

(** A row result put back in front of the cells behind the row. *)
Definition frame (A : Type) (r : list TextTableEntry_t)
    (o : outcome (A * list TextTableEntry_t))
  : outcome (A * list TextTableEntry_t * list TextTableEntry_t) :=
  '(x, es) <- o ;; Done (x, es, r).


(** What bounds the number of further passes over a row: the text of its
    cells before the first pass, what is left behind the write pointers
    after it. *)
Definition row_measure (firstRowPerColumn : bool) (a : list TextTableEntry_t) : nat :=
  if firstRowPerColumn then list_sum (map textLen a)
  else list_sum (map cursor_len a).

(** The result of printing the example table with the bordered style with
    header and 2 columns. *)
Definition example_result : print_result :=
  Eval vm_compute in
    match TextTablePrint (Some example_table) (Some PrintLine)
                         TABSTYLE_REGULAR_HEAD_ON 0 2 example_heap with
    | Done r => r
    | _ => mkResult false [] None example_heap
    end.

(** The dividers behind row [i] of [rows] in the two styles without
    header. *)
Definition divider_after (tabStyle : TabStyle_e) (rows i : nat) (grid : cstring)
  : list cstring :=
  match tabStyle with
  | TABSTYLE_SEPARATED_HEAD_OFF =>
      if (i =? 0) || (i <? rows - 1) then [grid] else []
  | _ => []
  end.

(** A table with one cell that was added with an empty style prefix. *)
Definition empty_prefix_cells : list (option cstring * option cstring) :=
  [ (Some (str ""), Some (str "H1")) ].

(** The dividers behind row [i] of [rows] in the two styles with header. *)
Definition divider_after_header (tabStyle : TabStyle_e) (rows i : nat)
    (head grid : cstring) : list cstring :=
  if i =? 0 then [head]
  else match tabStyle with
       | TABSTYLE_SEPARATED_HEAD_ON => if i <? rows - 1 then [grid] else []
       | _ => []
       end.

(** Changing the seven border characters of a table. *)
Definition set_border_chars (t : TextTable_t)
    (gridX gridBoundary gridSeparator headX headBoundary headSeparator
     connectorXY : ascii) : TextTable_t :=
  mkTable (chain t) (entries t)
          gridX gridBoundary gridSeparator headX headBoundary headSeparator
          connectorXY (spacesBetweenBorder t).

(** Changing the three header characters of a table. *)
Definition set_header_chars (t : TextTable_t)
    (headX headBoundary headSeparator : ascii) : TextTable_t :=
  mkTable (chain t) (entries t)
          (charGridX t) (charGridBoundary t) (charGridSeparator t)
          headX headBoundary headSeparator
          (charConnectorXY t) (spacesBetweenBorder t).

(** The table [t] with the cell [e] linked behind its tail. *)
Definition with_cell (t : TextTable_t) (e : TextTableEntry_t) : TextTable_t :=
  mkTable (chain t ++ [e]) (S (entries t))
          (charGridX t) (charGridBoundary t) (charGridSeparator t)
          (charHeadX t) (charHeadBoundary t) (charHeadSeparator t)
          (charConnectorXY t) (spacesBetweenBorder t).

(** What [TextTableAdd] establishes for a cell: the width fits the text,
    the text is not empty and at most 96 characters long, the style prefix
    is shorter than 24 characters. *)
Definition wf_cell (e : TextTableEntry_t) : Prop :=
  rowMaxTextLen e
  = match text e with
    | Some txt => calc_rowMaxTextLen txt
    | None => 0
    end /\
  text e <> Some [] /\
  textLen e <= TEXT_TABLE_MAX_COLUMN_LEN /\
  ansiSeqLen e < TEXT_TABLE_MAX_ANSI_SEQ_LEN.

(** The invariant of a table: [entries] counts the chain, and every cell
    is as [TextTableAdd] makes it. *)
Definition wf_table (t : TextTable_t) : Prop :=
  entries t = length (chain t) /\ Forall wf_cell (chain t).

(** The configuration of a table: the seven characters and the padding. *)
Definition config (t : TextTable_t)
  : ascii * ascii * ascii * ascii * ascii * ascii * ascii * nat :=
  (charGridX t, charGridBoundary t, charGridSeparator t, charHeadX t,
   charHeadBoundary t, charHeadSeparator t, charConnectorXY t,
   spacesBetweenBorder t).

(** One row of the width calculation: every column is updated with the
    cell of the row that lies in it. *)
Fixpoint update_columns (pColumn : list T_Column) (row : list TextTableEntry_t)
  : list T_Column :=
  match pColumn with
  | [] => []
  | c :: pc =>
      match row with
      | [] => c :: pc
      | e :: a => update_column c e :: update_columns pc a
      end
  end.

(** The cells of column [j]: those at the places [j], [j + columns],
    [j + 2 * columns], ... of the chain, one for each of [rows] rows. *)
Fixpoint column_cells (rows columns j : nat) (p : list TextTableEntry_t)
  : list TextTableEntry_t :=
  match rows with
  | 0 => []
  | S n => nth j p zero_entry :: column_cells n columns j (skipn columns p)
  end.

(** A cell is covered by a column that is as wide as the cell and has room
    for its style prefix. *)
Definition covers (e : TextTableEntry_t) (c : T_Column) : Prop :=
  rowMaxTextLen e <= col_rowMaxTextLen c /\ ansiSeqLen e <= col_ansiSeqMaxLen c.

Definition column_le (c c' : T_Column) : Prop :=
  col_rowMaxTextLen c <= col_rowMaxTextLen c' /\
  col_ansiSeqMaxLen c <= col_ansiSeqMaxLen c'.

(** The bytes of a line buffer that [TextTablePrint] sets aside for a
    column: text, padding on both sides, one separator, and style prefix
    with closing tag where a cell of the column has a prefix. *)
Definition col_bytes (t : TextTable_t) (c : T_Column) : nat :=
  col_rowMaxTextLen c + spacesBetweenBorder t * 2 + 1
  + (if col_ansiSeqMaxLen c =? 0 then 0
     else col_ansiSeqMaxLen c + length sAnsiSequenceEnd).

(** A cell fits a column when the column has room for its style prefix,
    if it has one. *)
Definition cell_fits (e : TextTableEntry_t) (c : T_Column) : Prop :=
  match ansiSeq e with
  | None => True
  | Some a => 0 < col_ansiSeqMaxLen c /\ length a <= col_ansiSeqMaxLen c
  end.

(** No cell has the empty string as style prefix. *)
Definition no_empty_prefix (e : TextTableEntry_t) : Prop := ansiSeq e <> Some [].

(** The first row of a text: what stands before its first newline. *)
Fixpoint first_row (p : cstring) : cstring :=
  match p with
  | [] => []
  | c :: rest => if is_LF c then [] else c :: first_row rest
  end.

(** What stands behind the first newline of a text. *)
Fixpoint after_newline (p : cstring) : cstring :=
  match p with
  | [] => []
  | c :: rest => if is_LF c then rest else after_newline rest
  end.

Definition has_newline (p : cstring) : bool := existsb is_LF p.

Definition has_NUL (p : cstring) : bool := existsb is_NUL p.

(** The text of a cell; a cell without text has the empty text. *)
Definition cell_text (e : TextTableEntry_t) : cstring :=
  match text e with Some s => s | None => [] end.

(** The rows of a cell: the pieces of its text between newlines. *)
Definition cell_rows (e : TextTableEntry_t) : list cstring :=
  split_newline (cell_text e).

Definition cell_row (e : TextTableEntry_t) (k : nat) : cstring :=
  nth k (cell_rows e) [].

(** The number of lines a row of the table takes: that of its cell with
    the most rows. *)
Definition row_height (a : list TextTableEntry_t) : nat :=
  list_max (map (fun e => length (cell_rows e)) a).

Definition ansi_start (e : TextTableEntry_t) : cstring :=
  match ansiSeq e with Some a => a | None => [] end.

(** Row [k] of a cell in a column of width [w]: the text of the row,
    left-aligned and filled up with blanks, between the style prefix and
    the closing tag if the cell has a prefix. *)
Definition cell_box (e : TextTableEntry_t) (w k : nat) : cstring :=
  (if 0 <? w then ansi_start e else [])
  ++ cell_row e k ++ repeat SPACE (w - length (cell_row e k))
  ++ ansi_end e.

(** Line [k] of row [i] from column [j] on: for every cell what stands in
    front of its column, its box, and what stands behind its column. *)
Fixpoint row_boxes (t : TextTable_t) (tabStyle : TabStyle_e) (columns : nat)
    (pColumn : list T_Column) (i k j : nat) (a : list TextTableEntry_t) : cstring :=
  match a with
  | [] => []
  | e :: a' =>
      open_column t tabStyle i j
      ++ cell_box e (col_rowMaxTextLen (array_get pColumn j)) k
      ++ close_column t tabStyle columns j
      ++ row_boxes t tabStyle columns pColumn i k (S j) a'
  end.

(** Line [k] of row [i] as the callback gets it. *)
Definition rendered_line (t : TextTable_t) (tabStyle : TabStyle_e)
    (posX columns : nat) (pColumn : list T_Column) (i : nat)
    (a : list TextTableEntry_t) (k : nat) : cstring :=
  c_str (repeat SPACE posX
         ++ row_boxes t tabStyle columns pColumn i k 0 a
         ++ close_row t tabStyle i).

(** A cell with its write pointer behind [k] rows of its text. *)
Definition cell_at (e : TextTableEntry_t) (k : nat) : TextTableEntry_t :=
  set_writeTxt e (option_map (Nat.iter k after_newline) (text e)).

(** The text of a cell holds no NUL character, and every row of it fits the
    column. *)
Definition cell_shown (e : TextTableEntry_t) (c : T_Column) : Prop :=
  has_NUL (cell_text e) = false /\
  forall k, length (cell_row e k) <= col_rowMaxTextLen c.

Definition no_NUL (e : TextTableEntry_t) : Prop := has_NUL (cell_text e) = false.

(** The cells of row [i] of a table printed with [columns] columns. *)
Definition row_cells (t : TextTable_t) (columns i : nat) : list TextTableEntry_t :=
  firstn columns (skipn (i * columns) (chain t)).

(** None of the characters that [TextTablePrint] draws the frame with is
    the NUL character. *)
Definition visible_chars (t : TextTable_t) : Prop :=
  Forall (fun c => is_NUL c = false)
         [charGridX t; charGridBoundary t; charGridSeparator t;
          charHeadX t; charHeadBoundary t; charConnectorXY t].

Definition no_prefix (e : TextTableEntry_t) : Prop := ansiSeq e = None.

(** The width of a framed table: the indentation, the left boundary, and
    for every column its width, the padding on both sides and one
    separator or boundary. *)
Definition table_width (t : TextTable_t) (posX columns : nat) : nat :=
  posX + 1
  + list_sum (map (fun c => col_rowMaxTextLen c + spacesBetweenBorder t * 2 + 1)
                  (column_metrics t columns)).

(** The output of a table, put together from what a line shows. *)
Definition rendered_table (t : TextTable_t) (tabStyle : TabStyle_e)
    (posX columns : nat) : list cstring :=
  first_line t tabStyle posX (column_metrics t columns) true
  ++ concat
       (map (fun i =>
               map (rendered_line t tabStyle posX columns
                                  (column_metrics t columns) i
                                  (row_cells t columns i))
                   (seq 0 (row_height (row_cells t columns i)))
               ++ after_row t tabStyle posX (column_metrics t columns)
                            (entries t / columns) i)
            (seq 0 (entries t / columns)))
  ++ last_line t tabStyle posX (column_metrics t columns).

(** A run of [TextTableAdd] calls whose return values are not looked at. *)
Fixpoint adds_at (cells : list (option cstring * option cstring))
    (table : option TextTable_t) (places : list T_Blocks) (h : heap)
  : outcome (option TextTable_t * list T_Blocks * heap) :=
  match cells with
  | [] => Done (table, places, h)
  | (ansi, format) :: rest =>
      '(_, table, places, h) <- TextTableAdd_at table places ansi format h ;;
      adds_at rest table places h
  end.

(** The blocks of a cell, in the order in which [TextTableFree] frees them. *)
Definition blocks_of (b : T_Blocks) : list nat :=
  match text_p b with Some p => [p] | None => [] end
  ++ match ansiSeq_p b with Some p => [p] | None => [] end
  ++ [node_p b].

(** A cell and its places agree on which pointers are NULL. *)
Definition placed (e : TextTableEntry_t) (b : T_Blocks) : Prop :=
  (text e = None <-> text_p b = None) /\
  (ansiSeq e = None <-> ansiSeq_p b = None).

(** The table owns its blocks: every cell has its places, no block is used
    twice, and the live blocks are those of the cells, latest first, on top
    of those of [h0]. *)
Definition owns (h0 : heap) (t : TextTable_t) (places : list T_Blocks)
    (h : heap) : Prop :=
  Forall2 placed (chain t) places /\
  NoDup (flat_map blocks_of places) /\
  Forall (fun p => next_block h0 <= p < next_block h) (flat_map blocks_of places) /\
  live h = flat_map blocks_of (rev places) ++ live h0 /\
  next_block h0 <= next_block h.

(** The table [TextTableFree] leaves behind. *)
Definition emptied (t : TextTable_t) : TextTable_t :=
  mkTable [] 0
          (charGridX t) (charGridBoundary t) (charGridSeparator t)
          (charHeadX t) (charHeadBoundary t) (charHeadSeparator t)
          (charConnectorXY t) (spacesBetweenBorder t).

(** Cells for a run of calls that takes every path of [TextTableAdd]. *)
Definition mixed_cells : list (option cstring * option cstring) :=
  [ (None, Some (str "a"));
    (Some (str "bold"), Some (str "b"));
    (Some (str "bold"), None);
    (Some (str "bold"), Some (str "c"));
    (None, Some (str "d")) ].

(** A heap whose ninth [malloc] fails: the text of the fourth cell. *)
Definition failing_heap : heap :=
  mkHeap [] 0 [true; true; true; true; true; true; true; true; false].

Definition mixed_run : option TextTable_t * list T_Blocks * heap :=
  Eval vm_compute in
    match adds_at mixed_cells fresh_table [] failing_heap with
    | Done r => r
    | _ => (None, [], failing_heap)
    end.

(** Freeing the blocks [ps] one after the other. *)
Fixpoint free_all (ps : list nat) (h : heap) : outcome heap :=
  match ps with
  | [] => Done h
  | p :: ps => h <- free_live p h ;; free_all ps h
  end.

(** The cell that a call of [TextTableAdd] with the style prefix [fst c]
    and the formatted text [snd c] links when it returns [true]. *)
Definition built_cell (c : option cstring * option cstring) : TextTableEntry_t :=
  mkEntry (stored_text (snd c))
          (match stored_text (snd c) with
           | Some txt => calc_rowMaxTextLen txt
           | None => 0
           end)
          (match stored_text (snd c), fst c with
           | Some _, Some a =>
               if length a <? TEXT_TABLE_MAX_ANSI_SEQ_LEN then Some a else None
           | _, _ => None
           end)
          None.

(** A line moved [posX] places to the right. *)
Definition indent (posX : nat) (l : cstring) : cstring := repeat SPACE posX ++ l.

(** The result of a call with its lines moved to the right. *)
Definition indent_result (posX : nat) (r : print_result) : print_result :=
  mkResult (ret r) (map (indent posX) (lines r)) (table_after r) (heap_after r).

(** * Properties *)

(** ** Small facts *)

Lemma ltb_max (a b : nat) : (if a <? b then b else a) = Nat.max a b.
Proof.
  destruct (Nat.ltb_spec a b); lia.
Qed.

Lemma set_tail_link (t : TextTable_t) (e0 e : TextTableEntry_t) :
  chain (set_tail (link_entry t e0) e) = chain t ++ [e].
Proof.
  unfold set_tail, link_entry; simpl.
  now rewrite removelast_last.
Qed.

Lemma app_eq_length (A : Type) (a1 : list A) :
  forall b1 a2 b2,
    length a1 = length b1 -> a1 ++ a2 = b1 ++ b2 -> a1 = b1 /\ a2 = b2.
Proof.
  induction a1 as [|x a1 IH]; intros [|y b1] a2 b2 Hlen H; try discriminate.
  - now split.
  - injection Hlen as Hlen. injection H as -> H.
    destruct (IH b1 a2 b2 Hlen H) as [-> ->]. now split.
Qed.

(** ** TextTableAdd *)

Section ScanRows.

(** The scan of the text agrees with splitting it at newlines, for every
    state [rowMax], [rowTextLen] the loop can be in. *)
Lemma scan_rows_split (txt : cstring) :
  forall rowMax rowTextLen,
    Nat.max (fst (scan_rows txt rowMax rowTextLen))
            (snd (scan_rows txt rowMax rowTextLen))
    = Nat.max rowMax
        (match split_newline txt with
         | s :: ss => Nat.max (rowTextLen + length s)
                              (list_max (map (@length ascii) ss))
         | [] => rowTextLen
         end).
Proof.
  induction txt as [|c rest IH]; intros rowMax rowTextLen.
  - cbn -[Nat.max]. lia.
  - simpl scan_rows; simpl split_newline. destruct (is_LF c).
    + rewrite IH, ltb_max. cbn -[Nat.max].
      destruct (split_newline rest) as [|s ss]; unfold list_max; cbn -[Nat.max]; lia.
    + rewrite IH.
      destruct (split_newline rest) as [|s ss]; unfold list_max; cbn -[Nat.max]; lia.
Qed.

Lemma calc_rowMaxTextLen_spec (txt : cstring) :
  calc_rowMaxTextLen txt = max_subrow_width (Some txt).
Proof.
  unfold calc_rowMaxTextLen, max_subrow_width.
  pose proof (scan_rows_split txt 1 0) as H.
  destruct (scan_rows txt 1 0) as [a b]; cbn -[Nat.max] in H.
  rewrite ltb_max, H.
  destruct (split_newline txt) as [|s ss]; unfold list_max; cbn -[Nat.max]; lia.
Qed.

End ScanRows.

Lemma firstn_cap (A : Type) (m : nat) (l : list A) :
  firstn (if m <? length l then m else length l) l = firstn m l.
Proof.
  destruct (Nat.ltb_spec m (length l)) as [H|H]; [reflexivity|].
  now rewrite !firstn_all2 by lia.
Qed.

Ltac add_step :=
  cbn [bind fst snd text ansiSeq rowMaxTextLen writeTxt chain entries
       zero_entry link_entry set_tail stored_text] in *.

(** What a call of [TextTableAdd] on a table can do, path by path. *)
Lemma TextTableAdd_paths (t : TextTable_t) (ansi format : option cstring) (h : heap) :
  forall ok t' h',
    TextTableAdd (Some t) ansi format h = Done (ok, t', h') ->
    (ok = false /\ t' = Some t /\ fst (malloc h) = None) \/
    (exists e t1,
        t' = Some t1 /\ chain t1 = chain t ++ [e] /\ entries t1 = S (entries t) /\
        fst (malloc h) <> None /\
        ((ok = true /\ text e = stored_text format /\
          rowMaxTextLen e
            = match text e with
              | Some txt => calc_rowMaxTextLen txt
              | None => 0
              end /\
          ansiSeq e
            = match stored_text format, ansi with
              | Some _, Some a =>
                  if length a <? TEXT_TABLE_MAX_ANSI_SEQ_LEN then Some a else None
              | _, _ => None
              end)
         \/ (ok = false /\ stored_text format <> None /\
             text e = None /\ rowMaxTextLen e = 0))).
Proof.
  intros ok t' h'. unfold TextTableAdd.
  destruct (malloc h) as [[p|] h1] eqn:Hm; add_step.
  2:{ intros [= <- <- <-]. now left. }
  assert (Hzero : exists e t1,
             Some (link_entry t zero_entry) = Some t1 /\
             chain t1 = chain t ++ [e] /\ entries t1 = S (entries t) /\
             Some p <> None (A:=nat) /\
             text e = None /\ rowMaxTextLen e = 0 /\ ansiSeq e = None).
  { exists zero_entry, (link_entry t zero_entry). repeat split. discriminate. }
  destruct format as [[|c f]|].
  - intros [= <- <- <-]. right.
    destruct Hzero as (e & t1 & -> & Hc & He & Hp & Ht & Hr & Ha).
    exists e, t1. repeat split; trivial. left. rewrite Ht, Hr, Ha. now repeat split.
  - cbv zeta. change (0 <? length (c :: f)) with true. cbv iota.
    rewrite firstn_cap.
    set (txt := firstn TEXT_TABLE_MAX_COLUMN_LEN (c :: f)).
    intros H. right.
    destruct ansi as [a|]; add_step.
    + destruct (length a <? TEXT_TABLE_MAX_ANSI_SEQ_LEN) eqn:Hlen.
      * destruct (malloc h1) as [[q|] h2]; add_step; [|discriminate].
        destruct (malloc h2) as [[r|] h3]; injection H as <- <- <-.
        -- eexists; eexists. split; [reflexivity|].
           unfold set_tail at 1. cbn [chain entries].
           rewrite set_tail_link, removelast_last.
           repeat split; try discriminate. left. now repeat split.
        -- eexists; eexists. split; [reflexivity|]. rewrite set_tail_link.
           repeat split; try discriminate. right. repeat split. discriminate.
      * add_step.
        destruct (malloc h1) as [[r|] h3]; injection H as <- <- <-.
        -- eexists; eexists. split; [reflexivity|].
           unfold set_tail at 1. cbn [chain entries].
           rewrite set_tail_link, removelast_last.
           repeat split; try discriminate. left. now repeat split.
        -- eexists; eexists. split; [reflexivity|]. rewrite set_tail_link.
           repeat split; try discriminate. right. repeat split. discriminate.
    + destruct (malloc h1) as [[r|] h3]; injection H as <- <- <-.
      * eexists; eexists. split; [reflexivity|].
        unfold set_tail at 1. cbn [chain entries].
        rewrite set_tail_link, removelast_last.
        repeat split; try discriminate. left. now repeat split.
      * eexists; eexists. split; [reflexivity|]. rewrite set_tail_link.
        repeat split; try discriminate. right. repeat split. discriminate.
  - intros [= <- <- <-]. right.
    destruct Hzero as (e & t1 & -> & Hc & He & Hp & Ht & Hr & Ha).
    exists e, t1. repeat split; trivial. left. rewrite Ht, Hr, Ha. now repeat split.
Qed.

(** C4. The specification keeps a style prefix of exactly 24 characters.
    On the code, [TextTableAdd] with non-empty text and a prefix of 24
    characters returns [true] and stores the cell without a prefix, as it
    does for 25 characters; 23 characters is the longest prefix kept. *)
Theorem C4_prefix_at_cap_dropped :
  length prefix24 = TEXT_TABLE_MAX_ANSI_SEQ_LEN /\
  (exists t' h',
      TextTableAdd fresh_table (Some prefix24) (Some (str "x")) empty_heap
        = Done (true, t', h') /\
      tail_ansiSeq t' = None) /\
  (exists t' h',
      TextTableAdd fresh_table (Some prefix25) (Some (str "x")) empty_heap
        = Done (true, t', h') /\
      tail_ansiSeq t' = None) /\
  (exists t' h',
      TextTableAdd fresh_table (Some prefix23) (Some (str "x")) empty_heap
        = Done (true, t', h') /\
      tail_ansiSeq t' = Some prefix23).
Proof.
  split; [reflexivity|].
  repeat split; eexists; eexists; (split; [vm_compute; reflexivity|reflexivity]).
Qed.

(** C5 as stated fails: a cell added without text has width 0, where the
    specification gives it width 1. *)
Lemma C5_absent_text_has_width_0 :
  ~ (forall t ansi format h ok t' h' e,
        TextTableAdd (Some t) ansi format h = Done (ok, Some t', h') ->
        chain t' = chain t ++ [e] ->
        rowMaxTextLen e = max_subrow_width (text e)).
Proof.
  intros H.
  destruct fresh_table as [t|] eqn:Ht; [|discriminate].
  specialize (H t None None empty_heap true
                (link_entry t zero_entry) (mkHeap [0] 1 []) zero_entry).
  injection Ht as <-.
  discriminate H; reflexivity.
Qed.

(** C5, amended. A cell that [TextTableAdd] stores with content has as
    [rowMaxTextLen] the length of the longest piece of the stored content
    split at newlines, and at least 1; the content is the formatted text cut
    at 96 characters, and is never the empty text. A cell stored without
    content (text absent or empty, or the text buffer not allocated) has
    [rowMaxTextLen] 0. *)
Theorem C5_rowMaxTextLen_of_added_cell
    (t : TextTable_t) (ansi format : option cstring) (h : heap)
    (ok : bool) (t' : TextTable_t) (h' : heap) :
  TextTableAdd (Some t) ansi format h = Done (ok, Some t', h') ->
  fst (malloc h) <> None ->
  exists e,
    chain t' = chain t ++ [e] /\
    text e = (if ok then stored_text format else None) /\
    text e <> Some [] /\
    rowMaxTextLen e
      = match text e with
        | Some _ => max_subrow_width (text e)
        | None => 0
        end.
Proof.
  intros H Hm. apply TextTableAdd_paths in H.
  destruct H as [(_ & _ & Hn)|(e & t1 & [= <-] & Hc & _ & _ & H)];
    [contradiction|].
  exists e. destruct H as [(-> & Ht & Hr & _)|(-> & _ & Ht & Hr)].
  - repeat split; trivial.
    + rewrite Ht. destruct format as [[|c f]|]; discriminate.
    + rewrite Hr. destruct (text e); [apply calc_rowMaxTextLen_spec | reflexivity].
  - rewrite Ht, Hr. repeat split; trivial. discriminate.
Qed.

Lemma C5_rowMaxTextLen_of_added_cell_witness :
  (TextTableAdd (Some example_table) None (Some (str "a" ++ [LF] ++ str "bb"))
                empty_heap
     = Done (true,
             Some (set_tail (link_entry example_table zero_entry)
                     (mkEntry (Some (str "a" ++ [LF] ++ str "bb")) 2 None None)),
             mkHeap [1; 0] 2 []) /\
   fst (malloc empty_heap) <> None) /\
  exists e,
    chain (set_tail (link_entry example_table zero_entry)
             (mkEntry (Some (str "a" ++ [LF] ++ str "bb")) 2 None None))
      = chain example_table ++ [e] /\
    text e = stored_text (Some (str "a" ++ [LF] ++ str "bb")) /\
    text e <> Some [] /\
    rowMaxTextLen e
      = match text e with
        | Some _ => max_subrow_width (text e)
        | None => 0
        end.
Proof.
  split; [split; [reflexivity | discriminate]|].
  apply (@C5_rowMaxTextLen_of_added_cell example_table None
           (Some (str "a" ++ [LF] ++ str "bb")) empty_heap true _
           (mkHeap [1; 0] 2 []));
    [reflexivity | discriminate].
Defined.

(** C9. When [TextTableAdd] returns [false] although the node itself was
    allocated (so the allocation of the text buffer failed), the table has
    changed: the new cell, without content, is the tail of the chain and
    the entry count is one higher. *)
Theorem C9_failed_add_keeps_cell
    (t : TextTable_t) (ansi format : option cstring) (h : heap)
    (t' : option TextTable_t) (h' : heap) :
  TextTableAdd (Some t) ansi format h = Done (false, t', h') ->
  fst (malloc h) <> None ->
  exists e t1,
    t' = Some t1 /\
    chain t1 = chain t ++ [e] /\
    text e = None /\ textLen e = 0 /\
    entries t1 = S (entries t).
Proof.
  intros H Hm. apply TextTableAdd_paths in H.
  destruct H as [(_ & _ & Hn)|(e & t1 & -> & Hc & He & _ & H)]; [contradiction|].
  destruct H as [(Hok & _)|(_ & _ & Ht & _)]; [discriminate|].
  exists e, t1. unfold textLen. rewrite Ht. now repeat split.
Qed.

Lemma C9_failed_add_keeps_cell_witness :
  (TextTableAdd (Some example_table) None (Some (str "abc"))
                (mkHeap [] 0 [true; false])
     = Done (false, Some (link_entry example_table zero_entry), mkHeap [0] 1 []) /\
   fst (malloc (mkHeap [] 0 [true; false])) <> None) /\
  exists e t1,
    Some (link_entry example_table zero_entry) = Some t1 /\
    chain t1 = chain example_table ++ [e] /\
    text e = None /\ textLen e = 0 /\
    entries t1 = S (entries example_table).
Proof.
  split; [split; [reflexivity | discriminate]|].
  apply (@C9_failed_add_keeps_cell example_table None (Some (str "abc"))
           (mkHeap [] 0 [true; false]) _ (mkHeap [0] 1 []));
    [reflexivity | discriminate].
Defined.

Lemma write_column_row_blank (n : nat) :
  forall k e rowBuf,
    ansiSeq e = None -> writeTxt e = None ->
    write_column_row n k e rowBuf = (e, rowBuf ++ repeat SPACE n).
Proof.
  induction n as [|n IH]; intros k e rowBuf Ha Hw; simpl.
  - now rewrite app_nil_r.
  - rewrite Ha, Hw. destruct (k =? 0); rewrite IH by assumption;
      now rewrite <- app_assoc.
Qed.

(** C10. When the formatted text is absent or empty, the cell that
    [TextTableAdd] stores has no style prefix, whatever prefix was passed;
    written into a column of any width it gives blanks only, with neither
    the prefix nor the closing tag. *)
Theorem C10_no_text_no_prefix
    (t : TextTable_t) (ansi format : option cstring) (h : heap)
    (t' : option TextTable_t) (h' : heap) :
  format = None \/ format = Some [] ->
  TextTableAdd (Some t) ansi format h = Done (true, t', h') ->
  exists e t1,
    t' = Some t1 /\ chain t1 = chain t ++ [e] /\
    ansiSeq e = None /\ ansiSeqLen e = 0 /\
    ansi_end e = [] /\
    forall n rowBuf,
      write_column_row n 0 (set_writeTxt e (text e)) rowBuf
        = (set_writeTxt e (text e), rowBuf ++ repeat SPACE n).
Proof.
  intros Hf H. apply TextTableAdd_paths in H.
  destruct H as [(Hok & _)|(e & t1 & -> & Hc & _ & _ & H)]; [discriminate|].
  destruct H as [(_ & Ht & _ & Ha)|(Hok & _)]; [|discriminate].
  assert (Hs : stored_text format = None) by (destruct Hf as [-> | ->]; reflexivity).
  rewrite Hs in Ha, Ht.
  exists e, t1. unfold ansiSeqLen, ansi_end. rewrite Ha.
  repeat split; trivial.
  intros n rowBuf. apply write_column_row_blank; simpl; assumption.
Qed.

Lemma C10_no_text_no_prefix_witness :
  ((Some (str "") = None \/ Some (str "") = Some []) /\
   TextTableAdd (Some example_table) (Some prefix23) (Some (str "")) empty_heap
     = Done (true, Some (link_entry example_table zero_entry), mkHeap [0] 1 [])) /\
  exists e t1,
    Some (link_entry example_table zero_entry) = Some t1 /\
    chain t1 = chain example_table ++ [e] /\
    ansiSeq e = None /\ ansiSeqLen e = 0 /\
    ansi_end e = [] /\
    forall n rowBuf,
      write_column_row n 0 (set_writeTxt e (text e)) rowBuf
        = (set_writeTxt e (text e), rowBuf ++ repeat SPACE n).
Proof.
  split; [split; [right; reflexivity | reflexivity]|].
  apply (@C10_no_text_no_prefix example_table (Some prefix23) (Some (str ""))
           empty_heap _ (mkHeap [0] 1 []));
    [right; reflexivity | reflexivity].
Defined.

(** ** TextTablePrint: the end-to-end example *)

(** C1. Six cells added to a fresh table and printed with the bordered
    style with header, [posX] 0 and 2 columns: the call returns [true] and
    hands the callback seven lines of one length: header divider, header
    row, header divider, the two lines of the first body row, the second
    body row, and the regular divider. *)
Theorem C1_end_to_end :
  exists t h r,
    add_all example_cells fresh_table empty_heap = Done (Some t, h) /\
    entries t = 6 /\
    TextTablePrint (Some t) (Some PrintLine) TABSTYLE_REGULAR_HEAD_ON 0 2 h
      = Done r /\
    ret r = true /\
    lines r = [ str "+======+=======+";
                str "| H1   | H2    |";
                str "+======+=======+";
                str "| R1C1 | R1C2  |";
                str "|      | R1C2b |";
                str "| R2C1 | R2C2  |";
                str "+------+-------+" ] /\
    head_line t 0 2 = str "+======+=======+" /\
    grid_line t 0 2 = str "+------+-------+" /\
    length (lines r) = 7 /\
    Forall (fun l => length l = 16) (lines r).
Proof.
  eexists; eexists; eexists.
  split; [vm_compute; reflexivity|].
  split; [reflexivity|].
  split; [vm_compute; reflexivity|].
  split; [reflexivity|].
  split; [reflexivity|].
  split; [vm_compute; reflexivity|].
  split; [vm_compute; reflexivity|].
  split; [reflexivity|].
  repeat constructor.
Qed.

(** ** TextTablePrint: rejected calls *)

(** C3. [TextTablePrint] returns [false], leaves table and heap as they
    are and never calls the callback when the table or the callback is
    NULL, [columns] is 0, the table has no entries, the entry count is not a
    multiple of [columns], or [posX] is above 30. With [posX] equal to 30
    the example table is printed. *)
Theorem C3_print_rejects :
  (forall table cb tabStyle posX columns h,
      table = None \/ cb = None \/ columns = 0 \/
      (exists t, table = Some t /\
                 (entries t = 0 \/ entries t mod columns <> 0)) \/
      30 < posX ->
      TextTablePrint table cb tabStyle posX columns h
        = Done (mkResult false [] table h)) /\
  (exists r,
      TextTablePrint (Some example_table) (Some PrintLine)
                     TABSTYLE_REGULAR_HEAD_ON 30 2 example_heap = Done r /\
      ret r = true /\ length (lines r) = 7).
Proof.
  split.
  - intros table cb tabStyle posX columns h H.
    unfold TextTablePrint.
    destruct table as [t|]; [|reflexivity].
    destruct cb as [c|]; [|reflexivity].
    destruct (Nat.ltb_spec TEXT_TABLE_MAX_X_POS posX) as [Hx|Hx]; [reflexivity|].
    destruct (Nat.eqb_spec columns 0) as [Hc|Hc]; [reflexivity|].
    destruct (Nat.eqb_spec (entries t) 0) as [He|He]; [reflexivity|].
    destruct (Nat.eqb_spec (entries t) (entries t / columns * columns)) as [Hd|Hd];
      [|reflexivity].
    exfalso.
    destruct H as [H|[H|[H|[(t0 & [= <-] & [H|H])|H]]]];
      try discriminate; try contradiction.
    + apply H. pose proof (Nat.div_mod_eq (entries t) columns). lia.
    + unfold TEXT_TABLE_MAX_X_POS in Hx. lia.
  - eexists. split; [vm_compute; reflexivity|]. split; reflexivity.
Qed.

Lemma C3_print_rejects_witness :
  (Some example_table = None \/ Some PrintLine = None \/ 4 = 0 \/
   (exists t, Some example_table = Some t /\
              (entries t = 0 \/ entries t mod 4 <> 0)) \/
   30 < 0) /\
  TextTablePrint (Some example_table) (Some PrintLine)
                 TABSTYLE_REGULAR_HEAD_ON 0 4 example_heap
    = Done (mkResult false [] (Some example_table) example_heap).
Proof.
  assert (H : Some example_table = None \/ Some PrintLine = None \/ 4 = 0 \/
              (exists t, Some example_table = Some t /\
                         (entries t = 0 \/ entries t mod 4 <> 0)) \/
              30 < 0).
  { right; right; right; left. exists example_table.
    split; [reflexivity|]. right. simpl. discriminate. }
  split; [exact H|].
  exact (proj1 C3_print_rejects (Some example_table) (Some PrintLine)
               TABSTYLE_REGULAR_HEAD_ON 0 4 example_heap H).
Defined.

(** ** TextTablePrint: the scratch buffers *)

(** C7. The specification has every return path release the scratch
    buffers. On the code, the paths that return [false] because a line
    buffer could not be allocated leave the earlier buffers allocated:
    one block when [rowBuf] fails, two when [gridBuf] fails, three when
    [headBuf] fails. *)
Theorem C7_failed_allocation_leaks :
  (exists r,
      TextTablePrint (Some example_table) (Some PrintLine)
                     TABSTYLE_REGULAR_HEAD_ON 0 2 (mkHeap [] 0 [true; false])
        = Done r /\
      ret r = false /\ lines r = [] /\ live (heap_after r) = [0]) /\
  (exists r,
      TextTablePrint (Some example_table) (Some PrintLine)
                     TABSTYLE_REGULAR_HEAD_ON 0 2 (mkHeap [] 0 [true; true; false])
        = Done r /\
      ret r = false /\ lines r = [] /\ live (heap_after r) = [1; 0]) /\
  (exists r,
      TextTablePrint (Some example_table) (Some PrintLine)
                     TABSTYLE_REGULAR_HEAD_ON 0 2
                     (mkHeap [] 0 [true; true; true; false])
        = Done r /\
      ret r = false /\ lines r = [] /\ live (heap_after r) = [2; 1; 0]).
Proof.
  repeat split; eexists;
    (split; [vm_compute; reflexivity | repeat split]).
Qed.

(** ** TextTablePrint: one cell *)

Lemma erase_fields (e e' : TextTableEntry_t) :
  erase e = erase e' ->
  text e = text e' /\ rowMaxTextLen e = rowMaxTextLen e' /\ ansiSeq e = ansiSeq e'.
Proof.
  unfold erase, set_writeTxt. now intros [= -> -> ->].
Qed.

Lemma erase_reset (e e' : TextTableEntry_t) :
  erase e = erase e' -> set_writeTxt e (text e) = set_writeTxt e' (text e').
Proof.
  intros H. apply erase_fields in H as (Ht & Hr & Ha).
  unfold set_writeTxt. now rewrite Ht, Hr, Ha.
Qed.

(** Writing a cell moves its write pointer forward only. *)
Lemma write_column_row_cursor (n : nat) :
  forall k e rowBuf,
    erase (fst (write_column_row n k e rowBuf)) = erase e /\
    cursor_len (fst (write_column_row n k e rowBuf)) <= cursor_len e.
Proof.
  induction n as [|n IH]; intros k e rowBuf; simpl; [auto|].
  destruct (writeTxt e) as [[|c rest]|] eqn:Hw; try apply IH.
  destruct (is_NUL c || is_LF c); [apply IH|].
  match goal with |- context [write_column_row n ?k' ?e' ?b'] =>
    destruct (IH k' e' b') as [H1 H2] end.
  split; [now rewrite H1|].
  etransitivity; [exact H2|]. unfold cursor_len. rewrite Hw. simpl. lia.
Qed.

Lemma skip_newline_cursor (e : TextTableEntry_t) (newLine : bool) :
  erase (fst (skip_newline e newLine)) = erase e /\
  (newLine = true -> snd (skip_newline e newLine) = true) /\
  cursor_len (fst (skip_newline e newLine))
  + (if snd (skip_newline e newLine) && negb newLine then 1 else 0)
  <= cursor_len e.
Proof.
  unfold skip_newline, cursor_len.
  destruct (writeTxt e) as [[|c rest]|] eqn:Hw; simpl; rewrite ?Hw;
    try (destruct newLine; simpl; repeat split; auto; lia).
  destruct (is_LF c); simpl; rewrite ?Hw;
    destruct newLine; simpl; repeat split; auto; lia.
Qed.

(** ** TextTablePrint: one physical line *)

Section RenderFacts.

Variable table : TextTable_t.
Variable tabStyle : TabStyle_e.
Variables posX columns : nat.
Variable pColumn : list T_Column.

Lemma row_measure_cons (f : bool) (e : TextTableEntry_t) (a : list TextTableEntry_t) :
  row_measure f (e :: a)
  = cursor_len (if f then set_writeTxt e (text e) else e) + row_measure f a.
Proof. destruct f; reflexivity. Qed.

(** A pass over [n] cells returns; it leaves the cells behind them alone,
    changes write pointers only, and steps over a newline only by moving
    a write pointer. *)
Lemma columns_loop_spec (i : nat) (f : bool) (n : nat) :
  forall j a rowBuf newLine,
    length a = n ->
    exists es rowBuf' newLine',
      (forall r,
          columns_loop table tabStyle columns pColumn i f n j (a ++ r) rowBuf newLine
          = Done (es, r, rowBuf', newLine')) /\
      length es = n /\
      map erase es = map erase a /\
      (newLine = true -> newLine' = true) /\
      list_sum (map cursor_len es) + (if newLine' && negb newLine then 1 else 0)
      <= row_measure f a.
Proof.
  induction n as [|n IH]; intros j a rowBuf newLine Hlen.
  - destruct a; [|discriminate].
    exists [], rowBuf, newLine. simpl. repeat split; auto.
    destruct newLine, f; simpl; lia.
  - destruct a as [|e a]; [discriminate|]. injection Hlen as Hlen.
    simpl columns_loop. rewrite row_measure_cons.
    set (e0 := if f then set_writeTxt e (text e) else e).
    assert (He0 : erase e0 = erase e) by (subst e0; now destruct f).
    set (w := write_column_row _ _ e0 _).
    pose proof (write_column_row_cursor
                  (col_rowMaxTextLen (array_get pColumn j)) 0 e0
                  (rowBuf ++ open_column table tabStyle i j)) as [Hw1 Hw2].
    fold w in Hw1, Hw2. destruct w as [e1 rb1]. simpl in Hw1, Hw2.
    pose proof (skip_newline_cursor e1 newLine) as (Hs1 & Hs2 & Hs3).
    destruct (skip_newline e1 newLine) as [e2 nl1]. simpl in Hs1, Hs2, Hs3.
    destruct (IH (S j) a
                 ((rb1 ++ ansi_end e1) ++ close_column table tabStyle columns j)
                 nl1 Hlen)
      as (es & rb' & nl' & Hrun & Hes & Her & Hnl & Hm).
    exists (e2 :: es), rb', nl'. repeat split.
    + intros r. rewrite Hrun. reflexivity.
    + simpl. now rewrite Hes.
    + simpl. now rewrite Her, Hs1, Hw1, He0.
    + auto.
    + simpl map. simpl list_sum.
      destruct newLine, nl1, nl'; simpl in *;
        try (specialize (Hs2 eq_refl)); try (specialize (Hnl eq_refl));
        try discriminate; lia.
Qed.

(** A pass that runs off the end of the chain reads through NULL. *)
Lemma columns_loop_short (i : nat) (f : bool) (n : nat) :
  forall j p rowBuf newLine,
    length p < n ->
    columns_loop table tabStyle columns pColumn i f n j p rowBuf newLine = Undefined.
Proof.
  induction n as [|n IH]; intros j p rowBuf newLine Hlen; [lia|].
  destruct p as [|e p]; [reflexivity|].
  simpl in Hlen. simpl columns_loop.
  destruct (write_column_row _ _ _ _) as [e1 rb1].
  destruct (skip_newline e1 newLine) as [e2 nl1].
  rewrite IH by lia. reflexivity.
Qed.

(** The first pass over a row does not depend on where the write
    pointers were left. *)
Lemma columns_loop_first_pass (i n : nat) :
  forall j a a' r rowBuf newLine,
    map erase a = map erase a' ->
    length a = n ->
    columns_loop table tabStyle columns pColumn i true n j (a ++ r) rowBuf newLine
    = columns_loop table tabStyle columns pColumn i true n j (a' ++ r) rowBuf newLine.
Proof.
  induction n as [|n IH]; intros j a a' r rowBuf newLine Hmap Hlen.
  - destruct a; [|discriminate]. destruct a'; [|discriminate]. reflexivity.
  - destruct a as [|e a]; [discriminate|].
    destruct a' as [|e' a']; [discriminate|].
    pose proof (f_equal (hd (erase e)) Hmap) as He.
    pose proof (f_equal (@tl _) Hmap) as Hmap'.
    cbn [hd tl map] in He, Hmap'. injection Hlen as Hlen.
    simpl. rewrite (erase_reset He).
    destruct (write_column_row _ _ _ _) as [e1 rb1].
    destruct (skip_newline e1 newLine) as [e2 nl1].
    now rewrite (IH (S j) a a' r _ nl1 Hmap' Hlen).
Qed.

(** ** TextTablePrint: one row *)

(** The loop of a row, started on the [columns] cells of the row: it
    leaves the cells behind the row alone, returns at least one line,
    changes write pointers only, and does not use up its fuel when that
    is above the measure of the row. *)
Lemma do_while_spec (fuel : nat) :
  forall i f ft a,
    length a = columns ->
    exists res,
      (forall r,
          do_while table tabStyle posX columns pColumn fuel i f ft (a ++ r)
          = frame r res) /\
      match res with
      | Done (ls, es) =>
          length es = columns /\ map erase es = map erase a /\ ls <> []
      | _ => True
      end /\
      (row_measure f a < fuel -> res <> OutOfFuel).
Proof.
  induction fuel as [|fuel IH]; intros i f ft a Hlen.
  - exists OutOfFuel. split; [reflexivity|]. split; [exact I|lia].
  - destruct (columns_loop_spec i f 0 a [] false Hlen)
      as (es & rb & nl & Hrun & Hes & Her & _ & Hm).
    cbn [do_while]. 
    destruct (posX + length (rb ++ close_row table tabStyle i)
              <? calc_rowLen table posX pColumn) eqn:Hfit.
    2:{ exists Undefined. split; [|split; [exact I|discriminate]].
        intros r. rewrite Hrun. cbn [bind]. now rewrite Hfit. }
    destruct nl.
    + destruct (IH i false false es Hes) as (res' & Hrun' & Hres' & Hfuel').
      exists ('(ls, es') <- res' ;;
              Done ((first_line table tabStyle posX pColumn ft
                     ++ [c_str (repeat SPACE posX
                                ++ rb ++ close_row table tabStyle i)])
                    ++ ls, es')).
      repeat split.
      * intros r. rewrite Hrun. cbn [bind]. rewrite Hfit, Hrun'.
        destruct res' as [[ls es']| |]; reflexivity.
      * destruct res' as [[ls es']| |]; cbn [bind]; trivial.
        destruct Hres' as (Hl & He & _). repeat split; trivial.
        -- now rewrite He.
        -- destruct (first_line _ _ _ _ ft); discriminate.
      * intros Hlt. assert (Hne : res' <> OutOfFuel).
        { apply Hfuel'. unfold row_measure at 1. simpl in Hm. lia. }
        destruct res' as [[ls es']| |]; cbn [bind]; congruence.
    + exists (Done (first_line table tabStyle posX pColumn ft
                    ++ [c_str (repeat SPACE posX
                               ++ rb ++ close_row table tabStyle i)], es)).
      repeat split; trivial; try discriminate.
      * intros r. rewrite Hrun. cbn [bind]. now rewrite Hfit.
      * destruct (first_line _ _ _ _ ft); discriminate.
Qed.

(** Started where fewer than [columns] cells are left, the loop reads
    through NULL. *)
Lemma do_while_short (fuel i : nat) (f ft : bool) (p : list TextTableEntry_t) :
  length p < columns ->
  do_while table tabStyle posX columns pColumn (S fuel) i f ft p = Undefined.
Proof.
  intros H. cbn [do_while]. now rewrite columns_loop_short.
Qed.

(** The first line of the table goes in front of the lines of the row. *)
Lemma do_while_first_line (fuel i : nat) (f ft : bool) (p : list TextTableEntry_t) :
  do_while table tabStyle posX columns pColumn fuel i f ft p
  = '(ls, es, r) <- do_while table tabStyle posX columns pColumn fuel i f false p ;;
    Done (first_line table tabStyle posX pColumn ft ++ ls, es, r).
Proof.
  destruct fuel as [|fuel]; [reflexivity|]. cbn [do_while].
  destruct (columns_loop _ _ _ _ _ _ _ _ _ _ _) as [[[[es q] rb] nl]| |];
    cbn [bind]; trivial.
  destruct (_ <? _); trivial.
  destruct nl; cbn [bind first_line app]; trivial.
  destruct (do_while _ _ _ _ _ _ _ _ _ _) as [[[ls es'] q']| |];
    cbn [bind]; trivial.
  now rewrite <- app_assoc.
Qed.

(** The loop of a row does not depend on where the write pointers of its
    cells were left. *)
Lemma do_while_first_pass (fuel i : nat) (ft : bool)
    (a a' r : list TextTableEntry_t) :
  map erase a = map erase a' ->
  length a = columns ->
  do_while table tabStyle posX columns pColumn fuel i true ft (a ++ r)
  = do_while table tabStyle posX columns pColumn fuel i true ft (a' ++ r).
Proof.
  intros Hmap Hlen. destruct fuel as [|fuel]; [reflexivity|].
  cbn [do_while]. now rewrite (columns_loop_first_pass i 0 a a' r [] false Hmap Hlen).
Qed.

Lemma split_row (p : list TextTableEntry_t) :
  length p < columns \/ exists a r, p = a ++ r /\ length a = columns.
Proof.
  destruct (Nat.lt_ge_cases (length p) columns) as [H|H]; [now left|right].
  exists (firstn columns p), (skipn columns p).
  split; [now rewrite firstn_skipn | now apply firstn_length_le].
Qed.

Lemma row_fuel_app (a r : list TextTableEntry_t) :
  length a = columns -> row_fuel columns (a ++ r) = S (row_measure true a).
Proof.
  intros H. unfold row_fuel, row_measure.
  rewrite firstn_app, H, Nat.sub_diag, firstn_O, app_nil_r.
  now rewrite <- H, firstn_all.
Qed.

(** A row that was printed. *)
Lemma do_while_done (fuel i : nat) (f ft : bool) (p : list TextTableEntry_t)
    (ls : list cstring) (es r : list TextTableEntry_t) :
  do_while table tabStyle posX columns pColumn fuel i f ft p = Done (ls, es, r) ->
  exists a,
    p = a ++ r /\ length a = columns /\ length es = columns /\
    map erase es = map erase a /\ ls <> [].
Proof.
  intros H. destruct (split_row p) as [Hs|(a & q & -> & Ha)].
  - destruct fuel; [discriminate|]. now rewrite do_while_short in H.
  - destruct (do_while_spec fuel i f ft a Ha) as (res & Hrun & Hres & _).
    rewrite Hrun in H. destruct res as [[ls' es']| |]; try discriminate.
    injection H as <- <- <-. exists a. tauto.
Qed.

(** ** TextTablePrint: the rows *)

Lemma frame_inj (A : Type) (r : list TextTableEntry_t)
    (o o' : outcome (A * list TextTableEntry_t)) :
  frame r o = frame r o' -> o = o'.
Proof.
  destruct o as [[x es]| |], o' as [[x' es']| |]; cbn; congruence.
Qed.

Lemma row_measure_erase (a a' : list TextTableEntry_t) :
  map erase a = map erase a' -> row_measure true a = row_measure true a'.
Proof.
  intros H. unfold row_measure. f_equal.
  transitivity (map textLen (map erase a)); [now rewrite map_map|].
  rewrite H. now rewrite map_map.
Qed.

Variable rows : nat.

Lemma split_rows (n : nat) (a : list TextTableEntry_t) :
  length a = S n * columns ->
  exists a1 a2, a = a1 ++ a2 /\ length a1 = columns /\ length a2 = n * columns.
Proof.
  intros H. exists (firstn columns a), (skipn columns a).
  rewrite firstn_skipn, length_firstn, length_skipn. simpl in H.
  split; [reflexivity | lia].
Qed.

(** The loop over [n] rows, started on the cells of those rows: it leaves
    the cells behind them alone, changes write pointers only, and never
    runs out of fuel. *)
Lemma rows_loop_spec (n : nat) :
  forall i ft a,
    length a = n * columns ->
    exists res,
      (forall r,
          rows_loop table tabStyle posX columns pColumn rows n i (a ++ r) ft
          = frame r res) /\
      match res with
      | Done (ls, es) => length es = n * columns /\ map erase es = map erase a
      | _ => True
      end /\
      res <> OutOfFuel.
Proof.
  induction n as [|n IH]; intros i ft a Hlen.
  - destruct a; [|discriminate]. exists (Done ([], [])).
    repeat split; discriminate.
  - destruct (split_rows n a Hlen) as (a1 & a2 & -> & H1 & H2).
    destruct (do_while_spec (S (row_measure true a1)) i true ft a1 H1)
      as (res1 & Hrun1 & Hres1 & Hfuel1).
    destruct (IH (S i) false a2 H2) as (res2 & Hrun2 & Hres2 & Hfuel2).
    exists ('(ls, es) <- res1 ;; '(ls', es') <- res2 ;;
            Done (ls ++ after_row table tabStyle posX pColumn rows i ++ ls',
                  es ++ es')).
    repeat split.
    + intros r. rewrite <- app_assoc. cbn [rows_loop].
      rewrite row_fuel_app, Hrun1 by assumption.
      destruct res1 as [[ls es]| |]; cbn [frame bind]; trivial.
      rewrite Hrun2.
      destruct res2 as [[ls' es']| |]; reflexivity.
    + destruct res1 as [[ls es]| |]; cbn [bind]; trivial.
      destruct res2 as [[ls' es']| |]; cbn [bind]; trivial.
      destruct Hres1 as (L1 & E1 & _), Hres2 as (L2 & E2).
      rewrite length_app, !map_app, L1, L2, E1, E2. split; [simpl; lia|trivial].
    + assert (Hne : res1 <> OutOfFuel) by (apply Hfuel1; lia).
      destruct res1 as [[ls es]| |]; cbn [bind]; try congruence.
      destruct res2 as [[ls' es']| |]; cbn [bind]; congruence.
Qed.

(** Started where fewer than [n] rows of cells are left, the loop reads
    through NULL. *)
Lemma rows_loop_short (n : nat) :
  forall i ft p,
    length p < n * columns ->
    rows_loop table tabStyle posX columns pColumn rows n i p ft = Undefined.
Proof.
  induction n as [|n IH]; intros i ft p Hlen; [simpl in Hlen; lia|].
  cbn [rows_loop].
  destruct (split_row p) as [Hs|(a & q & -> & Ha)].
  - unfold row_fuel. now rewrite do_while_short.
  - rewrite row_fuel_app by assumption.
    destruct (do_while_spec (S (row_measure true a)) i true ft a Ha)
      as (res1 & Hrun1 & _ & Hfuel1).
    rewrite Hrun1.
    assert (Hne : res1 <> OutOfFuel) by (apply Hfuel1; lia).
    destruct res1 as [[ls es]| |]; cbn [frame bind]; try congruence.
    rewrite IH; [reflexivity|].
    rewrite length_app in Hlen. simpl in Hlen. lia.
Qed.

(** The rows loop does not depend on where the write pointers were left. *)
Lemma rows_loop_first_pass (n : nat) :
  forall i ft a a' r,
    map erase a = map erase a' ->
    length a = n * columns ->
    rows_loop table tabStyle posX columns pColumn rows n i (a ++ r) ft
    = rows_loop table tabStyle posX columns pColumn rows n i (a' ++ r) ft.
Proof.
  induction n as [|n IH]; intros i ft a a' r Hmap Hlen.
  - destruct a; [|discriminate]. destruct a'; [|discriminate]. reflexivity.
  - assert (Hlen' : length a' = S n * columns).
    { rewrite <- Hlen, <- (length_map erase a'), <- Hmap. apply length_map. }
    destruct (split_rows n a Hlen) as (a1 & a2 & -> & H1 & H2).
    destruct (split_rows n a' Hlen') as (b1 & b2 & -> & K1 & K2).
    rewrite !map_app in Hmap.
    assert (Hm1 : map erase a1 = map erase b1 /\ map erase a2 = map erase b2).
    { apply app_eq_length; [|assumption]. rewrite !length_map. congruence. }
    destruct Hm1 as [Hm1 Hm2].
    rewrite <- !app_assoc. cbn [rows_loop].
    rewrite !row_fuel_app by assumption.
    rewrite <- (row_measure_erase a1 b1 Hm1).
    destruct (do_while_spec (S (row_measure true a1)) i true ft a1 H1)
      as (res1 & Hrun1 & _).
    destruct (do_while_spec (S (row_measure true a1)) i true ft b1 K1)
      as (res1' & Hrun1' & _).
    assert (res1 = res1').
    { apply (@frame_inj _ []). rewrite <- Hrun1, <- Hrun1'.
      now apply do_while_first_pass. }
    subst res1'. rewrite Hrun1, Hrun1'.
    destruct res1 as [[ls es]| |]; cbn [frame bind]; trivial.
    now rewrite (IH (S i) false a2 b2 r Hm2 H2).
Qed.

(** The first line of the table goes in front of the lines of the rows. *)
Lemma rows_loop_first_line (n i : nat) (ft : bool) (p : list TextTableEntry_t) :
  rows_loop table tabStyle posX columns pColumn rows (S n) i p ft
  = '(ls, es, r) <-
      rows_loop table tabStyle posX columns pColumn rows (S n) i p false ;;
    Done (first_line table tabStyle posX pColumn ft ++ ls, es, r).
Proof.
  cbn [rows_loop]. rewrite (do_while_first_line _ i true ft).
  destruct (do_while _ _ _ _ _ _ _ _ _ _) as [[[ls1 es1] r1]| |];
    cbn [bind]; trivial.
  destruct (rows_loop _ _ _ _ _ _ _ _ _ _) as [[[ls2 es2] r2]| |];
    cbn [bind first_line app]; trivial.
  now rewrite <- app_assoc.
Qed.

Lemma skipn_next_row (k : nat) (a r : list TextTableEntry_t) :
  length a = columns ->
  skipn (S k * columns) (a ++ r) = skipn (k * columns) r.
Proof.
  intros H. replace (S k * columns) with (k * columns + columns) by (simpl; lia).
  rewrite <- skipn_skipn. f_equal.
  rewrite skipn_app, H, Nat.sub_diag. rewrite <- H, skipn_all. reflexivity.
Qed.

(** The lines of the rows loop: row by row the lines of the row and the
    line behind it. *)
Lemma rows_loop_lines (n : nat) :
  forall i p ls es r,
    rows_loop table tabStyle posX columns pColumn rows n i p false
    = Done (ls, es, r) ->
    ls = concat
           (map (fun k =>
                   row_lines_with table tabStyle posX columns pColumn (i + k)
                                  (skipn (k * columns) p)
                   ++ after_row table tabStyle posX pColumn rows (i + k))
                (seq 0 n)) /\
    forall k, k < n ->
      row_lines_with table tabStyle posX columns pColumn (i + k)
                     (skipn (k * columns) p) <> [].
Proof.
  induction n as [|n IH]; intros i p ls es r H.
  - injection H as <- <- <-. split; [reflexivity | intros k Hk; lia].
  - cbn [rows_loop] in H.
    destruct (do_while _ _ _ _ _ _ _ _ _ _) as [[[ls1 es1] r1]| |] eqn:Hd;
      try discriminate.
    cbn [bind] in H.
    destruct (rows_loop _ _ _ _ _ _ _ _ _ _) as [[[ls2 es2] r2]| |] eqn:Hr;
      try discriminate.
    injection H as <- <- <-.
    destruct (IH _ _ _ _ _ Hr) as [Hls2 Hne2].
    destruct (do_while_done _ _ _ _ _ Hd) as (a & -> & Ha & _ & _ & Hne1).
    assert (H0 : row_lines_with table tabStyle posX columns pColumn (i + 0)
                                (skipn (0 * columns) (a ++ r1)) = ls1).
    { rewrite Nat.add_0_r. cbn [Nat.mul skipn].
      unfold row_lines_with. now rewrite Hd. }
    split.
    + cbn [seq map concat]. rewrite H0, Nat.add_0_r, <- app_assoc. do 2 f_equal.
      rewrite Hls2, <- seq_shift, map_map. f_equal.
      apply map_ext. intros k.
      now rewrite skipn_next_row, Nat.add_succ_r by assumption.
    + intros [|k] Hk; [now rewrite H0|].
      rewrite skipn_next_row, Nat.add_succ_r by assumption.
      apply (Hne2 k). lia.
Qed.

End RenderFacts.

(** ** TextTablePrint: the column widths *)

Lemma update_column_erase (c : T_Column) (e e' : TextTableEntry_t) :
  erase e = erase e' -> update_column c e = update_column c e'.
Proof.
  intros H. apply erase_fields in H as (_ & Hr & Ha).
  unfold update_column, ansiSeqLen. now rewrite Hr, Ha.
Qed.

Lemma metrics_columns_spec (n : nat) :
  forall j a pColumn,
    length a = n ->
    exists pColumn',
      forall r, metrics_columns n j (a ++ r) pColumn = Done (r, pColumn').
Proof.
  induction n as [|n IH]; intros j a pColumn Hlen.
  - destruct a; [|discriminate]. now exists pColumn.
  - destruct a as [|e a]; [discriminate|]. injection Hlen as Hlen.
    simpl. apply IH, Hlen.
Qed.

Lemma metrics_columns_short (n : nat) :
  forall j p pColumn,
    length p < n -> metrics_columns n j p pColumn = Undefined.
Proof.
  induction n as [|n IH]; intros j p pColumn Hlen; [lia|].
  destruct p as [|e p]; [reflexivity|]. simpl in *. apply IH. lia.
Qed.

Lemma metrics_columns_erase (n : nat) :
  forall j a a' r pColumn,
    map erase a = map erase a' ->
    length a = n ->
    metrics_columns n j (a ++ r) pColumn = metrics_columns n j (a' ++ r) pColumn.
Proof.
  induction n as [|n IH]; intros j a a' r pColumn Hmap Hlen.
  - destruct a; [|discriminate]. destruct a'; [|discriminate]. reflexivity.
  - destruct a as [|e a]; [discriminate|].
    destruct a' as [|e' a']; [discriminate|].
    pose proof (f_equal (hd (erase e)) Hmap) as He.
    pose proof (f_equal (@tl _) Hmap) as Hmap'.
    cbn [hd tl map] in He, Hmap'. injection Hlen as Hlen.
    simpl. rewrite (update_column_erase _ He). now apply IH.
Qed.

Lemma metrics_rows_spec (columns n : nat) :
  forall a pColumn,
    length a = n * columns ->
    exists pColumn',
      forall r, metrics_rows columns n (a ++ r) pColumn = Done (r, pColumn').
Proof.
  induction n as [|n IH]; intros a pColumn Hlen.
  - destruct a; [|discriminate]. now exists pColumn.
  - destruct (split_rows columns n a Hlen) as (a1 & a2 & -> & H1 & H2).
    destruct (metrics_columns_spec 0 a1 pColumn H1) as (pc1 & Hrun1).
    destruct (IH a2 pc1 H2) as (pc2 & Hrun2).
    exists pc2. intros r. rewrite <- app_assoc. cbn [metrics_rows].
    rewrite Hrun1. cbn [bind]. apply Hrun2.
Qed.

Lemma metrics_rows_short (columns n : nat) :
  forall p pColumn,
    length p < n * columns -> metrics_rows columns n p pColumn = Undefined.
Proof.
  induction n as [|n IH]; intros p pColumn Hlen; [simpl in Hlen; lia|].
  cbn [metrics_rows].
  destruct (split_row columns p) as [Hs|(a & q & -> & Ha)].
  - now rewrite metrics_columns_short.
  - destruct (metrics_columns_spec 0 a pColumn Ha) as (pc1 & Hrun1).
    rewrite Hrun1. cbn [bind]. apply IH.
    rewrite length_app in Hlen. simpl in Hlen. lia.
Qed.

Lemma metrics_rows_erase (columns n : nat) :
  forall a a' r pColumn,
    map erase a = map erase a' ->
    length a = n * columns ->
    metrics_rows columns n (a ++ r) pColumn
    = metrics_rows columns n (a' ++ r) pColumn.
Proof.
  induction n as [|n IH]; intros a a' r pColumn Hmap Hlen.
  - destruct a; [|discriminate]. destruct a'; [|discriminate]. reflexivity.
  - assert (Hlen' : length a' = S n * columns).
    { rewrite <- Hlen, <- (length_map erase a'), <- Hmap. apply length_map. }
    destruct (split_rows columns n a Hlen) as (a1 & a2 & -> & H1 & H2).
    destruct (split_rows columns n a' Hlen') as (b1 & b2 & -> & K1 & K2).
    rewrite !map_app in Hmap.
    assert (Hm : map erase a1 = map erase b1 /\ map erase a2 = map erase b2).
    { apply app_eq_length; [|assumption]. rewrite !length_map. congruence. }
    destruct Hm as [Hm1 Hm2].
    rewrite <- !app_assoc. cbn [metrics_rows].
    rewrite (metrics_columns_erase 0 a1 b1 (a2 ++ r) pColumn Hm1 H1).
    destruct (metrics_columns_spec 0 b1 pColumn K1) as (pc1 & Hrun1).
    rewrite !Hrun1. cbn [bind]. now apply IH.
Qed.

(** ** TextTablePrint: the whole call *)

Lemma malloc_oracle (h h' : heap) :
  oracle h' = oracle h ->
  (exists p p' h1 h1',
      malloc h = (Some p, h1) /\ malloc h' = (Some p', h1') /\
      oracle h1' = oracle h1) \/
  (exists h1 h1',
      malloc h = (None, h1) /\ malloc h' = (None, h1') /\
      oracle h1' = oracle h1).
Proof.
  intros H. unfold malloc. rewrite H.
  destruct (oracle h) as [|[|] o]; [left|left|right];
    repeat eexists; reflexivity.
Qed.

(** The chain either ends before the cells of [rows] rows, or starts with
    them. *)
Lemma split_chain (n : nat) (p : list TextTableEntry_t) :
  length p < n \/ exists a r, p = a ++ r /\ length a = n.
Proof. apply split_row. Qed.

Lemma rows_loop_set_chain (t : TextTable_t) (c : list TextTableEntry_t)
    tabStyle posX columns pColumn rows n i p ft :
  rows_loop (set_chain t c) tabStyle posX columns pColumn rows n i p ft
  = rows_loop t tabStyle posX columns pColumn rows n i p ft.
Proof. destruct t. reflexivity. Qed.

Lemma last_line_set_chain (t : TextTable_t) (c : list TextTableEntry_t)
    tabStyle posX pColumn :
  last_line (set_chain t c) tabStyle posX pColumn
  = last_line t tabStyle posX pColumn.
Proof. destruct t. reflexivity. Qed.



(** The rows loop changes write pointers only. *)
Lemma rows_loop_done t tabStyle posX columns pColumn rows n i ft p ls es r :
  rows_loop t tabStyle posX columns pColumn rows n i p ft = Done (ls, es, r) ->
  map erase (es ++ r) = map erase p.
Proof.
  intros H. destruct (split_chain (n * columns) p) as [Hs|(a & q & -> & Ha)].
  - now rewrite rows_loop_short in H.
  - destruct (rows_loop_spec t tabStyle posX columns pColumn rows n i ft a Ha)
      as (res & Hrun & Hres & _).
    rewrite Hrun in H. destruct res as [[ls' es']| |]; try discriminate.
    injection H as <- <- <-. rewrite !map_app. now destruct Hres as [_ ->].
Qed.

Lemma metrics_rows_fuel (columns n : nat) (p : list TextTableEntry_t)
    (pColumn : list T_Column) :
  metrics_rows columns n p pColumn <> OutOfFuel.
Proof.
  destruct (split_chain (n * columns) p) as [Hs|(a & r & -> & Ha)].
  - now rewrite metrics_rows_short.
  - destruct (metrics_rows_spec columns n a pColumn Ha) as (pc & ->). discriminate.
Qed.

Lemma rows_loop_fuel t tabStyle posX columns pColumn rows n i ft p :
  rows_loop t tabStyle posX columns pColumn rows n i p ft <> OutOfFuel.
Proof.
  destruct (split_chain (n * columns) p) as [Hs|(a & r & -> & Ha)].
  - now rewrite rows_loop_short.
  - destruct (rows_loop_spec t tabStyle posX columns pColumn rows n i ft a Ha)
      as (res & -> & _ & Hne).
    destruct res as [[ls es]| |]; cbn; congruence.
Qed.

(** X1. The fuel of the model is enough: a call of [TextTablePrint] returns or
    runs into undefined behaviour. *)
Theorem TextTablePrint_fuel table cb tabStyle posX columns h :
  TextTablePrint table cb tabStyle posX columns h <> OutOfFuel.
Proof.
  unfold TextTablePrint.
  destruct table as [t|]; [|discriminate].
  destruct cb as [c|]; [|discriminate].
  destruct (_ <? posX); [discriminate|].
  destruct (columns =? 0); [discriminate|].
  destruct (entries t =? 0); [discriminate|].
  destruct (negb _); [discriminate|].
  destruct (malloc h) as [[p0|] h0]; [|discriminate].
  pose proof (metrics_rows_fuel columns (entries t / columns) (chain t)
                (repeat (mkColumn 0 0) columns)) as Hm.
  destruct (metrics_rows _ _ _ _) as [[rest pColumn]| |];
    cbn [bind]; try congruence.
  destruct (malloc h0) as [[p1|] h1]; [|discriminate].
  destruct (malloc h1) as [[p2|] h2]; [|discriminate].
  destruct (malloc h2) as [[p3|] h3]; [|discriminate].
  pose proof (rows_loop_fuel t tabStyle posX columns pColumn
                (entries t / columns) (entries t / columns) 0 true (chain t)) as Hr.
  destruct (rows_loop _ _ _ _ _ _ _ _ _ _) as [[[out es] pE]| |];
    cbn [bind]; congruence.
Qed.

(** The callback sees the same, whatever the write pointers of the cells
    and the blocks of the heap are. *)
Lemma print_congruence (t : TextTable_t) (c' : list TextTableEntry_t)
    cb tabStyle posX columns (h h' : heap) :
  map erase c' = map erase (chain t) ->
  oracle h' = oracle h ->
  observable (TextTablePrint (Some (set_chain t c')) cb tabStyle posX columns h')
  = observable (TextTablePrint (Some t) cb tabStyle posX columns h).
Proof.
  intros Hmap Hor. unfold TextTablePrint.
  destruct cb as [c|]; [|reflexivity].
  change (entries (set_chain t c')) with (entries t).
  change (chain (set_chain t c')) with c'.
  destruct (_ <? posX); [reflexivity|].
  destruct (columns =? 0); [reflexivity|].
  destruct (entries t =? 0); [reflexivity|].
  set (rows := entries t / columns).
  destruct (negb _); [reflexivity|].
  destruct (malloc_oracle h h' Hor)
    as [(p0 & p0' & h0 & h0' & -> & -> & Hor0)|(h0 & h0' & -> & -> & _)];
    [|reflexivity].
  assert (Hlen : length c' = length (chain t)).
  { rewrite <- (length_map erase c'), Hmap. apply length_map. }
  destruct (split_chain (rows * columns) (chain t)) as [Hs|(a & r & Hc & Ha)].
  { rewrite !metrics_rows_short by lia. reflexivity. }
  destruct (split_chain (rows * columns) c') as [Hs'|(a' & r' & Hc' & Ha')].
  { rewrite Hlen, Hc, length_app in Hs'. lia. }
  rewrite Hc, Hc' in *. rewrite !map_app in Hmap.
  apply app_eq_length in Hmap as [Hm1 Hm2];
    [|rewrite !length_map; congruence].
  destruct (metrics_rows_spec columns rows a (repeat (mkColumn 0 0) columns) Ha)
    as (pc & Hrun).
  destruct (metrics_rows_spec columns rows a' (repeat (mkColumn 0 0) columns) Ha')
    as (pc' & Hrun').
  assert (pc' = pc).
  { pose proof (metrics_rows_erase columns rows a' a []
                  (repeat (mkColumn 0 0) columns) Hm1 Ha') as E.
    rewrite Hrun, Hrun' in E. congruence. }
  subst pc'. rewrite Hrun, Hrun'. cbn [bind].
  destruct (malloc_oracle h0 h0' Hor0)
    as [(p1 & p1' & h1 & h1' & -> & -> & Hor1)|(h1 & h1' & -> & -> & _)];
    [|reflexivity].
  destruct (malloc_oracle h1 h1' Hor1)
    as [(p2 & p2' & h2 & h2' & -> & -> & Hor2)|(h2 & h2' & -> & -> & _)];
    [|reflexivity].
  destruct (malloc_oracle h2 h2' Hor2)
    as [(p3 & p3' & h3 & h3' & -> & -> & Hor3)|(h3 & h3' & -> & -> & _)];
    [|reflexivity].
  rewrite rows_loop_set_chain, last_line_set_chain.
  destruct (rows_loop_spec t tabStyle posX columns pc rows rows 0 true a Ha)
    as (res & Hrows & _).
  destruct (rows_loop_spec t tabStyle posX columns pc rows rows 0 true a' Ha')
    as (res' & Hrows' & _).
  assert (res' = res).
  { apply (@frame_inj _ []). rewrite <- Hrows, <- Hrows'.
    now apply rows_loop_first_pass. }
  subst res'. rewrite Hrows, Hrows'.
  destruct res as [[ls es]| |]; reflexivity.
Qed.

(** What a call leaves of the table: the table itself, write pointers
    apart. *)
Lemma print_table_after (t : TextTable_t) cb tabStyle posX columns h r :
  TextTablePrint (Some t) cb tabStyle posX columns h = Done r ->
  exists c', table_after r = Some (set_chain t c') /\
             map erase c' = map erase (chain t).
Proof.
  assert (Hsame : Some t = Some (set_chain t (chain t))) by now destruct t.
  unfold TextTablePrint.
  destruct cb as [c|];
    [|intros [= <-]; exists (chain t); now split].
  destruct (_ <? posX); [intros [= <-]; exists (chain t); now split|].
  destruct (columns =? 0); [intros [= <-]; exists (chain t); now split|].
  destruct (entries t =? 0); [intros [= <-]; exists (chain t); now split|].
  destruct (negb _); [intros [= <-]; exists (chain t); now split|].
  destruct (malloc h) as [[p0|] h0];
    [|intros [= <-]; exists (chain t); now split].
  destruct (metrics_rows _ _ _ _) as [[rest pColumn]| |];
    cbn [bind]; try discriminate.
  destruct (malloc h0) as [[p1|] h1];
    [|intros [= <-]; exists (chain t); now split].
  destruct (malloc h1) as [[p2|] h2];
    [|intros [= <-]; exists (chain t); now split].
  destruct (malloc h2) as [[p3|] h3];
    [|intros [= <-]; exists (chain t); now split].
  destruct (rows_loop _ _ _ _ _ _ _ _ _ _) as [[[out es] pE]| |] eqn:Hr;
    cbn [bind]; try discriminate.
  intros [= <-]. exists (es ++ pE). split; [reflexivity|].
  eapply rows_loop_done, Hr.
Qed.

(** ** TextTablePrint: printing twice *)

(** C6. A second call of [TextTablePrint] with the same arguments, on the
    table as the first call left it and with an allocator that answers as
    it did in the first call, returns the same value and hands the same
    lines to the callback. *)
Theorem C6_print_twice table cb tabStyle posX columns (h : heap) (r : print_result) :
  TextTablePrint table cb tabStyle posX columns h = Done r ->
  forall h', oracle h' = oracle h ->
  exists r',
    TextTablePrint (table_after r) cb tabStyle posX columns h' = Done r' /\
    ret r' = ret r /\ lines r' = lines r.
Proof.
  intros H h' Hor. destruct table as [t|].
  - destruct (print_table_after _ _ _ _ _ _ H) as (c' & -> & Hmap).
    pose proof (@print_congruence t c' cb tabStyle posX columns h h' Hmap Hor) as E.
    rewrite H in E. cbn [observable bind] in E.
    destruct (TextTablePrint (Some (set_chain t c')) cb tabStyle posX columns h')
      as [r'| |]; try discriminate.
    injection E as E1 E2. now exists r'.
  - injection H as <-. eexists. split; [reflexivity|]. now split.
Qed.

Lemma C6_print_twice_witness :
  (TextTablePrint (Some example_table) (Some PrintLine)
                  TABSTYLE_REGULAR_HEAD_ON 0 2 example_heap = Done example_result /\
   oracle (heap_after example_result) = oracle example_heap) /\
  exists r',
    TextTablePrint (table_after example_result) (Some PrintLine)
                   TABSTYLE_REGULAR_HEAD_ON 0 2 (heap_after example_result)
      = Done r' /\
    ret r' = ret example_result /\ lines r' = lines example_result.
Proof.
  split; [split; reflexivity|].
  apply (@C6_print_twice (Some example_table) (Some PrintLine)
           TABSTYLE_REGULAR_HEAD_ON 0 2 example_heap example_result);
    reflexivity.
Defined.

(** ** TextTablePrint: the header separator *)



(** ** TextTablePrint: the dividers of the styles without header *)

Lemma after_row_no_header t tabStyle posX pColumn rows i :
  tabStyle = TABSTYLE_REGULAR_HEAD_OFF \/ tabStyle = TABSTYLE_SEPARATED_HEAD_OFF ->
  after_row t tabStyle posX pColumn rows i
  = divider_after tabStyle rows i (c_str (gridBuf t posX pColumn)).
Proof.
  unfold after_row, divider_after.
  intros [-> | ->]; destruct (i =? 0), (i <? rows - 1); reflexivity.
Qed.

(** C2 as stated fails: with the bordered style without header the first
    line handed to the callback is the regular divider, in front of row 0,
    so the lines are not the rows followed by one divider. *)
Lemma C2_divider_before_row_0 :
  exists r,
    TextTablePrint (Some example_table) (Some PrintLine)
                   TABSTYLE_REGULAR_HEAD_OFF 0 2 example_heap = Done r /\
    ret r = true /\
    nth 0 (lines r) [] = grid_line example_table 0 2 /\
    lines r
    <> concat (map (row_lines example_table TABSTYLE_REGULAR_HEAD_OFF 0 2)
                   (seq 0 (entries example_table / 2)))
       ++ [grid_line example_table 0 2].
Proof.
  eexists. split; [vm_compute; reflexivity|].
  split; [reflexivity|]. split; [vm_compute; reflexivity|].
  vm_compute. discriminate.
Qed.

(** C2, amended. When [TextTablePrint] returns [true] with one of the two
    styles without header, the callback gets: the regular divider line;
    then row by row the content lines of the row, at least one, followed in
    the separated style by a regular divider behind row 0 and behind every
    later row but the last, and by nothing in the bordered style; then the
    regular divider line that closes the table. *)
Theorem C2_divider_schedule
    (t : TextTable_t) cb (tabStyle : TabStyle_e) (posX columns : nat)
    (h : heap) (r : print_result) :
  TextTablePrint (Some t) cb tabStyle posX columns h = Done r ->
  ret r = true ->
  tabStyle = TABSTYLE_REGULAR_HEAD_OFF \/ tabStyle = TABSTYLE_SEPARATED_HEAD_OFF ->
  lines r
  = [grid_line t posX columns]
    ++ concat
         (map (fun i =>
                 row_lines t tabStyle posX columns i
                 ++ divider_after tabStyle (entries t / columns) i
                                  (grid_line t posX columns))
              (seq 0 (entries t / columns)))
    ++ [grid_line t posX columns] /\
  forall i, i < entries t / columns ->
            row_lines t tabStyle posX columns i <> [].
Proof.
  intros H Hret Hstyle. unfold TextTablePrint in H.
  destruct cb as [c|]; [|injection H as <-; discriminate].
  destruct (_ <? posX); [injection H as <-; discriminate|].
  destruct (columns =? 0); [injection H as <-; discriminate|].
  destruct (Nat.eqb_spec (entries t) 0) as [|He]; [injection H as <-; discriminate|].
  destruct (Nat.eqb_spec (entries t) (entries t / columns * columns)) as [Hd|];
    cbn [negb] in H; [|injection H as <-; discriminate].
  destruct (malloc h) as [[p0|] h0]; [|injection H as <-; discriminate].
  unfold row_lines, row_lines_at, grid_line, column_metrics.
  destruct (metrics_rows _ _ _ _) as [[rest pColumn]| |];
    cbn [bind] in H; try discriminate.
  destruct (malloc h0) as [[p1|] h1]; [|injection H as <-; discriminate].
  destruct (malloc h1) as [[p2|] h2]; [|injection H as <-; discriminate].
  destruct (malloc h2) as [[p3|] h3]; [|injection H as <-; discriminate].
  destruct (entries t / columns) as [|n] eqn:Hrows; [simpl in Hd; contradiction|].
  rewrite rows_loop_first_line in H.
  destruct (rows_loop _ _ _ _ _ _ _ _ _ _) as [[[out es] pE]| |] eqn:Hr;
    cbn [bind] in H; try discriminate.
  injection H as <-. cbn [lines].
  apply rows_loop_lines in Hr as [Hout Hne].
  split; [|exact Hne].
  rewrite Hout. rewrite <- app_assoc. f_equal.
  - unfold first_line. now destruct Hstyle as [-> | ->].
  - f_equal.
    + f_equal. apply map_ext. intros k.
      now rewrite after_row_no_header.
    + unfold last_line. now destruct Hstyle as [-> | ->].
Qed.

Lemma C2_divider_schedule_witness :
  (TextTablePrint (Some example_table) (Some PrintLine)
                  TABSTYLE_SEPARATED_HEAD_OFF 0 2 example_heap
     = Done (mkResult true
               [ str "+------+-------+";
                 str "| H1   | H2    |";
                 str "+------+-------+";
                 str "| R1C1 | R1C2  |";
                 str "|      | R1C2b |";
                 str "+------+-------+";
                 str "| R2C1 | R2C2  |";
                 str "+------+-------+" ]
               (table_after example_result)
               (heap_after example_result)) /\
   true = true /\
   (TABSTYLE_SEPARATED_HEAD_OFF = TABSTYLE_REGULAR_HEAD_OFF \/
    TABSTYLE_SEPARATED_HEAD_OFF = TABSTYLE_SEPARATED_HEAD_OFF)) /\
  ([ str "+------+-------+";
     str "| H1   | H2    |";
     str "+------+-------+";
     str "| R1C1 | R1C2  |";
     str "|      | R1C2b |";
     str "+------+-------+";
     str "| R2C1 | R2C2  |";
     str "+------+-------+" ]
   = [grid_line example_table 0 2]
     ++ concat
          (map (fun i =>
                  row_lines example_table TABSTYLE_SEPARATED_HEAD_OFF 0 2 i
                  ++ divider_after TABSTYLE_SEPARATED_HEAD_OFF
                                   (entries example_table / 2) i
                                   (grid_line example_table 0 2))
               (seq 0 (entries example_table / 2)))
     ++ [grid_line example_table 0 2] /\
   forall i, i < entries example_table / 2 ->
             row_lines example_table TABSTYLE_SEPARATED_HEAD_OFF 0 2 i <> []).
Proof.
  split; [split; [vm_compute; reflexivity | split; [reflexivity | now right]]|].
  apply (@C2_divider_schedule example_table (Some PrintLine)
           TABSTYLE_SEPARATED_HEAD_OFF 0 2 example_heap
           (mkResult true _ (table_after example_result)
                     (heap_after example_result)));
    [vm_compute; reflexivity | reflexivity | now right].
Defined.

(** ** TextTablePrint: the scratch buffers on the path that prints *)

Lemma malloc_some (h : heap) (p : nat) (h1 : heap) :
  malloc h = (Some p, h1) ->
  p = next_block h /\ live h1 = p :: live h /\ next_block h1 = S p.
Proof.
  unfold malloc. destruct (oracle h) as [|[|] o]; intros [= <- <-]; auto.
Qed.

Lemma remove_other (x y : nat) (l : list nat) :
  x <> y -> remove Nat.eq_dec x (y :: l) = y :: remove Nat.eq_dec x l.
Proof.
  intros H. simpl. destruct (Nat.eq_dec x y); [contradiction | reflexivity].
Qed.

(** X2. When the call returns [true], the four scratch buffers it allocated
    are released: the live blocks are those from before the call. *)
Lemma print_success_frees table cb tabStyle posX columns (h : heap) (r : print_result) :
  TextTablePrint table cb tabStyle posX columns h = Done r ->
  ret r = true ->
  Forall (fun b => b < next_block h) (live h) ->
  live (heap_after r) = live h.
Proof.
  intros H Hret Hfresh. unfold TextTablePrint in H.
  destruct table as [t|]; [|injection H as <-; discriminate].
  destruct cb as [c|]; [|injection H as <-; discriminate].
  destruct (_ <? posX); [injection H as <-; discriminate|].
  destruct (columns =? 0); [injection H as <-; discriminate|].
  destruct (entries t =? 0); [injection H as <-; discriminate|].
  destruct (negb _); [injection H as <-; discriminate|].
  destruct (malloc h) as [[p0|] h0] eqn:M0; [|injection H as <-; discriminate].
  destruct (metrics_rows _ _ _ _) as [[rest pColumn]| |];
    cbn [bind] in H; try discriminate.
  destruct (malloc h0) as [[p1|] h1] eqn:M1; [|injection H as <-; discriminate].
  destruct (malloc h1) as [[p2|] h2] eqn:M2; [|injection H as <-; discriminate].
  destruct (malloc h2) as [[p3|] h3] eqn:M3; [|injection H as <-; discriminate].
  destruct (rows_loop _ _ _ _ _ _ _ _ _ _) as [[[out es] pE]| |];
    cbn [bind] in H; try discriminate.
  injection H as <-. cbn [heap_after free live].
  apply malloc_some in M0 as (E0 & L0 & N0), M1 as (E1 & L1 & N1),
        M2 as (E2 & L2 & N2), M3 as (E3 & L3 & N3).
  rewrite L3, L2, L1, L0.
  assert (Hnotin : forall p, next_block h <= p -> ~ In p (live h)).
  { intros p Hp Hin. rewrite Forall_forall in Hfresh.
    specialize (Hfresh p Hin). lia. }
  subst p0 p1 p2 p3. rewrite N0, N1, N2 in *.
  repeat first [ rewrite remove_cons
               | rewrite remove_other by lia
               | rewrite (notin_remove Nat.eq_dec (live h)) by (apply Hnotin; lia) ].
  reflexivity.
Qed.

(** ** TextTablePrint: the line buffers *)

Lemma rowLen_fold (t : TextTable_t) (x : ascii) (pColumn : list T_Column) :
  forall acc,
    acc + length (flat_map
                    (fun c =>
                       repeat x (col_rowMaxTextLen c + spacesBetweenBorder t * 2)
                       ++ [charConnectorXY t])
                    pColumn)
    <= fold_left
         (fun rowLen c =>
            let rowLen :=
              rowLen + (col_rowMaxTextLen c + spacesBetweenBorder t * 2 + 1) in
            if col_ansiSeqMaxLen c =? 0 then rowLen
            else rowLen + (col_ansiSeqMaxLen c + length sAnsiSequenceEnd))
         pColumn acc.
Proof.
  induction pColumn as [|c pc IH]; intros acc; simpl flat_map; simpl fold_left.
  - simpl. lia.
  - etransitivity; [|apply IH].
    rewrite !length_app, repeat_length. cbn [length].
    destruct (col_ansiSeqMaxLen c =? 0); lia.
Qed.

(** Border and header line end inside their buffers. *)
Lemma border_fits (t : TextTable_t) (posX : nat) (pColumn : list T_Column) (x : ascii) :
  length (border t posX pColumn x) < calc_rowLen t posX pColumn.
Proof.
  unfold border, calc_rowLen.
  rewrite length_app, repeat_length. cbn [length].
  pose proof (rowLen_fold t x pColumn 2) as H. cbv zeta in H. lia.
Qed.

(** A cell with an empty style prefix has [ansiSeq] set and [ansiSeqLen]
    0: its column gets no room for the closing tag, which is written all
    the same, past the end of [rowBuf]. *)
Remark empty_prefix_overflows :
  exists t h,
    add_all empty_prefix_cells fresh_table empty_heap = Done (Some t, h) /\
    TextTablePrint (Some t) (Some PrintLine) TABSTYLE_REGULAR_HEAD_ON 0 1 h
    = Undefined.
Proof.
  eexists; eexists. split; vm_compute; reflexivity.
Qed.

(** * Further properties of the code *)

(** ** TextTablePrint: what a call changes *)

(** X3. A call that returns [false] has not called the callback and has left
    the table as it was: every failure is found before the first line is
    built. *)
Theorem print_false_no_output table cb tabStyle posX columns (h : heap)
    (r : print_result) :
  TextTablePrint table cb tabStyle posX columns h = Done r ->
  ret r = false ->
  lines r = [] /\ table_after r = table.
Proof.
  intros H Hret. unfold TextTablePrint in H.
  destruct table as [t|]; [|injection H as <-; now split].
  destruct cb as [c|]; [|injection H as <-; now split].
  destruct (_ <? posX); [injection H as <-; now split|].
  destruct (columns =? 0); [injection H as <-; now split|].
  destruct (entries t =? 0); [injection H as <-; now split|].
  destruct (negb _); [injection H as <-; now split|].
  destruct (malloc h) as [[p0|] h0]; [|injection H as <-; now split].
  destruct (metrics_rows _ _ _ _) as [[rest pColumn]| |];
    cbn [bind] in H; try discriminate.
  destruct (malloc h0) as [[p1|] h1]; [|injection H as <-; now split].
  destruct (malloc h1) as [[p2|] h2]; [|injection H as <-; now split].
  destruct (malloc h2) as [[p3|] h3]; [|injection H as <-; now split].
  destruct (rows_loop _ _ _ _ _ _ _ _ _ _) as [[[out es] pE]| |];
    cbn [bind] in H; try discriminate.
  injection H as <-. discriminate.
Qed.

Lemma print_false_no_output_witness :
  (TextTablePrint (Some example_table) (Some PrintLine)
                  TABSTYLE_REGULAR_HEAD_ON 0 2 (mkHeap [] 0 [true; true; false])
     = Done (mkResult false [] (Some example_table) (mkHeap [1; 0] 2 [])) /\
   false = false) /\
  lines (mkResult false [] (Some example_table) (mkHeap [1; 0] 2 [])) = [] /\
  table_after (mkResult false [] (Some example_table) (mkHeap [1; 0] 2 []))
  = Some example_table.
Proof.
  split; [split; reflexivity|].
  apply (@print_false_no_output (Some example_table) (Some PrintLine)
           TABSTYLE_REGULAR_HEAD_ON 0 2 (mkHeap [] 0 [true; true; false])
           (mkResult false [] (Some example_table) (mkHeap [1; 0] 2 [])));
    reflexivity.
Defined.

(** X4. A call leaves the table with the same entry count, the same
    configuration and, cell by cell, the same text, width and style prefix:
    write pointers are all it moves. *)
Theorem print_keeps_table (t : TextTable_t) cb tabStyle posX columns (h : heap)
    (r : print_result) :
  TextTablePrint (Some t) cb tabStyle posX columns h = Done r ->
  exists t',
    table_after r = Some t' /\
    set_chain t' (chain t) = t /\
    length (chain t') = length (chain t) /\
    map text (chain t') = map text (chain t) /\
    map rowMaxTextLen (chain t') = map rowMaxTextLen (chain t) /\
    map ansiSeq (chain t') = map ansiSeq (chain t).
Proof.
  intros H. destruct (print_table_after _ _ _ _ _ _ H) as (c' & -> & Hmap).
  exists (set_chain t c'). split; [reflexivity|].
  split; [now destruct t|]. cbn [set_chain chain].
  split; [rewrite <- (length_map erase c'), Hmap; apply length_map|].
  repeat split.
  - apply (f_equal (map text)) in Hmap. rewrite !map_map in Hmap. exact Hmap.
  - apply (f_equal (map rowMaxTextLen)) in Hmap. rewrite !map_map in Hmap.
    exact Hmap.
  - apply (f_equal (map ansiSeq)) in Hmap. rewrite !map_map in Hmap. exact Hmap.
Qed.

Lemma print_keeps_table_witness :
  TextTablePrint (Some example_table) (Some PrintLine)
                 TABSTYLE_REGULAR_HEAD_ON 0 2 example_heap = Done example_result /\
  exists t',
    table_after example_result = Some t' /\
    set_chain t' (chain example_table) = example_table /\
    length (chain t') = length (chain example_table) /\
    map text (chain t') = map text (chain example_table) /\
    map rowMaxTextLen (chain t') = map rowMaxTextLen (chain example_table) /\
    map ansiSeq (chain t') = map ansiSeq (chain example_table).
Proof.
  split; [reflexivity|].
  apply (@print_keeps_table example_table (Some PrintLine)
           TABSTYLE_REGULAR_HEAD_ON 0 2 example_heap example_result).
  reflexivity.
Defined.

Lemma print_success_frees_witness :
  (TextTablePrint (Some example_table) (Some PrintLine)
                  TABSTYLE_REGULAR_HEAD_ON 0 2 example_heap = Done example_result /\
   ret example_result = true /\
   Forall (fun b => b < next_block example_heap) (live example_heap)) /\
  live (heap_after example_result) = live example_heap.
Proof.
  assert (F : Forall (fun b => b < next_block example_heap) (live example_heap)).
  { apply Forall_forall. intros b Hb. simpl in Hb. simpl.
    repeat (destruct Hb as [<- | Hb]; [lia|]). contradiction. }
  split; [split; [reflexivity | split; [reflexivity | exact F]]|].
  apply (@print_success_frees (Some example_table) (Some PrintLine)
           TABSTYLE_REGULAR_HEAD_ON 0 2 example_heap example_result);
    [reflexivity | reflexivity | exact F].
Defined.

(** ** TextTablePrint: the lines of the other styles *)

(** The lines of a call that returns [true], for any style: the first
    line, the rows with the line behind each, the closing line. *)
Lemma print_lines (t : TextTable_t) cb (tabStyle : TabStyle_e)
    (posX columns : nat) (h : heap) (r : print_result) :
  TextTablePrint (Some t) cb tabStyle posX columns h = Done r ->
  ret r = true ->
  lines r
  = first_line t tabStyle posX (column_metrics t columns) true
    ++ concat
         (map (fun i =>
                 row_lines t tabStyle posX columns i
                 ++ after_row t tabStyle posX (column_metrics t columns)
                              (entries t / columns) i)
              (seq 0 (entries t / columns)))
    ++ last_line t tabStyle posX (column_metrics t columns) /\
  entries t / columns <> 0 /\
  forall i, i < entries t / columns ->
            row_lines t tabStyle posX columns i <> [].
Proof.
  intros H Hret. unfold TextTablePrint in H.
  destruct cb as [c|]; [|injection H as <-; discriminate].
  destruct (_ <? posX); [injection H as <-; discriminate|].
  destruct (columns =? 0); [injection H as <-; discriminate|].
  destruct (Nat.eqb_spec (entries t) 0) as [|He]; [injection H as <-; discriminate|].
  destruct (Nat.eqb_spec (entries t) (entries t / columns * columns)) as [Hd|];
    cbn [negb] in H; [|injection H as <-; discriminate].
  destruct (malloc h) as [[p0|] h0]; [|injection H as <-; discriminate].
  unfold row_lines, row_lines_at, column_metrics.
  destruct (metrics_rows _ _ _ _) as [[rest pColumn]| |];
    cbn [bind] in H; try discriminate.
  destruct (malloc h0) as [[p1|] h1]; [|injection H as <-; discriminate].
  destruct (malloc h1) as [[p2|] h2]; [|injection H as <-; discriminate].
  destruct (malloc h2) as [[p3|] h3]; [|injection H as <-; discriminate].
  destruct (entries t / columns) as [|n] eqn:Hrows; [simpl in Hd; contradiction|].
  rewrite rows_loop_first_line in H.
  destruct (rows_loop _ _ _ _ _ _ _ _ _ _) as [[[out es] pE]| |] eqn:Hr;
    cbn [bind] in H; try discriminate.
  injection H as <-. cbn [lines].
  apply rows_loop_lines in Hr as [Hout Hne].
  split; [|split; [discriminate | exact Hne]].
  now rewrite Hout, <- app_assoc.
Qed.

(** X5. With the compact style a call that returns [true] hands the callback
    the content lines of the rows, each row at least one, and nothing
    else: no divider line at all. *)
Theorem print_lines_compact (t : TextTable_t) cb (posX columns : nat)
    (h : heap) (r : print_result) :
  TextTablePrint (Some t) cb TABSTYLE_COMACT posX columns h = Done r ->
  ret r = true ->
  lines r = concat (map (row_lines t TABSTYLE_COMACT posX columns)
                        (seq 0 (entries t / columns))) /\
  forall i, i < entries t / columns ->
            row_lines t TABSTYLE_COMACT posX columns i <> [].
Proof.
  intros H Hret. destruct (print_lines _ _ _ _ _ _ H Hret) as (-> & _ & Hne).
  split; [|exact Hne].
  cbn [first_line last_line is_compact app]. rewrite app_nil_r. f_equal.
  apply map_ext. intros i. unfold after_row.
  destruct (i =? 0), (i <? entries t / columns - 1); apply app_nil_r.
Qed.

Lemma print_lines_compact_witness :
  (TextTablePrint (Some example_table) (Some PrintLine)
                  TABSTYLE_COMACT 3 2 example_heap
     = Done (mkResult true
               [ str "   H1    H2    ";
                 str "   R1C1  R1C2  ";
                 str "         R1C2b ";
                 str "   R2C1  R2C2  " ]
               (table_after example_result)
               (heap_after example_result)) /\
   true = true) /\
  ([ str "   H1    H2    ";
     str "   R1C1  R1C2  ";
     str "         R1C2b ";
     str "   R2C1  R2C2  " ]
   = concat (map (row_lines example_table TABSTYLE_COMACT 3 2)
                 (seq 0 (entries example_table / 2))) /\
   forall i, i < entries example_table / 2 ->
             row_lines example_table TABSTYLE_COMACT 3 2 i <> []).
Proof.
  split; [split; [vm_compute; reflexivity | reflexivity]|].
  apply (@print_lines_compact example_table (Some PrintLine) 3 2 example_heap
           (mkResult true _ (table_after example_result)
                     (heap_after example_result)));
    [vm_compute; reflexivity | reflexivity].
Defined.

(** X6. With one of the two styles with header a call that returns [true]
    hands the callback: the header divider; the content lines of row 0 and
    the header divider again; then the later rows, each followed in the
    separated style by a regular divider unless it is the last; then the
    regular divider that closes the table. *)
Theorem print_lines_header (t : TextTable_t) cb (tabStyle : TabStyle_e)
    (posX columns : nat) (h : heap) (r : print_result) :
  TextTablePrint (Some t) cb tabStyle posX columns h = Done r ->
  ret r = true ->
  tabStyle = TABSTYLE_REGULAR_HEAD_ON \/ tabStyle = TABSTYLE_SEPARATED_HEAD_ON ->
  lines r
  = [head_line t posX columns]
    ++ concat
         (map (fun i =>
                 row_lines t tabStyle posX columns i
                 ++ divider_after_header tabStyle (entries t / columns) i
                      (head_line t posX columns) (grid_line t posX columns))
              (seq 0 (entries t / columns)))
    ++ [grid_line t posX columns].
Proof.
  intros H Hret Hstyle. destruct (print_lines _ _ _ _ _ _ H Hret) as (-> & _ & _).
  unfold head_line, grid_line, divider_after_header.
  destruct Hstyle as [-> | ->]; cbn [first_line last_line is_compact];
    (erewrite map_ext; [reflexivity|]); intros i; unfold after_row;
    destruct (i =? 0), (i <? entries t / columns - 1); reflexivity.
Qed.

Lemma print_lines_header_witness :
  (TextTablePrint (Some example_table) (Some PrintLine)
                  TABSTYLE_SEPARATED_HEAD_ON 0 2 example_heap
     = Done (mkResult true
               [ str "+======+=======+";
                 str "| H1   | H2    |";
                 str "+======+=======+";
                 str "| R1C1 | R1C2  |";
                 str "|      | R1C2b |";
                 str "+------+-------+";
                 str "| R2C1 | R2C2  |";
                 str "+------+-------+" ]
               (table_after example_result)
               (heap_after example_result)) /\
   true = true /\
   (TABSTYLE_SEPARATED_HEAD_ON = TABSTYLE_REGULAR_HEAD_ON \/
    TABSTYLE_SEPARATED_HEAD_ON = TABSTYLE_SEPARATED_HEAD_ON)) /\
  [ str "+======+=======+";
    str "| H1   | H2    |";
    str "+======+=======+";
    str "| R1C1 | R1C2  |";
    str "|      | R1C2b |";
    str "+------+-------+";
    str "| R2C1 | R2C2  |";
    str "+------+-------+" ]
  = [head_line example_table 0 2]
    ++ concat
         (map (fun i =>
                 row_lines example_table TABSTYLE_SEPARATED_HEAD_ON 0 2 i
                 ++ divider_after_header TABSTYLE_SEPARATED_HEAD_ON
                      (entries example_table / 2) i
                      (head_line example_table 0 2) (grid_line example_table 0 2))
              (seq 0 (entries example_table / 2)))
    ++ [grid_line example_table 0 2].
Proof.
  split; [split; [vm_compute; reflexivity | split; [reflexivity | now right]]|].
  apply (@print_lines_header example_table (Some PrintLine)
           TABSTYLE_SEPARATED_HEAD_ON 0 2 example_heap
           (mkResult true _ (table_after example_result)
                     (heap_after example_result)));
    [vm_compute; reflexivity | reflexivity | now right].
Defined.

(** ** TextTablePrint: which characters a style uses *)

Lemma rows_loop_compact_chars (t : TextTable_t) gx gb gs hx hb hs cx
    posX columns pColumn rows n i p ft :
  rows_loop (set_border_chars t gx gb gs hx hb hs cx) TABSTYLE_COMACT
            posX columns pColumn rows n i p ft
  = rows_loop t TABSTYLE_COMACT posX columns pColumn rows n i p ft.
Proof. destruct t. reflexivity. Qed.

(** X7. With the compact style none of the seven border characters is used:
    changing them changes neither the return value nor any line. *)
Theorem print_compact_ignores_border_chars (t : TextTable_t)
    gx gb gs hx hb hs cx cb posX columns (h : heap) :
  observable (TextTablePrint (Some (set_border_chars t gx gb gs hx hb hs cx)) cb
                             TABSTYLE_COMACT posX columns h)
  = observable (TextTablePrint (Some t) cb TABSTYLE_COMACT posX columns h).
Proof.
  unfold TextTablePrint.
  destruct cb as [cb|]; [|reflexivity].
  change (entries (set_border_chars t gx gb gs hx hb hs cx)) with (entries t).
  change (chain (set_border_chars t gx gb gs hx hb hs cx)) with (chain t).
  destruct (_ <? posX); [reflexivity|].
  destruct (columns =? 0); [reflexivity|].
  destruct (entries t =? 0); [reflexivity|].
  destruct (negb _); [reflexivity|].
  destruct (malloc h) as [[p0|] h0]; [|reflexivity].
  destruct (metrics_rows _ _ _ _) as [[rest pColumn]| |];
    cbn [bind]; try reflexivity.
  destruct (malloc h0) as [[p1|] h1]; [|reflexivity].
  destruct (malloc h1) as [[p2|] h2]; [|reflexivity].
  destruct (malloc h2) as [[p3|] h3]; [|reflexivity].
  rewrite rows_loop_compact_chars.
  destruct (rows_loop _ _ _ _ _ _ _ _ _ _) as [[[out es] pE]| |]; reflexivity.
Qed.

Lemma rows_loop_no_header_chars (t : TextTable_t) hx hb hs tabStyle
    posX columns pColumn rows n i p ft :
  tabStyle = TABSTYLE_REGULAR_HEAD_OFF \/ tabStyle = TABSTYLE_SEPARATED_HEAD_OFF ->
  rows_loop (set_header_chars t hx hb hs) tabStyle posX columns pColumn rows n i p ft
  = rows_loop t tabStyle posX columns pColumn rows n i p ft.
Proof. destruct t. intros [-> | ->]; reflexivity. Qed.

Lemma print_no_header_chars (t : TextTable_t) hx hb hs cb tabStyle posX columns
    (h : heap) :
  tabStyle = TABSTYLE_REGULAR_HEAD_OFF \/ tabStyle = TABSTYLE_SEPARATED_HEAD_OFF ->
  observable (TextTablePrint (Some (set_header_chars t hx hb hs)) cb
                             tabStyle posX columns h)
  = observable (TextTablePrint (Some t) cb tabStyle posX columns h).
Proof.
  intros Hstyle. unfold TextTablePrint.
  destruct cb as [cb|]; [|reflexivity].
  change (entries (set_header_chars t hx hb hs)) with (entries t).
  change (chain (set_header_chars t hx hb hs)) with (chain t).
  destruct (_ <? posX); [reflexivity|].
  destruct (columns =? 0); [reflexivity|].
  destruct (entries t =? 0); [reflexivity|].
  destruct (negb _); [reflexivity|].
  destruct (malloc h) as [[p0|] h0]; [|reflexivity].
  destruct (metrics_rows _ _ _ _) as [[rest pColumn]| |];
    cbn [bind]; try reflexivity.
  destruct (malloc h0) as [[p1|] h1]; [|reflexivity].
  destruct (malloc h1) as [[p2|] h2]; [|reflexivity].
  destruct (malloc h2) as [[p3|] h3]; [|reflexivity].
  rewrite rows_loop_no_header_chars by assumption.
  destruct (rows_loop _ _ _ _ _ _ _ _ _ _) as [[[out es] pE]| |]; reflexivity.
Qed.

(** X8. With the two styles without header the three header characters are
    not used: changing them changes neither the return value nor any
    line. *)
Theorem print_no_header_ignores_header_chars :
  (forall t hx hb hs cb posX columns h,
      observable (TextTablePrint (Some (set_header_chars t hx hb hs)) cb
                                 TABSTYLE_REGULAR_HEAD_OFF posX columns h)
      = observable (TextTablePrint (Some t) cb
                                   TABSTYLE_REGULAR_HEAD_OFF posX columns h)) /\
  (forall t hx hb hs cb posX columns h,
      observable (TextTablePrint (Some (set_header_chars t hx hb hs)) cb
                                 TABSTYLE_SEPARATED_HEAD_OFF posX columns h)
      = observable (TextTablePrint (Some t) cb
                                   TABSTYLE_SEPARATED_HEAD_OFF posX columns h)).
Proof.
  split; intros; apply print_no_header_chars; auto.
Qed.

(** ** TextTableAdd: what a call changes *)

Lemma with_cell_set_tail (t : TextTable_t) (e0 e : TextTableEntry_t) :
  set_tail (with_cell t e0) e = with_cell t e.
Proof.
  unfold set_tail, with_cell. cbn [chain entries charGridX charGridBoundary
    charGridSeparator charHeadX charHeadBoundary charHeadSeparator
    charConnectorXY spacesBetweenBorder].
  now rewrite removelast_last.
Qed.

(** A call either leaves the table alone, or links one cell behind the
    tail; the cell has a prefix shorter than 24 characters, if any. *)
Lemma TextTableAdd_shape (t : TextTable_t) (ansi format : option cstring) (h : heap) :
  forall ok t' h',
    TextTableAdd (Some t) ansi format h = Done (ok, t', h') ->
    (ok = false /\ t' = Some t) \/
    exists e, t' = Some (with_cell t e) /\
              ansiSeqLen e < TEXT_TABLE_MAX_ANSI_SEQ_LEN.
Proof.
  intros ok t' h'. unfold TextTableAdd.
  change (link_entry t zero_entry) with (with_cell t zero_entry).
  assert (Z : ansiSeqLen zero_entry < TEXT_TABLE_MAX_ANSI_SEQ_LEN)
    by (unfold ansiSeqLen, zero_entry, TEXT_TABLE_MAX_ANSI_SEQ_LEN;
        cbn [ansiSeq]; lia).
  destruct (malloc h) as [[p|] h1]; [|intros [= <- <- <-]; now left].
  destruct format as [[|c f]|].
  - intros [= <- <- <-]. right. now exists zero_entry.
  - cbv zeta. change (0 <? length (c :: f)) with true. cbv iota.
    intros H. right.
    destruct ansi as [a|]; cbn [bind] in H.
    + destruct (Nat.ltb_spec (length a) TEXT_TABLE_MAX_ANSI_SEQ_LEN) as [Ha|Ha].
      * destruct (malloc h1) as [[q|] h2]; cbn [bind] in H; [|discriminate].
        rewrite !with_cell_set_tail in H.
        destruct (malloc h2) as [[r|] h3]; injection H as <- <- <-;
          eexists; (split; [reflexivity | exact Ha]).
      * cbn [bind] in H. rewrite !with_cell_set_tail in H.
        destruct (malloc h1) as [[r|] h3]; injection H as <- <- <-;
          eexists; (split; [reflexivity | exact Z]).
    + rewrite !with_cell_set_tail in H.
      destruct (malloc h1) as [[r|] h3]; injection H as <- <- <-;
        eexists; (split; [reflexivity | exact Z]).
  - intros [= <- <- <-]. right. now exists zero_entry.
Qed.

(** X9. [TextTableAdd] keeps the invariant of the table, whether it returns
    [true] or [false]: the cells already stored and the configuration are
    left alone, at most one cell is linked behind the tail and counted, and
    that cell has a width that fits its text, a text of 1 to 96 characters
    or none, and a prefix of less than 24 characters or none. *)
Theorem add_keeps_invariant (t : TextTable_t) (ansi format : option cstring)
    (h : heap) (ok : bool) (t' : option TextTable_t) (h' : heap) :
  wf_table t ->
  TextTableAdd (Some t) ansi format h = Done (ok, t', h') ->
  exists t1 added,
    t' = Some t1 /\ wf_table t1 /\
    chain t1 = chain t ++ added /\
    entries t1 = entries t + length added /\
    config t1 = config t /\
    length added <= 1 /\
    (ok = true -> length added = 1).
Proof.
  intros [Hn Hcells] H.
  pose proof (TextTableAdd_shape _ _ _ _ H) as Hshape.
  pose proof (TextTableAdd_paths _ _ _ _ H) as Hpaths.
  destruct Hshape as [(-> & ->)|(e & -> & Ha)].
  - exists t, []. rewrite app_nil_r, Nat.add_0_r.
    repeat split; trivial; try (simpl; lia); try discriminate.
  - exists (with_cell t e), [e]. split; [reflexivity|].
    assert (We : wf_cell e).
    { destruct Hpaths as [(_ & E & _)|(e' & t1 & E & Hc & _ & _ & Hp)].
      - injection E as E. apply (f_equal (fun x => length (chain x))) in E.
        cbn [with_cell chain] in E. rewrite length_app in E. simpl in E. lia.
      - injection E as <-. cbn [with_cell chain] in Hc.
        apply app_inj_tail in Hc as [_ <-].
        destruct Hp as [(_ & Ht & Hr & _)|(_ & _ & Ht & Hr)].
        + repeat split; trivial.
          * rewrite Ht. destruct format as [[|c f]|]; discriminate.
          * unfold textLen. rewrite Ht.
            destruct format as [[|c f]|]; cbn [stored_text];
              try (unfold TEXT_TABLE_MAX_COLUMN_LEN; lia).
            apply firstn_le_length.
        + unfold wf_cell, textLen. rewrite Ht, Hr.
          repeat split; trivial; try discriminate.
          unfold TEXT_TABLE_MAX_COLUMN_LEN. lia. }
    repeat split.
    + cbn [with_cell entries chain]. rewrite length_app, Hn. simpl. lia.
    + cbn [with_cell chain]. apply Forall_app. split; [assumption|].
      now constructor.
    + cbn [with_cell entries length]. lia.
    + simpl. lia.
Qed.

Lemma example_table_wf : wf_table example_table.
Proof.
  split; [reflexivity|].
  repeat constructor; try discriminate;
    try (unfold TEXT_TABLE_MAX_COLUMN_LEN, TEXT_TABLE_MAX_ANSI_SEQ_LEN; simpl; lia).
Qed.

Lemma add_keeps_invariant_witness :
  (wf_table example_table /\
   TextTableAdd (Some example_table) (Some prefix23) (Some (str "abc"))
                (mkHeap [] 0 [true; true; false])
   = Done (false,
           Some (with_cell example_table (mkEntry None 0 (Some prefix23) None)),
           mkHeap [1; 0] 2 [])) /\
  exists t1 added,
    Some (with_cell example_table (mkEntry None 0 (Some prefix23) None)) = Some t1 /\
    wf_table t1 /\
    chain t1 = chain example_table ++ added /\
    entries t1 = entries example_table + length added /\
    config t1 = config example_table /\
    length added <= 1 /\
    (false = true -> length added = 1).
Proof.
  split; [split; [exact example_table_wf | reflexivity]|].
  apply (@add_keeps_invariant example_table (Some prefix23) (Some (str "abc"))
           (mkHeap [] 0 [true; true; false]) false _ (mkHeap [1; 0] 2 []));
    [exact example_table_wf | reflexivity].
Defined.

(** X10. The text a cell gets is the formatted text cut at 96 characters: a
    text of 1 to 96 characters is stored as it is, a longer one loses what
    is behind its first 96 characters, an empty one is not stored. The call
    returns [true] in each case. *)
Theorem add_text_cap (t : TextTable_t) (ansi : option cstring) (f : cstring)
    (h : heap) (t' : TextTable_t) (h' : heap) :
  TextTableAdd (Some t) ansi (Some f) h = Done (true, Some t', h') ->
  exists e,
    chain t' = chain t ++ [e] /\
    textLen e = Nat.min (length f) 96 /\
    (f = [] -> text e = None) /\
    (0 < length f <= 96 -> text e = Some f) /\
    (96 < length f -> text e = Some (firstn 96 f)).
Proof.
  intros H. apply TextTableAdd_paths in H.
  destruct H as [(Hok & _)|(e & t1 & [= <-] & Hc & _ & _ & H)]; [discriminate|].
  destruct H as [(_ & Ht & _)|(Hok & _)]; [|discriminate].
  exists e. split; [exact Hc|]. unfold textLen. rewrite Ht.
  destruct f as [|c f]; cbn [stored_text].
  - repeat split; trivial; simpl; lia.
  - change TEXT_TABLE_MAX_COLUMN_LEN with 96.
    split; [rewrite length_firstn; lia|].
    split; [discriminate|].
    split; [intros [_ Hle]; now rewrite firstn_all2 | reflexivity].
Qed.

Lemma add_text_cap_witness :
  TextTableAdd (Some example_table) None (Some (repeat "x"%char 97)) empty_heap
  = Done (true,
          Some (with_cell example_table
                  (mkEntry (Some (repeat "x"%char 96)) 96 None None)),
          mkHeap [1; 0] 2 []) /\
  exists e,
    chain (with_cell example_table
             (mkEntry (Some (repeat "x"%char 96)) 96 None None))
    = chain example_table ++ [e] /\
    textLen e = Nat.min (length (repeat "x"%char 97)) 96 /\
    (repeat "x"%char 97 = [] -> text e = None) /\
    (0 < length (repeat "x"%char 97) <= 96 -> text e = Some (repeat "x"%char 97)) /\
    (96 < length (repeat "x"%char 97) ->
     text e = Some (firstn 96 (repeat "x"%char 97))).
Proof.
  split; [vm_compute; reflexivity|].
  apply (@add_text_cap example_table None (repeat "x"%char 97) empty_heap _
           (mkHeap [1; 0] 2 [])).
  vm_compute. reflexivity.
Defined.

(** X11. The cell of a call that returns [true] has the style prefix [a]
    exactly when [a] was passed, is shorter than 24 characters, and the
    formatted text is not empty. *)
Theorem add_prefix_rule (t : TextTable_t) (ansi format : option cstring)
    (h : heap) (t' : TextTable_t) (h' : heap) :
  TextTableAdd (Some t) ansi format h = Done (true, Some t', h') ->
  exists e,
    chain t' = chain t ++ [e] /\
    forall a,
      ansiSeq e = Some a <->
      ansi = Some a /\ length a < 24 /\ exists c f, format = Some (c :: f).
Proof.
  intros H. apply TextTableAdd_paths in H.
  destruct H as [(Hok & _)|(e & t1 & [= <-] & Hc & _ & _ & H)]; [discriminate|].
  destruct H as [(_ & _ & _ & Ha)|(Hok & _)]; [|discriminate].
  exists e. split; [exact Hc|]. intros a. rewrite Ha.
  change TEXT_TABLE_MAX_ANSI_SEQ_LEN with 24.
  destruct format as [[|c f]|]; cbn [stored_text].
  - split; [discriminate|]. intros (_ & _ & c & f & E). discriminate.
  - destruct ansi as [a'|].
    + destruct (Nat.ltb_spec (length a') 24) as [Hl|Hl].
      * split.
        -- intros [= <-]. repeat split; trivial. now exists c, f.
        -- now intros (-> & _).
      * split; [discriminate|]. intros ([= <-] & Hlt & _). lia.
    + split; [discriminate|]. now intros (E & _).
  - split; [discriminate|]. intros (_ & _ & c & f & E). discriminate.
Qed.

Lemma add_prefix_rule_witness :
  TextTableAdd (Some example_table) (Some prefix23) (Some (str "abc")) empty_heap
  = Done (true,
          Some (with_cell example_table
                  (mkEntry (Some (str "abc")) 3 (Some prefix23) None)),
          mkHeap [2; 1; 0] 3 []) /\
  exists e,
    chain (with_cell example_table
             (mkEntry (Some (str "abc")) 3 (Some prefix23) None))
    = chain example_table ++ [e] /\
    forall a,
      ansiSeq e = Some a <->
      Some prefix23 = Some a /\ length a < 24 /\
      exists c f, Some (str "abc") = Some (c :: f).
Proof.
  split; [vm_compute; reflexivity|].
  apply (@add_prefix_rule example_table (Some prefix23) (Some (str "abc"))
           empty_heap _ (mkHeap [2; 1; 0] 3 [])).
  vm_compute. reflexivity.
Defined.

Lemma malloc_always (h : heap) :
  oracle h = [] ->
  exists h1, malloc h = (Some (next_block h), h1) /\ oracle h1 = [].
Proof.
  intros H. unfold malloc. rewrite H. eexists. split; reflexivity.
Qed.

(** With an allocator that does not fail, [TextTableAdd] on a table
    returns [true] for every style prefix and every text, absent, empty,
    too long or not, and links one cell. *)
Theorem add_returns_true (t : TextTable_t) (ansi format : option cstring) (h : heap) :
  oracle h = [] ->
  exists e h',
    TextTableAdd (Some t) ansi format h = Done (true, Some (with_cell t e), h') /\
    oracle h' = [].
Proof.
  intros Ho. unfold TextTableAdd.
  change (link_entry t zero_entry) with (with_cell t zero_entry).
  destruct (malloc_always h Ho) as (h1 & -> & Ho1).
  destruct format as [[|c f]|]; try (now exists zero_entry, h1).
  cbv zeta. change (0 <? length (c :: f)) with true. cbv iota.
  destruct ansi as [a|].
  - destruct (length a <? TEXT_TABLE_MAX_ANSI_SEQ_LEN).
    + destruct (malloc_always h1 Ho1) as (h2 & -> & Ho2). cbn [bind].
      destruct (malloc_always h2 Ho2) as (h3 & -> & Ho3).
      rewrite !with_cell_set_tail. eexists; eexists. split; [reflexivity | exact Ho3].
    + cbn [bind]. destruct (malloc_always h1 Ho1) as (h2 & -> & Ho2).
      rewrite !with_cell_set_tail. eexists; eexists. split; [reflexivity | exact Ho2].
  - cbn [bind]. destruct (malloc_always h1 Ho1) as (h2 & -> & Ho2).
    rewrite !with_cell_set_tail. eexists; eexists. split; [reflexivity | exact Ho2].
Qed.

Lemma add_returns_true_witness :
  oracle empty_heap = [] /\
  exists e h',
    TextTableAdd (Some example_table) (Some prefix25) None empty_heap
    = Done (true, Some (with_cell example_table e), h') /\
    oracle h' = [].
Proof.
  split; [reflexivity|].
  apply (@add_returns_true example_table (Some prefix25) None empty_heap).
  reflexivity.
Defined.

(** ** TextTablePrint: the invariant of the table *)

Lemma wf_cell_erase (e e' : TextTableEntry_t) :
  erase e = erase e' -> wf_cell e -> wf_cell e'.
Proof.
  intros H. apply erase_fields in H as (Ht & Hr & Ha).
  unfold wf_cell, textLen, ansiSeqLen. now rewrite Ht, Hr, Ha.
Qed.

Lemma Forall_erase (P : TextTableEntry_t -> Prop) (a : list TextTableEntry_t) :
  (forall e e', erase e = erase e' -> P e -> P e') ->
  forall a', map erase a = map erase a' -> Forall P a -> Forall P a'.
Proof.
  intros HP. induction a as [|e a IH]; intros [|e' a'] Hmap Ha;
    try discriminate; constructor.
  - pose proof (f_equal (hd (erase e)) Hmap) as He. cbn [hd map] in He.
    apply (HP e e' He). now inversion Ha.
  - pose proof (f_equal (@tl _) Hmap) as Ht. cbn [tl map] in Ht.
    apply IH; [exact Ht | now inversion Ha].
Qed.

(** [TextTablePrint] keeps the invariant of the table. *)
Theorem print_keeps_invariant (t : TextTable_t) cb tabStyle posX columns
    (h : heap) (r : print_result) :
  wf_table t ->
  TextTablePrint (Some t) cb tabStyle posX columns h = Done r ->
  exists t', table_after r = Some t' /\ wf_table t'.
Proof.
  intros [Hn Hcells] H.
  destruct (print_table_after _ _ _ _ _ _ H) as (c' & -> & Hmap).
  exists (set_chain t c'). split; [reflexivity|]. split.
  - cbn [set_chain entries chain]. rewrite Hn.
    rewrite <- (length_map erase c'), Hmap. symmetry. apply length_map.
  - cbn [set_chain chain].
    eapply Forall_erase;
      [exact wf_cell_erase | symmetry; exact Hmap | exact Hcells].
Qed.

Lemma print_keeps_invariant_witness :
  (wf_table example_table /\
   TextTablePrint (Some example_table) (Some PrintLine)
                  TABSTYLE_REGULAR_HEAD_ON 0 2 example_heap = Done example_result) /\
  exists t', table_after example_result = Some t' /\ wf_table t'.
Proof.
  split; [split; [exact example_table_wf | reflexivity]|].
  apply (@print_keeps_invariant example_table (Some PrintLine)
           TABSTYLE_REGULAR_HEAD_ON 0 2 example_heap example_result);
    [exact example_table_wf | reflexivity].
Defined.

(** ** TextTablePrint: the column widths are the column maxima *)

Lemma array_set_middle (x c : T_Column) (done todo : list T_Column) :
  array_set (length done) x (done ++ c :: todo) = done ++ x :: todo.
Proof.
  induction done as [|d done IH]; [reflexivity|].
  simpl. now rewrite IH.
Qed.

Lemma array_get_middle (c : T_Column) (done todo : list T_Column) :
  array_get (done ++ c :: todo) (length done) = c.
Proof. unfold array_get. apply nth_middle. Qed.

(** The inner loop, started at column [length done]: it updates the
    columns from there on, one cell each. *)
Lemma metrics_columns_update (a : list TextTableEntry_t) :
  forall done todo r,
    length todo = length a ->
    metrics_columns (length a) (length done) (a ++ r) (done ++ todo)
    = Done (r, done ++ update_columns todo a).
Proof.
  induction a as [|e a IH]; intros done todo r Hlen.
  - destruct todo; [|discriminate]. reflexivity.
  - destruct todo as [|c todo]; [discriminate|]. injection Hlen as Hlen.
    cbn [length metrics_columns app].
    rewrite array_get_middle, array_set_middle.
    replace (S (length done)) with (length (done ++ [update_column c e]))
      by (rewrite length_app; simpl; lia).
    replace (done ++ update_column c e :: todo)
      with ((done ++ [update_column c e]) ++ todo)
      by (now rewrite <- app_assoc).
    rewrite IH by assumption. now rewrite <- app_assoc.
Qed.

Lemma metrics_columns_row (columns : nat) (a r : list TextTableEntry_t)
    (pColumn : list T_Column) :
  length a = columns -> length pColumn = columns ->
  metrics_columns columns 0 (a ++ r) pColumn = Done (r, update_columns pColumn a).
Proof.
  intros Ha Hp. subst columns.
  apply (metrics_columns_update a [] pColumn r Hp).
Qed.

Lemma update_columns_length (pColumn : list T_Column) :
  forall a, length (update_columns pColumn a) = length pColumn.
Proof.
  induction pColumn as [|c pc IH]; intros [|e a]; simpl; auto.
Qed.

Lemma update_columns_nth (pColumn : list T_Column) :
  forall a j,
    j < length a -> j < length pColumn ->
    nth j (update_columns pColumn a) (mkColumn 0 0)
    = update_column (nth j pColumn (mkColumn 0 0)) (nth j a zero_entry).
Proof.
  induction pColumn as [|c pc IH]; intros [|e a] [|j] Ha Hp;
    simpl in *; try lia; trivial.
  apply IH; lia.
Qed.

(** The widths after [n] rows: in every column the maximum of what was
    there and of the cells of the column. *)
Lemma metrics_rows_max (columns n : nat) :
  forall a r pColumn,
    length a = n * columns -> length pColumn = columns ->
    exists pColumn',
      metrics_rows columns n (a ++ r) pColumn = Done (r, pColumn') /\
      length pColumn' = columns /\
      forall j, j < columns ->
        col_rowMaxTextLen (array_get pColumn' j)
        = Nat.max (col_rowMaxTextLen (array_get pColumn j))
                  (list_max (map rowMaxTextLen (column_cells n columns j (a ++ r)))) /\
        col_ansiSeqMaxLen (array_get pColumn' j)
        = Nat.max (col_ansiSeqMaxLen (array_get pColumn j))
                  (list_max (map ansiSeqLen (column_cells n columns j (a ++ r)))).
Proof.
  induction n as [|n IH]; intros a r pColumn Ha Hp.
  - destruct a; [|discriminate]. exists pColumn.
    repeat split; trivial; cbn -[Nat.max]; lia.
  - destruct (split_rows columns n a Ha) as (a1 & a2 & -> & H1 & H2).
    rewrite <- app_assoc. cbn [metrics_rows].
    rewrite metrics_columns_row by assumption. cbn [bind].
    destruct (IH a2 r (update_columns pColumn a1) H2)
      as (pc' & Hrun & Hlen & Hmax);
      [now rewrite update_columns_length|].
    exists pc'. split; [exact Hrun|]. split; [exact Hlen|].
    intros j Hj. destruct (Hmax j Hj) as [Hw Hs].
    cbn [column_cells map].
    replace (skipn columns (a1 ++ a2 ++ r)) with (a2 ++ r)
      by (rewrite skipn_app, H1, Nat.sub_diag; rewrite <- H1, skipn_all;
          reflexivity).
    rewrite app_nth1 by lia.
    rewrite Hw, Hs. unfold array_get.
    rewrite update_columns_nth by lia.
    unfold update_column. cbn [col_rowMaxTextLen col_ansiSeqMaxLen].
    rewrite !ltb_max. unfold list_max. cbn -[Nat.max]. split; lia.
Qed.

(** X12. The width of a column is the largest width among its cells, and the
    room for style prefixes the longest prefix among them. *)
Theorem column_metrics_max (t : TextTable_t) (columns j : nat) :
  entries t / columns * columns <= length (chain t) ->
  j < columns ->
  col_rowMaxTextLen (array_get (column_metrics t columns) j)
  = list_max (map rowMaxTextLen
                  (column_cells (entries t / columns) columns j (chain t))) /\
  col_ansiSeqMaxLen (array_get (column_metrics t columns) j)
  = list_max (map ansiSeqLen
                  (column_cells (entries t / columns) columns j (chain t))).
Proof.
  intros Hlen Hj. unfold column_metrics.
  destruct (split_chain (entries t / columns * columns) (chain t))
    as [Hs|(a & r & Hc & Ha)]; [lia|].
  rewrite Hc.
  destruct (@metrics_rows_max columns (entries t / columns) a r
              (repeat (mkColumn 0 0) columns) Ha (repeat_length _ _))
    as (pc' & -> & _ & Hmax).
  destruct (Hmax j Hj) as [-> ->].
  unfold array_get. rewrite nth_repeat. cbn -[Nat.max]. split; lia.
Qed.

Lemma column_metrics_max_witness :
  (entries example_table / 2 * 2 <= length (chain example_table) /\ 1 < 2) /\
  col_rowMaxTextLen (array_get (column_metrics example_table 2) 1)
  = list_max (map rowMaxTextLen
                  (column_cells (entries example_table / 2) 2 1
                                (chain example_table))) /\
  col_ansiSeqMaxLen (array_get (column_metrics example_table 2) 1)
  = list_max (map ansiSeqLen
                  (column_cells (entries example_table / 2) 2 1
                                (chain example_table))).
Proof.
  split; [split; [simpl; lia | lia]|].
  apply (@column_metrics_max example_table 2 1); [simpl; lia | lia].
Defined.

(** ** TextTablePrint: the row buffer is large enough *)

Lemma calc_rowLen_sum (t : TextTable_t) (posX : nat) (pColumn : list T_Column) :
  calc_rowLen t posX pColumn = 2 + list_sum (map (col_bytes t) pColumn) + posX.
Proof.
  unfold calc_rowLen.
  match goal with
  | |- fold_left ?F _ _ + _ = _ =>
      assert (H : forall acc,
                 fold_left F pColumn acc
                 = acc + list_sum (map (col_bytes t) pColumn))
  end.
  { induction pColumn as [|c pc IH]; intros acc; [simpl; lia|].
    cbn [fold_left map list_sum fold_right]. rewrite IH.
    fold (list_sum (map (col_bytes t) pc)). unfold col_bytes at 2.
    destruct (col_ansiSeqMaxLen c =? 0); lia. }
  rewrite H. lia.
Qed.

Lemma write_column_row_length (n : nat) :
  forall k e rowBuf,
    length (snd (write_column_row n k e rowBuf))
    = length rowBuf + n
      + (if (k =? 0) && (0 <? n) then ansiSeqLen e else 0) /\
    ansiSeq (fst (write_column_row n k e rowBuf)) = ansiSeq e.
Proof.
  induction n as [|n IH]; intros k e rowBuf.
  - cbn [write_column_row fst snd]. rewrite andb_false_r. split; [lia|reflexivity].
  - cbn [write_column_row].
    assert (Hk : forall e' c,
               ansiSeq e' = ansiSeq e ->
               length (snd (write_column_row n (S k) e'
                              ((if k =? 0
                                then match ansiSeq e with
                                     | Some a => rowBuf ++ a
                                     | None => rowBuf
                                     end
                                else rowBuf) ++ [c])))
               = length rowBuf + S n
                 + (if (k =? 0) && (0 <? S n) then ansiSeqLen e else 0) /\
               ansiSeq (fst (write_column_row n (S k) e'
                              ((if k =? 0
                                then match ansiSeq e with
                                     | Some a => rowBuf ++ a
                                     | None => rowBuf
                                     end
                                else rowBuf) ++ [c]))) = ansiSeq e).
    { intros e' c He. destruct (IH (S k) e'
        ((if k =? 0
          then match ansiSeq e with
               | Some a => rowBuf ++ a
               | None => rowBuf
               end
          else rowBuf) ++ [c])) as [-> ->].
      split; [|exact He].
      rewrite length_app. cbn [Nat.eqb andb length]. unfold ansiSeqLen.
      destruct (k =? 0); [destruct (ansiSeq e) as [a|]|];
        rewrite ?length_app; cbn [andb Nat.ltb Nat.leb]; lia. }
    destruct (writeTxt e) as [[|c rest]|]; try (apply Hk; reflexivity).
    destruct (is_NUL c || is_LF c); apply Hk; reflexivity.
Qed.

Lemma skip_newline_ansiSeq (e : TextTableEntry_t) (newLine : bool) :
  ansiSeq (fst (skip_newline e newLine)) = ansiSeq e.
Proof.
  unfold skip_newline. destruct (writeTxt e) as [[|c rest]|]; trivial.
  now destruct (is_LF c).
Qed.

Lemma cell_fits_erase (e e' : TextTableEntry_t) (c : T_Column) :
  erase e = erase e' -> cell_fits e c -> cell_fits e' c.
Proof.
  intros H. apply erase_fields in H as (_ & _ & Ha).
  unfold cell_fits. now rewrite Ha.
Qed.

Lemma Forall2_erase (P : TextTableEntry_t -> T_Column -> Prop) :
  (forall e e' c, erase e = erase e' -> P e c -> P e' c) ->
  forall a a' l, map erase a = map erase a' -> Forall2 P a l -> Forall2 P a' l.
Proof.
  intros HP. induction a as [|e a IH]; intros [|e' a'] l Hmap Ha;
    try discriminate; inversion Ha; subst; constructor.
  - pose proof (f_equal (hd (erase e)) Hmap) as He. cbn [hd map] in He.
    now apply (HP e e' _ He).
  - pose proof (f_equal (@tl _) Hmap) as Ht. cbn [tl map] in Ht.
    now apply IH.
Qed.

Lemma skipn_head (j : nat) :
  forall (l : list T_Column) c cs,
    skipn j l = c :: cs -> array_get l j = c /\ skipn (S j) l = cs.
Proof.
  induction j as [|j IH]; intros [|x l] c cs H; try discriminate.
  - injection H as -> ->. now split.
  - apply (IH l c cs H).
Qed.

Section Safety.

Variable table : TextTable_t.
Variable tabStyle : TabStyle_e.
Variables posX columns : nat.
Variable pColumn : list T_Column.

Lemma open_column_length (i j : nat) :
  length (open_column table tabStyle i j)
  <= spacesBetweenBorder table + (if j =? 0 then 1 else 0).
Proof.
  unfold open_column, spaces.
  destruct (j =? 0); [|rewrite repeat_length; lia].
  destruct (i =? 0), tabStyle; cbn [is_compact length];
    rewrite ?repeat_length; lia.
Qed.

Lemma close_column_length (j : nat) :
  length (close_column table tabStyle columns j)
  <= spacesBetweenBorder table + (if j <? columns - 1 then 1 else 0).
Proof.
  unfold close_column, spaces. rewrite length_app, repeat_length.
  destruct (is_compact tabStyle), (j <? columns - 1); simpl; lia.
Qed.

Lemma close_row_length (i : nat) :
  length (close_row table tabStyle i) <= 1.
Proof.
  unfold close_row. destruct (i =? 0), tabStyle; simpl; lia.
Qed.

(** What a pass over the cells from column [j] on writes stays within the
    bytes set aside for those columns; the last column has no separator,
    which leaves a byte. *)
Lemma columns_loop_length (i : nat) (f : bool) (a : list TextTableEntry_t) :
  forall j rowBuf newLine es r r' rowBuf' newLine',
    j + length a = columns ->
    Forall2 cell_fits a (skipn j pColumn) ->
    columns_loop table tabStyle columns pColumn i f (length a) j (a ++ r)
                 rowBuf newLine
    = Done (es, r', rowBuf', newLine') ->
    length rowBuf' + (if length a =? 0 then 0 else 1)
    <= length rowBuf + (if j =? 0 then 1 else 0)
       + list_sum (map (col_bytes table) (skipn j pColumn)).
Proof.
  induction a as [|e a IH];
    intros j rowBuf newLine es r r' rowBuf' newLine' Hj Hfit H.
  - injection H as _ _ <- _. simpl. lia.
  - cbn [length columns_loop app] in H.
    inversion Hfit as [|e0 c a0 cs Hc Hcs E1 E2]. subst e0 a0.
    symmetry in E2. destruct (skipn_head _ _ E2) as [Hget Hskip].
    rewrite Hget in H.
    set (e0 := if f then set_writeTxt e (text e) else e) in H.
    assert (He0 : ansiSeq e0 = ansiSeq e) by (subst e0; now destruct f).
    pose proof (write_column_row_length (col_rowMaxTextLen c) 0 e0
                  (rowBuf ++ open_column table tabStyle i j)) as [Hw Ha].
    destruct (write_column_row _ _ e0 _) as [e1 rb1]. cbn [fst snd] in Hw, Ha.
    pose proof (skip_newline_ansiSeq e1 newLine) as Hs.
    destruct (skip_newline e1 newLine) as [e2 nl1]. cbn [fst] in Hs.
    destruct (columns_loop _ _ _ _ _ _ _ _ _ _ _)
      as [[[[es' q] rb'] nl']| |] eqn:Hrun; cbn [bind] in H; try discriminate.
    injection H as _ _ <- _.
    simpl in Hj.
    assert (Hj' : S j + length a = columns) by lia.
    assert (Hcs' : Forall2 cell_fits a (skipn (S j) pColumn))
      by (rewrite Hskip; exact Hcs).
    specialize (IH (S j) _ _ _ _ _ _ _ Hj' Hcs' Hrun).
    rewrite Hskip in IH.
    rewrite !length_app in IH. rewrite Hw, length_app in IH.
    pose proof (open_column_length i j) as Ho.
    pose proof (close_column_length j) as Hcl.
    assert (Hsep : (j <? columns - 1) = negb (length a =? 0)).
    { destruct (Nat.eqb_spec (length a) 0) as [E|E]; cbn [negb].
      - apply Nat.ltb_ge. lia.
      - apply Nat.ltb_lt. lia. }
    rewrite Hsep in Hcl.
    assert (Hcell : (if (0 =? 0) && (0 <? col_rowMaxTextLen c)
                     then ansiSeqLen e0 else 0)
                    + length (ansi_end e1) + col_rowMaxTextLen c
                    + spacesBetweenBorder table * 2 + 1
                    <= col_bytes table c).
    { unfold col_bytes, ansi_end, ansiSeqLen, cell_fits in *.
      rewrite Ha, He0.
      destruct (ansiSeq e) as [s|].
      - destruct Hc as [Hpos Hle].
        destruct (Nat.eqb_spec (col_ansiSeqMaxLen c) 0) as [E|_]; [lia|].
        destruct ((0 =? 0) && (0 <? col_rowMaxTextLen c)); lia.
      - destruct ((0 =? 0) && (0 <? col_rowMaxTextLen c));
          destruct (col_ansiSeqMaxLen c =? 0); simpl; lia. }
    cbn [length map list_sum fold_right Nat.eqb].
    fold (list_sum (map (col_bytes table) cs)).
    destruct (length a =? 0), (j =? 0); cbn [negb Nat.eqb] in *; lia.
Qed.

Lemma columns_loop_row_length (i : nat) (f : bool) (a : list TextTableEntry_t)
    (es r : list TextTableEntry_t) (rowBuf' : cstring) (newLine' : bool) :
  length a = columns ->
  Forall2 cell_fits a pColumn ->
  columns_loop table tabStyle columns pColumn i f columns 0 (a ++ r) [] false
  = Done (es, r, rowBuf', newLine') ->
  length rowBuf' + (if columns =? 0 then 0 else 1)
  <= 1 + list_sum (map (col_bytes table) pColumn).
Proof.
  intros Hlen Hfit H.
  assert (Hj : 0 + length a = columns) by (simpl; exact Hlen).
  assert (Hfit0 : Forall2 cell_fits a (skipn 0 pColumn)) by exact Hfit.
  assert (H' : columns_loop table tabStyle columns pColumn i f (length a) 0
                            (a ++ r) [] false
               = Done (es, r, rowBuf', newLine')) by (rewrite Hlen; exact H).
  pose proof (@columns_loop_length i f a 0 [] false es r r rowBuf' newLine'
                Hj Hfit0 H') as Hb.
  rewrite Hlen in Hb. cbn [skipn length Nat.eqb] in Hb. lia.
Qed.

Hypothesis columns_pos : columns <> 0.
Hypothesis pColumn_length : length pColumn = columns.

(** The loop of a row whose cells fit the columns never writes past the
    end of the row buffer. *)
Lemma do_while_defined (fuel : nat) :
  forall i f ft a r,
    length a = columns ->
    Forall2 cell_fits a pColumn ->
    do_while table tabStyle posX columns pColumn fuel i f ft (a ++ r)
    <> Undefined.
Proof.
  induction fuel as [|fuel IH]; intros i f ft a r Hlen Hfit; [discriminate|].
  destruct (@columns_loop_spec table tabStyle columns pColumn i f columns 0 a []
              false Hlen)
    as (es & rb & nl & Hrun & Hes & Her & _).
  cbn [do_while]. rewrite Hrun. cbn [bind].
  pose proof (@columns_loop_row_length i f a es r rb nl Hlen Hfit (Hrun r)) as Hb.
  destruct (Nat.eqb_spec columns 0) as [E|_]; [contradiction|].
  pose proof (close_row_length i) as Hc.
  destruct (Nat.ltb_spec
              (posX + length (rb ++ close_row table tabStyle i))
              (calc_rowLen table posX pColumn)) as [_|Hge].
  - destruct nl; [|discriminate].
    assert (Hfit' : Forall2 cell_fits es pColumn).
    { eapply Forall2_erase; [exact cell_fits_erase | symmetry; exact Her | exact Hfit]. }
    specialize (IH i false false es r Hes Hfit').
    destruct (do_while _ _ _ _ _ _ _ _ _ _) as [[[ls es'] q]| |];
      cbn [bind]; congruence.
  - rewrite calc_rowLen_sum, length_app in Hge. lia.
Qed.

Variable rows : nat.


End Safety.

(** ** TextTablePrint: a table without empty style prefixes is printed *)

Lemma update_columns_covers (pColumn : list T_Column) :
  forall a,
    length a = length pColumn ->
    Forall2 covers a (update_columns pColumn a) /\
    Forall2 column_le pColumn (update_columns pColumn a).
Proof.
  induction pColumn as [|c pc IH]; intros [|e a] Hlen; try discriminate.
  - split; constructor.
  - injection Hlen as Hlen. destruct (IH a Hlen) as [H1 H2].
    cbn [update_columns]. split; constructor; trivial.
    + unfold covers, update_column. cbn [col_rowMaxTextLen col_ansiSeqMaxLen].
      rewrite !ltb_max. lia.
    + unfold column_le, update_column. cbn [col_rowMaxTextLen col_ansiSeqMaxLen].
      rewrite !ltb_max. lia.
Qed.

Lemma covers_le (a : list TextTableEntry_t) :
  forall l l', Forall2 covers a l -> Forall2 column_le l l' -> Forall2 covers a l'.
Proof.
  induction a as [|e a IH]; intros l l' H1 H2; inversion H1; subst;
    inversion H2; subst; constructor.
  - unfold covers, column_le in *. lia.
  - eapply IH; eassumption.
Qed.

Lemma column_le_trans (l : list T_Column) :
  forall l' l'', Forall2 column_le l l' -> Forall2 column_le l' l'' ->
                 Forall2 column_le l l''.
Proof.
  induction l as [|c l IH]; intros l' l'' H1 H2; inversion H1; subst;
    inversion H2; subst; constructor.
  - unfold column_le in *. lia.
  - eapply IH; eassumption.
Qed.

Lemma column_le_refl (l : list T_Column) : Forall2 column_le l l.
Proof.
  induction l; constructor; trivial. unfold column_le. lia.
Qed.

Lemma row_of_app (columns k : nat) (a1 a2 : list TextTableEntry_t) :
  length a1 = columns ->
  firstn columns (skipn (S k * columns) (a1 ++ a2))
  = firstn columns (skipn (k * columns) a2).
Proof.
  intros H1. replace (S k * columns) with (k * columns + columns) by (simpl; lia).
  rewrite <- skipn_skipn. do 2 f_equal.
  rewrite skipn_app, H1, Nat.sub_diag. rewrite <- H1, skipn_all. reflexivity.
Qed.

(** The widths the calculation ends with cover every cell of every row. *)
Lemma metrics_rows_covers (columns n : nat) :
  forall a r pColumn,
    length a = n * columns -> length pColumn = columns ->
    exists pColumn',
      metrics_rows columns n (a ++ r) pColumn = Done (r, pColumn') /\
      length pColumn' = columns /\
      Forall2 column_le pColumn pColumn' /\
      forall k, k < n ->
        Forall2 covers (firstn columns (skipn (k * columns) a)) pColumn'.
Proof.
  induction n as [|n IH]; intros a r pColumn Ha Hp.
  - destruct a; [|discriminate]. exists pColumn.
    repeat split; trivial; [apply column_le_refl | intros k Hk; lia].
  - destruct (split_rows columns n a Ha) as (a1 & a2 & -> & H1 & H2).
    rewrite <- app_assoc. cbn [metrics_rows].
    rewrite metrics_columns_row by assumption. cbn [bind].
    destruct (update_columns_covers pColumn a1) as [C1 L1]; [congruence|].
    destruct (IH a2 r (update_columns pColumn a1) H2)
      as (pc' & Hrun & Hlen & Hle & Hcov);
      [now rewrite update_columns_length|].
    exists pc'. split; [exact Hrun|]. split; [exact Hlen|].
    split; [eapply column_le_trans; eassumption|].
    intros [|k] Hk.
    + cbn [Nat.mul skipn].
      rewrite firstn_app, H1, Nat.sub_diag, firstn_O, app_nil_r.
      rewrite <- H1, firstn_all. eapply covers_le; eassumption.
    + rewrite row_of_app by assumption. apply Hcov. lia.
Qed.

Lemma covers_fits (a : list TextTableEntry_t) :
  forall l, Forall2 covers a l -> Forall no_empty_prefix a -> Forall2 cell_fits a l.
Proof.
  induction a as [|e a IH]; intros l H1 H2;
    inversion H1 as [|? c ? cs Hc Hcs]; subst;
    inversion H2 as [|? ? Hne Hrest]; subst; constructor; [|now apply IH].
  unfold covers, cell_fits, no_empty_prefix, ansiSeqLen in *.
  destruct (ansiSeq e) as [[|x s]|]; [now contradiction Hne | | exact I].
  simpl length in *. lia.
Qed.

Lemma Forall_firstn (P : TextTableEntry_t -> Prop) (n : nat) :
  forall l, Forall P l -> Forall P (firstn n l).
Proof.
  induction n as [|n IH]; intros [|e l] H; cbn [firstn]; trivial.
  inversion H; subst. constructor; auto.
Qed.

Lemma Forall_skipn (P : TextTableEntry_t -> Prop) (n : nat) :
  forall l, Forall P l -> Forall P (skipn n l).
Proof.
  induction n as [|n IH]; intros [|e l] H; cbn [skipn]; trivial.
  inversion H; subst. auto.
Qed.


Lemma example_table_prefixes : Forall no_empty_prefix (chain example_table).
Proof. repeat constructor; discriminate. Qed.


(** ** TextTablePrint: what a line shows *)

Lemma split_newline_step (p : cstring) :
  split_newline p
  = first_row p :: (if has_newline p then split_newline (after_newline p) else []).
Proof.
  induction p as [|c p IH]; [reflexivity|].
  cbn [split_newline first_row after_newline has_newline existsb].
  destruct (is_LF c); cbn [orb]; [reflexivity|].
  rewrite IH. reflexivity.
Qed.

Lemma after_newline_none (p : cstring) :
  has_newline p = false -> after_newline p = [].
Proof.
  induction p as [|c p IH]; [reflexivity|].
  cbn [has_newline existsb after_newline]. destruct (is_LF c); [discriminate|].
  exact IH.
Qed.

(** Row [k] of a text stands at the front of the text behind [k]
    newlines; there is a further row exactly when a newline follows. *)
Lemma nth_split_newline (k : nat) :
  forall p,
    nth k (split_newline p) [] = first_row (Nat.iter k after_newline p) /\
    has_newline (Nat.iter k after_newline p)
    = (S k <? length (split_newline p)).
Proof.
  induction k as [|k IH]; intros p.
  - change (Nat.iter 0 after_newline p) with p.
    rewrite split_newline_step. cbn [nth length].
    split; [reflexivity|].
    destruct (has_newline p); [|reflexivity].
    rewrite split_newline_step. reflexivity.
  - assert (E : Nat.iter (S k) after_newline p
                = Nat.iter k after_newline (after_newline p)).
    { clear. induction k as [|k IH]; [reflexivity|].
      change (Nat.iter (S (S k)) after_newline p)
        with (after_newline (Nat.iter (S k) after_newline p)).
      rewrite IH. reflexivity. }
    rewrite E. rewrite (split_newline_step p). cbn [nth length].
    destruct (has_newline p) eqn:Hn.
    + destruct (IH (after_newline p)) as [-> ->]. split; reflexivity.
    + rewrite (after_newline_none _ Hn).
      assert (Z : Nat.iter k after_newline [] = []).
      { clear. induction k as [|k IH]; [reflexivity|].
        change (Nat.iter (S k) after_newline [])
          with (after_newline (Nat.iter k after_newline [])).
        now rewrite IH. }
      rewrite Z. destruct k; split; reflexivity.
Qed.

Lemma has_NUL_after (p : cstring) :
  has_NUL p = false -> has_NUL (after_newline p) = false.
Proof.
  induction p as [|c p IH]; [reflexivity|].
  cbn [has_NUL existsb after_newline]. intros H.
  apply orb_false_iff in H as [_ H]. destruct (is_LF c); auto.
Qed.

Lemma has_NUL_iter (k : nat) (p : cstring) :
  has_NUL p = false -> has_NUL (Nat.iter k after_newline p) = false.
Proof.
  intros H. induction k as [|k IH]; [exact H|].
  change (Nat.iter (S k) after_newline p)
    with (after_newline (Nat.iter k after_newline p)).
  now apply has_NUL_after.
Qed.

Lemma set_writeTxt_same (e : TextTableEntry_t) (w : option cstring) :
  writeTxt e = w -> set_writeTxt e w = e.
Proof. destruct e. cbn. now intros ->. Qed.

(** Where the write pointer stands at the end of the text, at a NUL or at
    a newline, or is NULL, only blanks are written. *)
Lemma write_column_row_pad (n : nat) :
  forall k e rowBuf,
    k <> 0 ->
    match writeTxt e with
    | Some (c :: _) => is_NUL c || is_LF c = true
    | _ => True
    end ->
    write_column_row n k e rowBuf = (e, rowBuf ++ repeat SPACE n).
Proof.
  induction n as [|n IH]; intros k e rowBuf Hk Hstop; cbn [write_column_row repeat].
  - now rewrite app_nil_r.
  - destruct (Nat.eqb_spec k 0) as [|_]; [contradiction|].
    destruct (writeTxt e) as [[|c rest]|] eqn:Hw;
      try rewrite Hstop;
      rewrite IH by (try discriminate; rewrite Hw; trivial);
      now rewrite <- app_assoc.
Qed.

(** From the second character of a column on, a row of the text that fits
    the column is written and filled up with blanks; the write pointer ends
    behind the row. *)
Lemma write_column_row_text (p : cstring) :
  forall n k e rowBuf,
    k <> 0 ->
    writeTxt e = Some p ->
    has_NUL p = false ->
    length (first_row p) <= n ->
    write_column_row n k e rowBuf
    = (set_writeTxt e (Some (skipn (length (first_row p)) p)),
       rowBuf ++ first_row p ++ repeat SPACE (n - length (first_row p))).
Proof.
  induction p as [|c p IH]; intros n k e rowBuf Hk Hw Hnul Hlen.
  - cbn [first_row length skipn app]. rewrite Nat.sub_0_r.
    rewrite set_writeTxt_same by assumption.
    apply write_column_row_pad; [assumption | now rewrite Hw].
  - cbn [first_row] in *. cbn [has_NUL existsb] in Hnul.
    apply orb_false_iff in Hnul as [Hc Hnul].
    destruct (is_LF c) eqn:Hlf.
    + cbn [length skipn app]. rewrite Nat.sub_0_r.
      rewrite set_writeTxt_same by assumption.
      apply write_column_row_pad; [assumption|].
      rewrite Hw, Hlf. apply orb_true_r.
    + cbn [length] in Hlen. destruct n as [|n]; [lia|].
      cbn [write_column_row].
      destruct (Nat.eqb_spec k 0) as [|_]; [contradiction|].
      rewrite Hw, Hc, Hlf. cbn [orb].
      rewrite (IH n (S k) (set_writeTxt e (Some p)) (rowBuf ++ [c]));
        [|discriminate | reflexivity | assumption | lia].
      cbn [length skipn Nat.sub]. f_equal.
      now rewrite <- app_assoc.
Qed.

Lemma write_column_row_from_0 (n : nat) (e : TextTableEntry_t) (rowBuf : cstring) :
  write_column_row n 0 e rowBuf
  = write_column_row n 1 e (rowBuf ++ (if 0 <? n then ansi_start e else [])).
Proof.
  assert (Hind : forall m k k' e' b, k <> 0 -> k' <> 0 ->
             write_column_row m k e' b = write_column_row m k' e' b).
  { induction m as [|m IH]; intros k k' e' b Hk Hk'; [reflexivity|].
    cbn [write_column_row].
    destruct (Nat.eqb_spec k 0) as [|_]; [contradiction|].
    destruct (Nat.eqb_spec k' 0) as [|_]; [contradiction|].
    destruct (writeTxt e') as [[|c rest]|]; try (apply IH; discriminate).
    destruct (is_NUL c || is_LF c); apply IH; discriminate. }
  destruct n as [|n]; [cbn; now rewrite app_nil_r|].
  cbn [write_column_row Nat.eqb Nat.ltb Nat.leb]. unfold ansi_start.
  assert (Hb : match ansiSeq e with Some a => rowBuf ++ a | None => rowBuf end
               = rowBuf ++ match ansiSeq e with Some a => a | None => [] end).
  { destruct (ansiSeq e); [reflexivity | now rewrite app_nil_r]. }
  rewrite Hb.
  destruct (writeTxt e) as [[|c rest]|]; try (apply Hind; discriminate).
  destruct (is_NUL c || is_LF c); apply Hind; discriminate.
Qed.

Lemma skipn_first_row (p : cstring) :
  (has_newline p = true ->
   exists c, is_LF c = true /\
             skipn (length (first_row p)) p = c :: after_newline p) /\
  (has_newline p = false -> skipn (length (first_row p)) p = []).
Proof.
  induction p as [|c p [IH1 IH2]].
  - split; [discriminate | reflexivity].
  - cbn [has_newline existsb first_row after_newline].
    destruct (is_LF c) eqn:Hc; cbn [orb length skipn].
    + split; [|discriminate]. intros _. now exists c.
    + split; assumption.
Qed.

Lemma cell_row_no_text (e : TextTableEntry_t) (k : nat) :
  text e = None -> cell_row e k = [] /\ (S k <? length (cell_rows e)) = false.
Proof.
  intros H. unfold cell_row, cell_rows, cell_text. rewrite H.
  cbn [split_newline length]. split; [|reflexivity].
  destruct k as [|[|k]]; reflexivity.
Qed.

(** One cell in one pass: behind [k] rows of its text the cell writes its
    box for row [k], and reports a newline when it has a further row. *)
Lemma cell_pass (e : TextTableEntry_t) (c : T_Column) (k : nat)
    (rowBuf : cstring) (newLine : bool) :
  cell_shown e c ->
  exists e1 rb,
    write_column_row (col_rowMaxTextLen c) 0 (cell_at e k) rowBuf = (e1, rb) /\
    rb ++ ansi_end e1 = rowBuf ++ cell_box e (col_rowMaxTextLen c) k /\
    skip_newline e1 newLine
    = (cell_at e (S k), newLine || (S k <? length (cell_rows e))).
Proof.
  intros [Hnul Hfit]. rewrite write_column_row_from_0.
  change (ansi_start (cell_at e k)) with (ansi_start e).
  unfold cell_box. set (w := col_rowMaxTextLen c) in *.
  destruct (text e) as [s|] eqn:Ht.
  - set (p := Nat.iter k after_newline s).
    assert (Hw : writeTxt (cell_at e k) = Some p)
      by (unfold cell_at; cbn; now rewrite Ht).
    assert (Hrow : cell_row e k = first_row p /\
                   has_newline p = (S k <? length (cell_rows e))).
    { unfold cell_row, cell_rows, cell_text. rewrite Ht.
      apply nth_split_newline. }
    destruct Hrow as [Hrow Hnl].
    assert (Hp : has_NUL p = false).
    { apply has_NUL_iter. unfold cell_text in Hnul. now rewrite Ht in Hnul. }
    assert (Hlen : length (first_row p) <= w) by (rewrite <- Hrow; apply Hfit).
    rewrite (@write_column_row_text p w 1 (cell_at e k) _
               (Nat.neq_succ_0 0) Hw Hp Hlen).
    eexists; eexists. split; [reflexivity|]. split.
    + rewrite Hrow, <- !app_assoc. reflexivity.
    + rewrite <- Hnl. unfold skip_newline. cbn [set_writeTxt writeTxt].
      assert (Hnext : cell_at e (S k)
                      = set_writeTxt (cell_at e k) (Some (after_newline p))).
      { unfold cell_at, set_writeTxt. cbn. now rewrite Ht. }
      destruct (skipn_first_row p) as [H1 H2].
      destruct (has_newline p) eqn:Hn.
      * destruct (H1 eq_refl) as (c' & Hc' & ->). rewrite Hc', orb_true_r.
        now rewrite Hnext.
      * rewrite (H2 eq_refl), orb_false_r, Hnext.
        now rewrite (after_newline_none _ Hn).
  - destruct (cell_row_no_text e k Ht) as [-> ->].
    assert (Hw : writeTxt (cell_at e k) = None)
      by (unfold cell_at; cbn; now rewrite Ht).
    rewrite write_column_row_pad; [|discriminate | now rewrite Hw].
    eexists; eexists. split; [reflexivity|]. split.
    + cbn [length app]. rewrite Nat.sub_0_r, <- !app_assoc. reflexivity.
    + unfold skip_newline. rewrite Hw, orb_false_r. f_equal.
      unfold cell_at. now rewrite Ht.
Qed.

Lemma ltb_max_orb (x a b : nat) :
  (x <? Nat.max a b) = (x <? a) || (x <? b).
Proof.
  destruct (Nat.ltb_spec x a), (Nat.ltb_spec x b), (Nat.ltb_spec x (Nat.max a b));
    cbn; trivial; lia.
Qed.

Section Shown.

Variable table : TextTable_t.
Variable tabStyle : TabStyle_e.
Variables posX columns : nat.
Variable pColumn : list T_Column.

(** One pass over the cells of a row that stand behind [k] rows of their
    texts: it writes their boxes for row [k], leaves them behind [k + 1]
    rows, and reports a newline when the row of the table is higher than
    [k + 1]. *)
Lemma columns_loop_pass (i k : nat) (a : list TextTableEntry_t) :
  forall j r rowBuf newLine,
    Forall2 cell_shown a (skipn j pColumn) ->
    columns_loop table tabStyle columns pColumn i false (length a) j
                 (map (fun e => cell_at e k) a ++ r) rowBuf newLine
    = Done (map (fun e => cell_at e (S k)) a, r,
            rowBuf ++ row_boxes table tabStyle columns pColumn i k j a,
            newLine || (S k <? row_height a)).
Proof.
  induction a as [|e a IH]; intros j r rowBuf newLine Hfit.
  - cbn. now rewrite app_nil_r, orb_false_r.
  - inversion Hfit as [|? c ? cs Hc Hcs E1 E2]. subst.
    symmetry in E2. destruct (skipn_head _ _ E2) as [Hget Hskip].
    cbn [length map app columns_loop row_boxes]. rewrite Hget.
    destruct (cell_pass k (rowBuf ++ open_column table tabStyle i j) newLine Hc)
      as (e1 & rb & -> & Hbox & ->).
    rewrite Hbox, IH by (rewrite Hskip; exact Hcs). cbn [bind].
    unfold row_height. cbn [map list_max fold_right].
    fold (list_max (map (fun e0 => length (cell_rows e0)) a)).
    rewrite ltb_max_orb, orb_assoc, <- !app_assoc. reflexivity.
Qed.

(** The first pass over a row starts every cell at the front of its
    text. *)
Lemma columns_loop_reset (i : nat) (a : list TextTableEntry_t) :
  forall j r rowBuf newLine,
    columns_loop table tabStyle columns pColumn i true (length a) j (a ++ r)
                 rowBuf newLine
    = columns_loop table tabStyle columns pColumn i false (length a) j
                   (map (fun e => cell_at e 0) a ++ r) rowBuf newLine.
Proof.
  induction a as [|e a IH]; intros j r rowBuf newLine; [reflexivity|].
  cbn [length map app columns_loop].
  assert (E : set_writeTxt e (text e) = cell_at e 0).
  { unfold cell_at. now destruct (text e). }
  rewrite E.
  destruct (write_column_row _ _ _ _) as [e1 rb1].
  destruct (skip_newline e1 newLine) as [e2 nl1].
  now rewrite IH.
Qed.

Lemma do_while_reset (fuel i : nat) (ft : bool) (a r : list TextTableEntry_t) :
  length a = columns ->
  do_while table tabStyle posX columns pColumn fuel i true ft (a ++ r)
  = do_while table tabStyle posX columns pColumn fuel i false ft
             (map (fun e => cell_at e 0) a ++ r).
Proof.
  intros Hlen. destruct fuel as [|fuel]; [reflexivity|]. cbn [do_while].
  rewrite <- Hlen at 2 4. now rewrite columns_loop_reset.
Qed.

(** The loop of a row whose cells stand behind [k] rows of their texts
    hands over the lines [k], [k + 1], ... of the row, up to its height. *)
Lemma do_while_lines (i : nat) (a : list TextTableEntry_t) (fuel : nat) :
  forall k ft r ls es r',
    length a = columns ->
    Forall2 cell_shown a pColumn ->
    k < row_height a ->
    do_while table tabStyle posX columns pColumn fuel i false ft
             (map (fun e => cell_at e k) a ++ r)
    = Done (ls, es, r') ->
    ls = first_line table tabStyle posX pColumn ft
         ++ map (rendered_line table tabStyle posX columns pColumn i a)
                (seq k (row_height a - k)).
Proof.
  induction fuel as [|fuel IH]; intros k ft r ls es r' Hlen Hfit Hk H;
    [discriminate|].
  cbn [do_while] in H.
  assert (Hpass := @columns_loop_pass i k a 0 r [] false Hfit).
  rewrite Hlen in Hpass. rewrite Hpass in H. cbn [bind app orb] in H.
  destruct (_ <? calc_rowLen _ _ _); [|discriminate].
  destruct (Nat.ltb_spec (S k) (row_height a)) as [Hlt|Hge].
  - destruct (do_while _ _ _ _ _ _ _ _ _ _) as [[[ls' es'] q]| |] eqn:Hd;
      cbn [bind] in H; try discriminate.
    injection H as <- _ _.
    apply IH in Hd; [|assumption | assumption | lia]. rewrite Hd.
    cbn [first_line app]. rewrite <- app_assoc. f_equal.
    replace (row_height a - k) with (S (row_height a - S k)) by lia.
    reflexivity.
  - injection H as <- _ _. f_equal.
    replace (row_height a - k) with 1 by lia. reflexivity.
Qed.

End Shown.

Lemma split_newline_length (p : cstring) : 0 < length (split_newline p).
Proof. rewrite split_newline_step. simpl. lia. Qed.

Lemma row_height_pos (a : list TextTableEntry_t) : a <> [] -> 0 < row_height a.
Proof.
  destruct a as [|e a]; [contradiction|]. intros _.
  unfold row_height. cbn [map list_max fold_right].
  pose proof (split_newline_length (cell_text e)). unfold cell_rows. lia.
Qed.

Lemma nth_length_le_max (l : list cstring) (k : nat) :
  length (nth k l []) <= list_max (map (@length ascii) l).
Proof.
  revert k. induction l as [|x l IH]; intros [|k]; cbn -[Nat.max]; try lia.
  specialize (IH k). unfold list_max in IH. lia.
Qed.

(** A cell as [TextTableAdd] makes it, without NUL in its text, is shown
    in full by a column that covers it. *)
Lemma wf_cell_shown (e : TextTableEntry_t) (c : T_Column) :
  wf_cell e -> no_NUL e -> covers e c -> cell_shown e c.
Proof.
  intros (Hr & _) Hn [Hc _]. split; [exact Hn|]. intros k.
  unfold cell_row, cell_rows, cell_text in *.
  destruct (text e) as [s|].
  - rewrite calc_rowMaxTextLen_spec in Hr. unfold max_subrow_width in Hr.
    pose proof (nth_length_le_max (split_newline s) k). lia.
  - cbn [split_newline]. destruct k as [|[|k]]; simpl; lia.
Qed.

Lemma Forall2_shown (a : list TextTableEntry_t) :
  forall l,
    Forall wf_cell a -> Forall no_NUL a -> Forall2 covers a l ->
    Forall2 cell_shown a l.
Proof.
  induction a as [|e a IH]; intros l H1 H2 H3;
    inversion H3 as [|? c ? cs Hc Hcs]; subst; constructor;
    inversion H1; inversion H2; subst.
  - now apply wf_cell_shown.
  - now apply IH.
Qed.

Lemma row_within (columns rows i : nat) (a r : list TextTableEntry_t) :
  length a = rows * columns -> i < rows ->
  firstn columns (skipn (i * columns) (a ++ r))
  = firstn columns (skipn (i * columns) a) /\
  length (firstn columns (skipn (i * columns) a)) = columns.
Proof.
  intros Ha Hi.
  assert (Hle : i * columns + columns <= length a).
  { rewrite Ha. replace (i * columns + columns) with (S i * columns) by (simpl; lia).
    apply Nat.mul_le_mono_r. lia. }
  split.
  - rewrite skipn_app, firstn_app, length_skipn.
    replace (columns - (length a - i * columns)) with 0 by lia.
    now rewrite firstn_O, app_nil_r.
  - rewrite length_firstn, length_skipn. lia.
Qed.

(** Row [i] of a table whose cells are as [TextTableAdd] makes them, with
    no NUL in a text and no empty style prefix: its content lines are the
    lines 0, 1, ... of the row, as many as the cell with the most rows has
    rows; line [k] shows, column by column, row [k] of the text of the cell,
    left-aligned and filled up with blanks to the width of the column. *)
Theorem row_lines_rendered (t : TextTable_t) (tabStyle : TabStyle_e)
    (posX columns i : nat) :
  columns <> 0 ->
  wf_table t ->
  Forall no_NUL (chain t) ->
  Forall no_empty_prefix (chain t) ->
  i < entries t / columns ->
  row_lines t tabStyle posX columns i
  = map (rendered_line t tabStyle posX columns (column_metrics t columns) i
                       (row_cells t columns i))
        (seq 0 (row_height (row_cells t columns i))).
Proof.
  intros Hc [Hn Hwf] Hnul Hpre Hi.
  assert (Hlen : entries t / columns * columns <= length (chain t)).
  { rewrite <- Hn. rewrite Nat.mul_comm. now apply Nat.Div0.mul_div_le. }
  destruct (split_chain (entries t / columns * columns) (chain t))
    as [Hs|(A & R & Hch & HA)]; [lia|].
  destruct (@metrics_rows_covers columns (entries t / columns) A R
              (repeat (mkColumn 0 0) columns) HA (repeat_length _ _))
    as (pc & Hrun & Hpc & _ & Hcov).
  assert (Hcm : column_metrics t columns = pc).
  { unfold column_metrics. now rewrite Hch, Hrun. }
  unfold row_lines, row_lines_at, row_lines_with, row_cells. rewrite Hcm.
  destruct (@row_within columns (entries t / columns) i A R HA Hi) as [Hrow Hrl].
  set (p := skipn (i * columns) (chain t)).
  set (a := firstn columns p).
  assert (Ha : a = firstn columns (skipn (i * columns) A)).
  { subst a p. now rewrite Hch, Hrow. }
  assert (Hp : p = a ++ skipn columns p) by (subst a; now rewrite firstn_skipn).
  assert (Hal : length a = columns) by (rewrite Ha; exact Hrl).
  assert (Hall : forall P : TextTableEntry_t -> Prop,
             Forall P (chain t) -> Forall P a).
  { intros P HP. subst a p. now apply Forall_firstn, Forall_skipn. }
  assert (Hcovers : Forall2 covers a pc) by (rewrite Ha; now apply Hcov).
  assert (Hshown : Forall2 cell_shown a pc) by (apply Forall2_shown; auto).
  assert (Hfits : Forall2 cell_fits a pc) by (apply covers_fits; auto).
  rewrite Hp. rewrite row_fuel_app by assumption.
  destruct (@do_while_spec t tabStyle posX columns pc (S (row_measure true a))
              i true false a Hal) as (res & Hdw & _ & Hfuel).
  pose proof (@do_while_defined t tabStyle posX columns pc Hc Hpc
                (S (row_measure true a)) i true false a (skipn columns p)
                Hal Hfits) as Hdef.
  specialize (Hdw (skipn columns p)). rewrite Hdw in Hdef.
  assert (Hne : res <> OutOfFuel) by (apply Hfuel; lia).
  destruct res as [[ls es]| |]; cbn [frame bind] in Hdef, Hdw; try congruence.
  rewrite Hdw. rewrite do_while_reset in Hdw by assumption.
  apply do_while_lines in Hdw; trivial.
  - rewrite Hdw. cbn [first_line app]. now rewrite Nat.sub_0_r.
  - apply row_height_pos. intros E. rewrite E in Hal. simpl in Hal. congruence.
Qed.

Lemma example_table_no_NUL : Forall no_NUL (chain example_table).
Proof. repeat constructor. Qed.

Lemma row_lines_rendered_witness :
  (2 <> 0 /\ wf_table example_table /\ Forall no_NUL (chain example_table) /\
   Forall no_empty_prefix (chain example_table) /\
   1 < entries example_table / 2) /\
  row_lines example_table TABSTYLE_REGULAR_HEAD_ON 0 2 1
  = map (rendered_line example_table TABSTYLE_REGULAR_HEAD_ON 0 2
                       (column_metrics example_table 2) 1
                       (row_cells example_table 2 1))
        (seq 0 (row_height (row_cells example_table 2 1))).
Proof.
  assert (H1 : 1 < entries example_table / 2) by (simpl; lia).
  split.
  - split; [discriminate|]. split; [exact example_table_wf|].
    split; [exact example_table_no_NUL|].
    split; [exact example_table_prefixes | exact H1].
  - apply (@row_lines_rendered example_table TABSTYLE_REGULAR_HEAD_ON 0 2 1);
      [discriminate | exact example_table_wf | exact example_table_no_NUL
       | exact example_table_prefixes | exact H1].
Defined.

(** ** TextTablePrint: the whole output, and its alignment *)

(** The cells of a row of the table and the columns they are shown in. *)
Lemma row_cells_shown (t : TextTable_t) (columns i : nat) :
  columns <> 0 ->
  wf_table t ->
  Forall no_NUL (chain t) ->
  i < entries t / columns ->
  Forall2 cell_shown (row_cells t columns i) (column_metrics t columns) /\
  length (column_metrics t columns) = columns.
Proof.
  intros Hc [Hn Hwf] Hnul Hi.
  assert (Hlen : entries t / columns * columns <= length (chain t)).
  { rewrite <- Hn. rewrite Nat.mul_comm. now apply Nat.Div0.mul_div_le. }
  destruct (split_chain (entries t / columns * columns) (chain t))
    as [Hs|(A & R & Hch & HA)]; [lia|].
  destruct (@metrics_rows_covers columns (entries t / columns) A R
              (repeat (mkColumn 0 0) columns) HA (repeat_length _ _))
    as (pc & Hrun & Hpc & _ & Hcov).
  assert (Hcm : column_metrics t columns = pc).
  { unfold column_metrics. now rewrite Hch, Hrun. }
  rewrite Hcm. split; [|exact Hpc].
  destruct (@row_within columns (entries t / columns) i A R HA Hi) as [Hrow _].
  unfold row_cells.
  assert (Ha : firstn columns (skipn (i * columns) (chain t))
               = firstn columns (skipn (i * columns) A)).
  { now rewrite Hch, Hrow. }
  apply Forall2_shown.
  - now apply Forall_firstn, Forall_skipn.
  - now apply Forall_firstn, Forall_skipn.
  - rewrite Ha. now apply Hcov.
Qed.

(** X14. The output of a call that returns [true], on a table whose cells are
    as [TextTableAdd] makes them, with no NUL in a text and no empty style
    prefix: the first line, then for every row its lines as
    [rendered_line] gives them and the line behind the row, then the
    closing line. *)
Theorem print_rendered (t : TextTable_t) cb (tabStyle : TabStyle_e)
    (posX columns : nat) (h : heap) (r : print_result) :
  wf_table t ->
  Forall no_NUL (chain t) ->
  Forall no_empty_prefix (chain t) ->
  TextTablePrint (Some t) cb tabStyle posX columns h = Done r ->
  ret r = true ->
  lines r = rendered_table t tabStyle posX columns.
Proof.
  intros Hwf Hnul Hpre H Hret.
  assert (Hc : columns <> 0).
  { intros ->. unfold TextTablePrint in H.
    destruct cb; [|injection H as <-; discriminate].
    destruct (_ <? posX); injection H as <-; discriminate. }
  destruct (print_lines _ _ _ _ _ _ H Hret) as (-> & _ & _).
  unfold rendered_table. f_equal. f_equal. f_equal.
  apply map_ext_in. intros i Hi. apply in_seq in Hi. f_equal.
  apply row_lines_rendered; trivial. lia.
Qed.

Lemma print_rendered_witness :
  (wf_table example_table /\ Forall no_NUL (chain example_table) /\
   Forall no_empty_prefix (chain example_table) /\
   TextTablePrint (Some example_table) (Some PrintLine)
                  TABSTYLE_REGULAR_HEAD_ON 0 2 example_heap
   = Done example_result /\
   ret example_result = true) /\
  lines example_result = rendered_table example_table TABSTYLE_REGULAR_HEAD_ON 0 2.
Proof.
  assert (F : TextTablePrint (Some example_table) (Some PrintLine)
                             TABSTYLE_REGULAR_HEAD_ON 0 2 example_heap
              = Done example_result)
    by (vm_compute; reflexivity).
  split.
  - split; [exact example_table_wf|]. split; [exact example_table_no_NUL|].
    split; [exact example_table_prefixes|]. split; [exact F | reflexivity].
  - apply (@print_rendered example_table (Some PrintLine)
             TABSTYLE_REGULAR_HEAD_ON 0 2 example_heap example_result
             example_table_wf example_table_no_NUL example_table_prefixes F).
    reflexivity.
Defined.

Lemma c_str_id (l : cstring) : has_NUL l = false -> c_str l = l.
Proof.
  induction l as [|c l IH]; [reflexivity|].
  cbn [has_NUL existsb c_str]. intros H. apply orb_false_iff in H as [-> H].
  f_equal. exact (IH H).
Qed.

Lemma has_NUL_app (a b : cstring) : has_NUL (a ++ b) = has_NUL a || has_NUL b.
Proof. apply existsb_app. Qed.

Lemma has_NUL_repeat (c : ascii) (n : nat) :
  is_NUL c = false -> has_NUL (repeat c n) = false.
Proof.
  intros H. induction n as [|n IH]; [reflexivity|].
  cbn [repeat has_NUL existsb]. rewrite H. exact IH.
Qed.

Lemma has_NUL_first_row (p : cstring) :
  has_NUL p = false -> has_NUL (first_row p) = false.
Proof.
  induction p as [|c p IH]; [reflexivity|].
  cbn [has_NUL existsb first_row]. intros H.
  apply orb_false_iff in H as [Hc H]. destruct (is_LF c); [reflexivity|].
  cbn [existsb]. rewrite Hc. exact (IH H).
Qed.

(** A row of a cell without style prefix fills the width of its column,
    without a NUL. *)
Lemma cell_box_plain (e : TextTableEntry_t) (c : T_Column) (k : nat) :
  no_prefix e -> cell_shown e c ->
  length (cell_box e (col_rowMaxTextLen c) k) = col_rowMaxTextLen c /\
  has_NUL (cell_box e (col_rowMaxTextLen c) k) = false.
Proof.
  intros Hp [Hn Hk]. unfold cell_box, ansi_start, ansi_end. rewrite Hp.
  assert (E : (if 0 <? col_rowMaxTextLen c then [] else []) = @nil ascii)
    by (destruct (0 <? _); reflexivity).
  rewrite E, app_nil_r. cbn [app]. split.
  - rewrite length_app, repeat_length. specialize (Hk k). lia.
  - rewrite has_NUL_app, has_NUL_repeat by reflexivity.
    rewrite orb_false_r. unfold cell_row, cell_rows.
    destruct (nth_split_newline k (cell_text e)) as [-> _].
    now apply has_NUL_first_row, has_NUL_iter.
Qed.

Lemma row_boxes_plain (t : TextTable_t) (tabStyle : TabStyle_e)
    (columns i k : nat) :
  is_compact tabStyle = false ->
  visible_chars t ->
  forall a cs pre,
    Forall no_prefix a ->
    Forall2 cell_shown a cs ->
    length pre + length cs = columns ->
    length (row_boxes t tabStyle columns (pre ++ cs) i k (length pre) a)
    + (if length cs =? 0 then 0 else 1)
    = (if length pre =? 0 then if length cs =? 0 then 0 else 1 else 0)
      + list_sum (map (fun c => col_rowMaxTextLen c + spacesBetweenBorder t * 2 + 1) cs) /\
    has_NUL (row_boxes t tabStyle columns (pre ++ cs) i k (length pre) a) = false.
Proof.
  intros Hst Hv.
  inversion Hv as [|? ? HX Hv1]; subst.
  inversion Hv1 as [|? ? HB Hv2]; subst.
  inversion Hv2 as [|? ? HS Hv3]; subst.
  inversion Hv3 as [|? ? HHX Hv4]; subst.
  inversion Hv4 as [|? ? HHB Hv5]; subst.
  inversion Hv5 as [|? ? HC _]; subst.
  induction a as [|e a IH]; intros cs pre Hp Hs Hlen;
    destruct cs as [|c cs']; try (inversion Hs; fail).
  - cbn [row_boxes length Nat.eqb list_sum map fold_right].
    split; [destruct (length pre =? 0); reflexivity | reflexivity].
  - apply Forall2_cons_iff in Hs as [Hsh Hs'].
    apply Forall_cons_iff in Hp as [Hpe Hpa].
    cbn [row_boxes].
    assert (Eg : array_get (pre ++ c :: cs') (length pre) = c)
      by apply array_get_middle.
    rewrite Eg.
    destruct (cell_box_plain k Hpe Hsh) as [Lb Nb].
    replace (pre ++ c :: cs') with ((pre ++ [c]) ++ cs')
      by (now rewrite <- app_assoc).
    replace (S (length pre)) with (length (pre ++ [c]))
      by (rewrite length_app; simpl; lia).
    cbn [length] in Hlen.
    destruct (IH cs' (pre ++ [c]) Hpa Hs') as [Lr Nr].
    { rewrite length_app. simpl. lia. }
    assert (Lpre : (length (pre ++ [c]) =? 0) = false).
    { rewrite length_app. simpl. apply Nat.eqb_neq. lia. }
    rewrite Lpre in Lr.
    assert (Lo : length (open_column t tabStyle i (length pre))
                 = (if length pre =? 0 then 1 else 0) + spacesBetweenBorder t /\
                 has_NUL (open_column t tabStyle i (length pre)) = false).
    { unfold open_column, spaces.
      destruct (length pre =? 0); [|now rewrite repeat_length, has_NUL_repeat].
      destruct (i =? 0), tabStyle; try discriminate Hst;
        cbn [is_compact length has_NUL existsb];
        rewrite ?repeat_length, ?HB, ?HHB; cbn [orb];
        (split; [lia | now apply has_NUL_repeat]). }
    assert (Lc : length (close_column t tabStyle columns (length pre))
                 = spacesBetweenBorder t + (if length cs' =? 0 then 0 else 1) /\
                 has_NUL (close_column t tabStyle columns (length pre)) = false).
    { unfold close_column, spaces. rewrite Hst.
      rewrite length_app, has_NUL_app, repeat_length, has_NUL_repeat by reflexivity.
      destruct (Nat.ltb_spec (length pre) (columns - 1)) as [Hl|Hl];
        destruct (Nat.eqb_spec (length cs') 0) as [Hz|Hz]; try lia;
        cbn [length has_NUL existsb orb]; rewrite ?HS; split; trivial; lia. }
    destruct Lo as [Lo No], Lc as [Lc Nc].
    set (rest := row_boxes _ _ _ ((pre ++ [c]) ++ cs') _ _ _ a) in *.
    split.
    + rewrite !length_app, Lo, Lb, Lc.
      cbn [length Nat.eqb map list_sum fold_right].
      fold (list_sum (map (fun c0 => col_rowMaxTextLen c0 + spacesBetweenBorder t * 2 + 1) cs')).
      destruct (length pre =? 0); lia.
    + rewrite !has_NUL_app, No, Nb, Nc, Nr. reflexivity.
Qed.

(** A border or header line is as wide as the table. *)
Lemma border_plain (t : TextTable_t) (posX : nat) (pColumn : list T_Column)
    (x : ascii) :
  is_NUL x = false -> is_NUL (charConnectorXY t) = false ->
  length (c_str (border t posX pColumn x))
  = posX + 1
    + list_sum (map (fun c => col_rowMaxTextLen c + spacesBetweenBorder t * 2 + 1)
                    pColumn).
Proof.
  intros Hx Hc. rewrite c_str_id.
  - unfold border. rewrite length_app, repeat_length. cbn [length].
    induction pColumn as [|c pc IH]; [simpl; lia|].
    cbn [flat_map map list_sum fold_right].
    fold (list_sum (map (fun c0 => col_rowMaxTextLen c0 + spacesBetweenBorder t * 2 + 1) pc)).
    rewrite !length_app, repeat_length. cbn [length]. lia.
  - unfold border. rewrite has_NUL_app, has_NUL_repeat by reflexivity.
    cbn [orb has_NUL existsb]. rewrite Hc. cbn [orb].
    induction pColumn as [|c pc IH]; [reflexivity|].
    cbn [flat_map]. fold (has_NUL) in *.
    change (has_NUL ((repeat x (col_rowMaxTextLen c + spacesBetweenBorder t * 2)
                      ++ [charConnectorXY t])
                     ++ flat_map
                          (fun c0 =>
                             repeat x (col_rowMaxTextLen c0 + spacesBetweenBorder t * 2)
                             ++ [charConnectorXY t]) pc) = false).
    rewrite !has_NUL_app, has_NUL_repeat by exact Hx.
    cbn [has_NUL existsb orb]. rewrite Hc. exact IH.
Qed.

(** X15. With a framed style every line of the output is as wide as the table,
    when no cell has a style prefix and the frame is drawn with characters
    other than NUL: border lines, header line and content lines all have
    the length [table_width]. *)
Theorem print_aligned (t : TextTable_t) cb (tabStyle : TabStyle_e)
    (posX columns : nat) (h : heap) (r : print_result) :
  tabStyle <> TABSTYLE_COMACT ->
  wf_table t ->
  Forall no_NUL (chain t) ->
  Forall no_prefix (chain t) ->
  visible_chars t ->
  TextTablePrint (Some t) cb tabStyle posX columns h = Done r ->
  ret r = true ->
  Forall (fun l => length l = table_width t posX columns) (lines r).
Proof.
  intros Hst Hwf Hnul Hnp Hv H Hret.
  assert (Hcompact : is_compact tabStyle = false)
    by (destruct tabStyle; try reflexivity; exfalso; apply Hst; reflexivity).
  assert (Hc : columns <> 0).
  { intros ->. unfold TextTablePrint in H.
    destruct cb; [|injection H as <-; discriminate].
    destruct (_ <? posX); injection H as <-; discriminate. }
  assert (Hpre : Forall no_empty_prefix (chain t)).
  { eapply Forall_impl; [|exact Hnp]. intros e He. unfold no_empty_prefix.
    unfold no_prefix in He. rewrite He. discriminate. }
  destruct (print_lines _ _ _ _ _ _ H Hret) as (-> & _ & _).
  pose proof Hv as Hv'.
  inversion Hv' as [|? ? HX Hv1]; subst.
  inversion Hv1 as [|? ? HB Hv2]; subst.
  inversion Hv2 as [|? ? HS Hv3]; subst.
  inversion Hv3 as [|? ? HHX Hv4]; subst.
  inversion Hv4 as [|? ? HHB Hv5]; subst.
  inversion Hv5 as [|? ? HC _]; subst.
  assert (Hgrid : length (c_str (gridBuf t posX (column_metrics t columns)))
                  = table_width t posX columns)
    by (apply border_plain; assumption).
  assert (Hhead : length (c_str (headBuf t posX (column_metrics t columns)))
                  = table_width t posX columns)
    by (apply border_plain; assumption).
  apply Forall_app. split; [|apply Forall_app; split].
  - unfold first_line. destruct tabStyle; repeat constructor; assumption.
  - apply Forall_concat, Forall_map, Forall_forall. intros i Hi.
    apply in_seq in Hi. apply Forall_app. split.
    + rewrite row_lines_rendered by (trivial; lia).
      apply Forall_map, Forall_forall. intros k _.
      destruct (@row_cells_shown t columns i Hc Hwf Hnul) as [Hs Hl]; [lia|].
      assert (Hrp : Forall no_prefix (row_cells t columns i))
        by (now apply Forall_firstn, Forall_skipn).
      destruct (@row_boxes_plain t tabStyle columns i k Hcompact Hv
                  (row_cells t columns i) (column_metrics t columns) []
                  Hrp Hs Hl) as [L N].
      cbn [app length Nat.eqb] in L, N.
      assert (Lr : length (close_row t tabStyle i) = 1 /\
                   has_NUL (close_row t tabStyle i) = false).
      { unfold close_row. rewrite Hcompact.
        destruct (i =? 0), tabStyle; try discriminate Hcompact;
          cbn [length has_NUL existsb]; rewrite ?HB, ?HHB; split; reflexivity. }
      destruct Lr as [Lr Nr].
      unfold rendered_line. rewrite c_str_id.
      * rewrite !length_app, repeat_length, Lr. unfold table_width.
        rewrite Hl in L. destruct (columns =? 0) eqn:E;
          [apply Nat.eqb_eq in E; contradiction|]. lia.
      * rewrite !has_NUL_app, has_NUL_repeat, N, Nr by reflexivity. reflexivity.
    + unfold after_row.
      destruct (i =? 0), (i <? entries t / columns - 1), tabStyle;
        repeat constructor; assumption.
  - unfold last_line. rewrite Hcompact. repeat constructor. assumption.
Qed.

Lemma print_aligned_witness :
  (TABSTYLE_REGULAR_HEAD_ON <> TABSTYLE_COMACT /\
   wf_table example_table /\ Forall no_NUL (chain example_table) /\
   Forall no_prefix (chain example_table) /\ visible_chars example_table /\
   TextTablePrint (Some example_table) (Some PrintLine)
                  TABSTYLE_REGULAR_HEAD_ON 0 2 example_heap
   = Done example_result /\
   ret example_result = true) /\
  Forall (fun l => length l = table_width example_table 0 2)
         (lines example_result).
Proof.
  assert (F : TextTablePrint (Some example_table) (Some PrintLine)
                             TABSTYLE_REGULAR_HEAD_ON 0 2 example_heap
              = Done example_result)
    by (vm_compute; reflexivity).
  assert (S : TABSTYLE_REGULAR_HEAD_ON <> TABSTYLE_COMACT) by discriminate.
  assert (P : Forall no_prefix (chain example_table))
    by (repeat constructor).
  assert (V : visible_chars example_table) by (repeat constructor).
  split.
  - split; [exact S|]. split; [exact example_table_wf|].
    split; [exact example_table_no_NUL|]. split; [exact P|].
    split; [exact V|]. split; [exact F | reflexivity].
  - apply (@print_aligned example_table (Some PrintLine)
             TABSTYLE_REGULAR_HEAD_ON 0 2 example_heap example_result
             S example_table_wf example_table_no_NUL P V F).
    reflexivity.
Defined.

(** ** TextTableFree: no block is lost, none is freed twice *)

(** [TextTableAdd_at] is [TextTableAdd], with the places written down. *)
Lemma TextTableAdd_at_erase (table : option TextTable_t) (places : list T_Blocks)
    (ansi format : option cstring) (h : heap) :
  TextTableAdd table ansi format h
  = ('(ok, t, _, h) <- TextTableAdd_at table places ansi format h ;;
     Done (ok, t, h)).
Proof.
  unfold TextTableAdd, TextTableAdd_at.
  destruct table as [t|]; [|reflexivity].
  destruct (malloc h) as [[p|] h1]; [|reflexivity].
  destruct format as [f|]; [|reflexivity].
  cbv zeta. destruct (0 <? length f); [|reflexivity].
  destruct ansi as [a|]; cbn [bind].
  - destruct (length a <? TEXT_TABLE_MAX_ANSI_SEQ_LEN); cbn [bind].
    + destruct (malloc h1) as [[q|] h2]; cbn [bind]; [|reflexivity].
      destruct (malloc h2) as [[r|] h3]; reflexivity.
    + destruct (malloc h1) as [[r|] h3]; reflexivity.
  - destruct (malloc h1) as [[r|] h3]; reflexivity.
Qed.

Lemma malloc_none (h h1 : heap) :
  malloc h = (None, h1) ->
  live h1 = live h /\ next_block h1 = next_block h.
Proof.
  unfold malloc. destruct (oracle h) as [|[|] o]; intros [= <-]; auto.
Qed.

Lemma owns_extend (h0 : heap) (t : TextTable_t) (places : list T_Blocks)
    (h : heap) (e : TextTableEntry_t) (b : T_Blocks) (h' : heap) :
  owns h0 t places h ->
  placed e b ->
  NoDup (blocks_of b) ->
  Forall (fun p => next_block h <= p < next_block h') (blocks_of b) ->
  live h' = blocks_of b ++ live h ->
  owns h0 (with_cell t e) (places ++ [b]) h'.
Proof.
  intros (Hp & Hnd & Hr & Hl & Hn) Hpl Hb Hrb Hlb.
  assert (Hnn : next_block h <= next_block h').
  { destruct (blocks_of b) as [|x l] eqn:E.
    - unfold blocks_of in E. destruct (text_p b), (ansiSeq_p b); discriminate.
    - inversion Hrb; subst. lia. }
  unfold owns. cbn [with_cell chain].
  rewrite flat_map_app, rev_app_distr. cbn [flat_map rev app].
  rewrite !app_nil_r.
  split; [apply Forall2_app; [exact Hp | now constructor]|].
  split; [|split; [|split]].
  - apply NoDup_app; trivial.
    intros x Hx Hx'. rewrite Forall_forall in Hr, Hrb.
    specialize (Hr x Hx). specialize (Hrb x Hx'). lia.
  - apply Forall_app. split.
    + eapply Forall_impl; [|exact Hr]. cbv beta. intros; lia.
    + eapply Forall_impl; [|exact Hrb]. cbv beta. intros; lia.
  - now rewrite Hlb, Hl, app_assoc.
  - lia.
Qed.

(** A call keeps the table the owner of its blocks, on every path that
    returns. *)
Lemma TextTableAdd_at_owns (h0 : heap) (t : TextTable_t) (places : list T_Blocks)
    (ansi format : option cstring) (h : heap) :
  owns h0 t places h ->
  forall ok t' places' h',
    TextTableAdd_at (Some t) places ansi format h = Done (ok, t', places', h') ->
    exists t1, t' = Some t1 /\ config t1 = config t /\ owns h0 t1 places' h'.
Proof.
  intros Ho ok t' places' h'. unfold TextTableAdd_at.
  change (link_entry t zero_entry) with (with_cell t zero_entry).
  destruct (malloc h) as [[p|] h1] eqn:M1.
  2:{ intros [= <- <- <- <-]. exists t. split; [reflexivity|].
      split; [reflexivity|].
      apply malloc_none in M1 as [L N].
      destruct Ho as (Hp & Hnd & Hr & Hl & Hn).
      repeat split; trivial; rewrite ?L, ?N; trivial. }
  apply malloc_some in M1 as (-> & L1 & N1).
  assert (Hplain : owns h0 (with_cell t zero_entry)
                        (places ++ [mkBlocks (next_block h) None None]) h1).
  { apply (@owns_extend h0 t places h _ _ _ Ho); cbn [blocks_of text_p ansiSeq_p node_p app].
    - split; split; reflexivity.
    - repeat constructor. simpl. tauto.
    - repeat constructor; lia.
    - exact L1. }
  destruct format as [[|c f]|].
  - intros [= <- <- <- <-]. eexists. split; [reflexivity|]. now split.
  - cbv zeta. change (0 <? length (c :: f)) with true. cbv iota.
    intros H.
    destruct ansi as [a|]; cbn [bind] in H.
    + destruct (length a <? TEXT_TABLE_MAX_ANSI_SEQ_LEN); cbn [bind] in H.
      * destruct (malloc h1) as [[q|] h2] eqn:M2; cbn [bind] in H; [|discriminate].
        apply malloc_some in M2 as (-> & L2 & N2).
        rewrite !with_cell_set_tail in H.
        destruct (malloc h2) as [[r|] h3] eqn:M3; injection H as <- <- <- <-;
          (eexists; split; [reflexivity|]; split; [reflexivity|]);
          [apply malloc_some in M3 as (-> & L3 & N3)
          |apply malloc_none in M3 as (L3 & N3)];
          apply (@owns_extend h0 t places h _ _ _ Ho);
          cbn [blocks_of text_p ansiSeq_p node_p app text ansiSeq zero_entry];
          try (split; split; discriminate);
          try (split; split; (reflexivity || discriminate));
          try (repeat constructor; simpl; lia);
          try (rewrite ?L3, ?L2, ?L1; reflexivity).
      * rewrite !with_cell_set_tail in H.
        destruct (malloc h1) as [[r|] h3] eqn:M3; injection H as <- <- <- <-;
          (eexists; split; [reflexivity|]; split; [reflexivity|]);
          [apply malloc_some in M3 as (-> & L3 & N3)
          |apply malloc_none in M3 as (L3 & N3)];
          apply (@owns_extend h0 t places h _ _ _ Ho);
          cbn [blocks_of text_p ansiSeq_p node_p app text ansiSeq zero_entry];
          try (split; split; discriminate);
          try (split; split; (reflexivity || discriminate));
          try (repeat constructor; simpl; lia);
          try (rewrite ?L3, ?L1; reflexivity).
    + rewrite !with_cell_set_tail in H.
      destruct (malloc h1) as [[r|] h3] eqn:M3; injection H as <- <- <- <-;
        (eexists; split; [reflexivity|]; split; [reflexivity|]);
        [apply malloc_some in M3 as (-> & L3 & N3)
        |apply malloc_none in M3 as (L3 & N3)];
        apply (@owns_extend h0 t places h _ _ _ Ho);
        cbn [blocks_of text_p ansiSeq_p node_p app text ansiSeq zero_entry];
        try (split; split; discriminate);
        try (split; split; (reflexivity || discriminate));
        try (repeat constructor; simpl; lia);
        try (rewrite ?L3, ?L1; reflexivity).
  - intros [= <- <- <- <-]. eexists. split; [reflexivity|]. now split.
Qed.

Lemma adds_at_owns (h0 : heap) (cells : list (option cstring * option cstring)) :
  forall t places h t' places' h',
    owns h0 t places h ->
    adds_at cells (Some t) places h = Done (t', places', h') ->
    exists t1, t' = Some t1 /\ config t1 = config t /\ owns h0 t1 places' h'.
Proof.
  induction cells as [|[ansi format] cells IH]; intros t places h t' places' h' Ho H.
  - injection H as <- <- <-. now exists t.
  - cbn [adds_at] in H.
    destruct (TextTableAdd_at (Some t) places ansi format h)
      as [[[[ok t1] w1] h1]| |] eqn:E; cbn [bind] in H; try discriminate.
    destruct (@TextTableAdd_at_owns h0 t places ansi format h Ho ok t1 w1 h1 E)
      as (t2 & -> & Hc & Ho2).
    destruct (IH t2 w1 h1 t' places' h' Ho2 H) as (t3 & -> & Hc3 & Ho3).
    exists t3. split; [reflexivity|]. split; [congruence | exact Ho3].
Qed.

Lemma bind_ext (A B : Type) (m : outcome A) (f g : A -> outcome B) :
  (forall a, f a = g a) -> bind m f = bind m g.
Proof. intros H. destruct m; cbn [bind]; auto. Qed.

(** The loop of [TextTableFree] frees the blocks of the cells, cell by
    cell: text, style prefix, node. *)
Lemma free_entries_all (es : list TextTableEntry_t) :
  forall places h,
    Forall2 placed es places ->
    free_entries es places h = free_all (flat_map blocks_of places) h.
Proof.
  induction es as [|e es IH]; intros places h Hp;
    inversion Hp as [|? b ? w [Ht Ha] Hw]; subst; [reflexivity|].
  cbn [free_entries flat_map]. destruct b as [np tp ap].
  cbn [text_p ansiSeq_p node_p] in *.
  destruct (text e) as [s|], tp as [tp|];
    try (exfalso; destruct Ht as [Ht1 Ht2];
         first [ discriminate (Ht1 eq_refl) | discriminate (Ht2 eq_refl) ]);
    destruct (ansiSeq e) as [a|], ap as [ap|];
    try (exfalso; destruct Ha as [Ha1 Ha2];
         first [ discriminate (Ha1 eq_refl) | discriminate (Ha2 eq_refl) ]);
    cbn [blocks_of text_p ansiSeq_p node_p app free_all bind];
    repeat (apply bind_ext; intros ?);
    apply IH; exact Hw.
Qed.

Lemma filter_remove (f : nat -> bool) (p : nat) (l : list nat) :
  filter f (remove Nat.eq_dec p l)
  = filter (fun x => negb (p =? x) && f x) l.
Proof.
  induction l as [|x l IH]; [reflexivity|].
  cbn [remove filter]. destruct (Nat.eq_dec p x) as [->|Hne].
  - rewrite Nat.eqb_refl. cbn [negb andb]. exact IH.
  - apply Nat.eqb_neq in Hne. rewrite Hne. cbn [negb andb filter].
    destruct (f x); now rewrite IH.
Qed.

Lemma existsb_In (p : nat) (l : list nat) :
  existsb (Nat.eqb p) l = true <-> In p l.
Proof.
  rewrite existsb_exists. split.
  - intros (x & Hx & E). apply Nat.eqb_eq in E. now subst.
  - intros H. exists p. split; [exact H | apply Nat.eqb_refl].
Qed.

(** Freeing blocks that are live and pairwise different never hits a dead
    block, and leaves the live blocks that are not among them. *)
Lemma free_all_spec (ps : list nat) :
  forall h,
    NoDup ps -> incl ps (live h) ->
    exists h',
      free_all ps h = Done h' /\
      live h' = filter (fun x => negb (existsb (Nat.eqb x) ps)) (live h) /\
      next_block h' = next_block h /\ oracle h' = oracle h.
Proof.
  induction ps as [|p ps IH]; intros h Hnd Hin.
  - exists h. split; [reflexivity|]. split; [|split; reflexivity].
    cbn [existsb negb]. clear. induction (live h) as [|x l IH]; [reflexivity|].
    cbn [filter]. now rewrite <- IH.
  - inversion Hnd as [|? ? Hp Hnd']; subst.
    cbn [free_all]. unfold free_live.
    assert (Hlive : existsb (Nat.eqb p) (live h) = true).
    { apply existsb_In. apply Hin. now left. }
    rewrite Hlive. cbn [bind].
    destruct (IH (free p h) Hnd') as (h' & Hf & Hl & Hn & Ho).
    { intros x Hx. cbn [free live]. apply in_in_remove.
      - intros ->. contradiction.
      - apply Hin. now right. }
    exists h'. split; [exact Hf|]. split; [|split; assumption].
    rewrite Hl. cbn [free live]. rewrite filter_remove.
    apply filter_ext. intros x. cbn [existsb].
    rewrite (Nat.eqb_sym p x). now rewrite negb_orb.
Qed.

Lemma filter_none (f : nat -> bool) (l : list nat) :
  (forall x, In x l -> f x = false) -> filter f l = [].
Proof.
  induction l as [|x l IH]; intros H; [reflexivity|].
  cbn [filter]. rewrite (H x) by now left.
  apply IH. intros y Hy. apply H. now right.
Qed.

Lemma filter_all (f : nat -> bool) (l : list nat) :
  (forall x, In x l -> f x = true) -> filter f l = l.
Proof.
  induction l as [|x l IH]; intros H; [reflexivity|].
  cbn [filter]. rewrite (H x) by now left.
  f_equal. apply IH. intros y Hy. apply H. now right.
Qed.

Lemma in_blocks_rev (places : list T_Blocks) (x : nat) :
  In x (flat_map blocks_of (rev places)) <-> In x (flat_map blocks_of places).
Proof.
  rewrite !in_flat_map. split; intros (b & Hb & Hx); exists b;
    (split; [|exact Hx]); [now apply in_rev | now apply in_rev in Hb].
Qed.

(** A table that owns its blocks is released by [TextTableFree] in full:
    the live blocks are those of [h0] again. *)
Lemma free_owned (h0 : heap) (t : TextTable_t) (places : list T_Blocks) (h : heap) :
  Forall (fun b => b < next_block h0) (live h0) ->
  owns h0 t places h ->
  exists h',
    TextTableFree (Some t) places h = Done (Some (emptied t), [], h') /\
    live h' = live h0 /\ next_block h' = next_block h /\ oracle h' = oracle h.
Proof.
  intros Hwf (Hp & Hnd & Hr & Hl & Hn).
  unfold TextTableFree. rewrite (free_entries_all h Hp).
  destruct (@free_all_spec (flat_map blocks_of places) h Hnd)
    as (h' & Hf & Hl' & Hn' & Ho').
  { intros x Hx. rewrite Hl. apply in_or_app. left. now apply in_blocks_rev. }
  rewrite Hf. cbn [bind]. exists h'. split; [reflexivity|].
  split; [|split; assumption].
  rewrite Hl', Hl, filter_app.
  rewrite filter_none, filter_all; [reflexivity| |].
  - intros x Hx. apply negb_true_iff.
    destruct (existsb (Nat.eqb x) (flat_map blocks_of places)) eqn:E; [|reflexivity].
    apply existsb_In in E. rewrite Forall_forall in Hwf, Hr.
    specialize (Hwf x Hx). specialize (Hr x E). lia.
  - intros x Hx. apply negb_false_iff. apply existsb_In.
    now apply in_blocks_rev.
Qed.

Lemma emptied_config (t t' : TextTable_t) :
  config t = config t' -> emptied t = emptied t'.
Proof.
  unfold config, emptied. intros [= -> -> -> -> -> -> -> ->]. reflexivity.
Qed.

(** X16. After [TextTableInit] and any run of [TextTableAdd] calls that
    return, whatever they return and whichever [malloc] calls fail,
    [TextTableFree] frees blocks that are live, every one once, and leaves
    the live blocks there were before the first call: nothing leaks. The
    table is empty again, with its configuration. *)
Theorem free_releases (cells : list (option cstring * option cstring))
    (t0 : TextTable_t) (h0 : heap)
    (t : option TextTable_t) (places : list T_Blocks) (h : heap) :
  chain t0 = [] ->
  Forall (fun b => b < next_block h0) (live h0) ->
  adds_at cells (Some t0) [] h0 = Done (t, places, h) ->
  exists h',
    TextTableFree t places h = Done (Some (emptied t0), [], h') /\
    live h' = live h0.
Proof.
  intros Hc Hwf H.
  assert (Ho : owns h0 t0 [] h0).
  { unfold owns. rewrite Hc. cbn [flat_map rev app].
    repeat split; constructor. }
  destruct (@adds_at_owns h0 cells t0 [] h0 t places h Ho H)
    as (t1 & -> & Hcfg & Ho1).
  destruct (@free_owned h0 t1 places h Hwf Ho1) as (h' & Hf & Hl & _).
  exists h'. split; [|exact Hl].
  rewrite Hf. now rewrite (emptied_config Hcfg).
Qed.

Lemma free_releases_witness :
  (chain (emptied example_table) = [] /\
   Forall (fun b => b < next_block failing_heap) (live failing_heap) /\
   adds_at mixed_cells (Some (emptied example_table)) [] failing_heap
   = Done (fst (fst mixed_run), snd (fst mixed_run), snd mixed_run)) /\
  exists h',
    TextTableFree (fst (fst mixed_run)) (snd (fst mixed_run)) (snd mixed_run)
    = Done (Some (emptied (emptied example_table)), [], h') /\
    live h' = live failing_heap.
Proof.
  assert (C : chain (emptied example_table) = []) by reflexivity.
  assert (F : Forall (fun b => b < next_block failing_heap) (live failing_heap))
    by constructor.
  assert (A : adds_at mixed_cells (Some (emptied example_table)) [] failing_heap
              = Done (fst (fst mixed_run), snd (fst mixed_run), snd mixed_run))
    by (vm_compute; reflexivity).
  split; [split; [exact C | split; [exact F | exact A]]|].
  exact (@free_releases mixed_cells (emptied example_table) failing_heap
           (fst (fst mixed_run)) (snd (fst mixed_run)) (snd mixed_run) C F A).
Defined.

(** ** TextTableAdd: a run of calls *)

Lemma TextTableAdd_always (t : TextTable_t) (ansi format : option cstring)
    (h : heap) :
  oracle h = [] ->
  exists h',
    TextTableAdd (Some t) ansi format h
    = Done (true, Some (with_cell t (built_cell (ansi, format))), h') /\
    oracle h' = [].
Proof.
  intros Ho. unfold TextTableAdd, built_cell. cbn [fst snd].
  change (link_entry t zero_entry) with (with_cell t zero_entry).
  destruct (malloc_always h Ho) as (h1 & -> & Ho1).
  destruct format as [[|c f]|]; try (now exists h1).
  cbv zeta. change (0 <? length (c :: f)) with true. cbv iota.
  cbn [stored_text].
  assert (Ecap : (if TEXT_TABLE_MAX_COLUMN_LEN <? length (c :: f)
                  then TEXT_TABLE_MAX_COLUMN_LEN else length (c :: f))
                 = Nat.min TEXT_TABLE_MAX_COLUMN_LEN (length (c :: f))).
  { destruct (Nat.ltb_spec TEXT_TABLE_MAX_COLUMN_LEN (length (c :: f))); lia. }
  assert (Efirst : firstn (Nat.min TEXT_TABLE_MAX_COLUMN_LEN (length (c :: f))) (c :: f)
                   = firstn TEXT_TABLE_MAX_COLUMN_LEN (c :: f)).
  { rewrite <- firstn_firstn, firstn_all. reflexivity. }
  rewrite Ecap, Efirst.
  destruct ansi as [a|].
  - destruct (length a <? TEXT_TABLE_MAX_ANSI_SEQ_LEN).
    + destruct (malloc_always h1 Ho1) as (h2 & -> & Ho2). cbn [bind].
      destruct (malloc_always h2 Ho2) as (h3 & -> & Ho3).
      rewrite !with_cell_set_tail. eexists. split; [reflexivity | exact Ho3].
    + cbn [bind]. destruct (malloc_always h1 Ho1) as (h2 & -> & Ho2).
      rewrite !with_cell_set_tail. eexists. split; [reflexivity | exact Ho2].
  - cbn [bind]. destruct (malloc_always h1 Ho1) as (h2 & -> & Ho2).
    rewrite !with_cell_set_tail. eexists. split; [reflexivity | exact Ho2].
Qed.

Lemma built_cell_wf (c : option cstring * option cstring) : wf_cell (built_cell c).
Proof.
  destruct c as [ansi format]. unfold wf_cell, built_cell, textLen, ansiSeqLen.
  cbn [fst snd text rowMaxTextLen ansiSeq].
  split; [reflexivity|].
  destruct format as [[|x f]|]; cbn [stored_text];
    try (repeat split; try discriminate;
         unfold TEXT_TABLE_MAX_COLUMN_LEN, TEXT_TABLE_MAX_ANSI_SEQ_LEN; simpl; lia).
  split; [|split].
  - change TEXT_TABLE_MAX_COLUMN_LEN with (S 95). cbn [firstn]. discriminate.
  - apply firstn_le_length.
  - destruct ansi as [a|];
      [|unfold TEXT_TABLE_MAX_ANSI_SEQ_LEN; simpl; lia].
    destruct (Nat.ltb_spec (length a) TEXT_TABLE_MAX_ANSI_SEQ_LEN);
      [assumption | unfold TEXT_TABLE_MAX_ANSI_SEQ_LEN; simpl; lia].
Qed.

(** X17. With an allocator that does not fail, a run of [TextTableAdd] calls
    returns [true] throughout and links, behind the cells the table has,
    one cell for each call, in the order of the calls: the text cut at 96
    characters or none, the width of the text, the style prefix if there
    is a text and the prefix is shorter than 24 characters. The
    configuration is kept, and so is the invariant of the table. *)
Theorem add_all_builds (cells : list (option cstring * option cstring)) :
  forall (t : TextTable_t) (h : heap),
    oracle h = [] ->
    exists t1 h',
      add_all cells (Some t) h = Done (Some t1, h') /\
      chain t1 = chain t ++ map built_cell cells /\
      entries t1 = entries t + length cells /\
      config t1 = config t /\
      (wf_table t -> wf_table t1).
Proof.
  induction cells as [|[ansi format] cells IH]; intros t h Ho.
  - exists t, h. cbn [add_all map length]. rewrite app_nil_r, Nat.add_0_r.
    split; [reflexivity|]. split; [reflexivity|]. split; [reflexivity|].
    split; [reflexivity | trivial].
  - cbn [add_all].
    destruct (@TextTableAdd_always t ansi format h Ho) as (h1 & -> & Ho1).
    cbn [bind].
    destruct (IH (with_cell t (built_cell (ansi, format))) h1 Ho1)
      as (t1 & h' & -> & Hc & He & Hcfg & Hwf).
    exists t1, h'. split; [reflexivity|].
    cbn [with_cell chain entries] in Hc, He.
    split; [|split; [|split]].
    + rewrite Hc, <- app_assoc. reflexivity.
    + rewrite He. cbn [length]. lia.
    + rewrite Hcfg. reflexivity.
    + intros [Hn Hcells]. apply Hwf. split.
      * cbn [with_cell chain entries]. rewrite length_app, Hn. simpl. lia.
      * cbn [with_cell chain]. apply Forall_app. split; [exact Hcells|].
        constructor; [apply built_cell_wf | constructor].
Qed.

Lemma add_all_builds_witness :
  oracle empty_heap = [] /\
  exists t1 h',
    add_all example_cells (Some (emptied example_table)) empty_heap
    = Done (Some t1, h') /\
    chain t1 = chain (emptied example_table) ++ map built_cell example_cells /\
    entries t1 = entries (emptied example_table) + length example_cells /\
    config t1 = config (emptied example_table) /\
    (wf_table (emptied example_table) -> wf_table t1).
Proof.
  split; [reflexivity|].
  apply (@add_all_builds example_cells (emptied example_table) empty_heap).
  reflexivity.
Defined.

(** ** TextTablePrint: the indentation *)

Lemma c_str_indent (n : nat) (l : list ascii) :
  c_str (repeat SPACE n ++ l) = indent n (c_str l).
Proof.
  unfold indent. induction n as [|n IH]; [reflexivity|].
  cbn [repeat app c_str]. change (is_NUL SPACE) with false. cbv iota.
  now rewrite IH.
Qed.

Lemma border_indent (t : TextTable_t) (posX : nat) (pColumn : list T_Column)
    (x : ascii) :
  c_str (border t posX pColumn x) = indent posX (c_str (border t 0 pColumn x)).
Proof.
  unfold border. rewrite (c_str_indent posX). cbn [repeat app]. reflexivity.
Qed.

Lemma first_line_indent (t : TextTable_t) (tabStyle : TabStyle_e) (posX : nat)
    (pColumn : list T_Column) (b : bool) :
  first_line t tabStyle posX pColumn b
  = map (indent posX) (first_line t tabStyle 0 pColumn b).
Proof.
  unfold first_line, gridBuf, headBuf.
  destruct b, tabStyle; cbn [map]; try rewrite (border_indent t posX); reflexivity.
Qed.

Lemma after_row_indent (t : TextTable_t) (tabStyle : TabStyle_e) (posX : nat)
    (pColumn : list T_Column) (rows i : nat) :
  after_row t tabStyle posX pColumn rows i
  = map (indent posX) (after_row t tabStyle 0 pColumn rows i).
Proof.
  unfold after_row, gridBuf, headBuf.
  destruct (i =? 0), (i <? rows - 1), tabStyle; cbn [map];
    try rewrite (border_indent t posX); reflexivity.
Qed.

Lemma last_line_indent (t : TextTable_t) (tabStyle : TabStyle_e) (posX : nat)
    (pColumn : list T_Column) :
  last_line t tabStyle posX pColumn
  = map (indent posX) (last_line t tabStyle 0 pColumn).
Proof.
  unfold last_line, gridBuf.
  destruct (is_compact tabStyle); cbn [map]; try rewrite (border_indent t posX); reflexivity.
Qed.

(** The line buffers grow with [posX], so a line fits at [posX] exactly
    when it fits at 0. *)
Lemma rowLen_indent (t : TextTable_t) (posX : nat) (pColumn : list T_Column)
    (n : nat) :
  (posX + n <? calc_rowLen t posX pColumn) = (0 + n <? calc_rowLen t 0 pColumn).
Proof.
  unfold calc_rowLen.
  match goal with
  | |- (_ <? ?F + _) = _ => generalize F
  end.
  intros m.
  destruct (Nat.ltb_spec (posX + n) (m + posX));
    destruct (Nat.ltb_spec (0 + n) (m + 0)); trivial; lia.
Qed.

Lemma do_while_indent (t : TextTable_t) (tabStyle : TabStyle_e)
    (posX columns : nat) (pColumn : list T_Column) (i : nat) (fuel : nat) :
  forall b1 b2 p,
    do_while t tabStyle posX columns pColumn fuel i b1 b2 p
    = ('(ls, es, pE) <- do_while t tabStyle 0 columns pColumn fuel i b1 b2 p ;;
       Done (map (indent posX) ls, es, pE)).
Proof.
  induction fuel as [|fuel IH]; intros b1 b2 p; [reflexivity|].
  cbn [do_while].
  destruct (columns_loop _ _ _ _ _ _ _ _ _ _ _) as [[[[es pE] rowBuf] newLine]| |];
    cbn [bind]; trivial.
  rewrite rowLen_indent.
  destruct (0 + _ <? _); cbn [bind]; trivial.
  rewrite first_line_indent, c_str_indent.
  destruct newLine.
  - rewrite IH.
    destruct (do_while t tabStyle 0 columns pColumn fuel i false false (es ++ pE))
      as [[[ls es'] pE']| |]; cbn [bind]; trivial.
    now rewrite !map_app.
  - cbn [bind]. now rewrite map_app.
Qed.

Lemma rows_loop_indent (t : TextTable_t) (tabStyle : TabStyle_e)
    (posX columns : nat) (pColumn : list T_Column) (rows n : nat) :
  forall i p b,
    rows_loop t tabStyle posX columns pColumn rows n i p b
    = ('(ls, es, pE) <- rows_loop t tabStyle 0 columns pColumn rows n i p b ;;
       Done (map (indent posX) ls, es, pE)).
Proof.
  induction n as [|n IH]; intros i p b; [reflexivity|].
  cbn [rows_loop]. unfold row_fuel. rewrite do_while_indent.
  destruct (do_while t tabStyle 0 columns pColumn _ i true b p)
    as [[[ls es] pE]| |]; cbn [bind]; trivial.
  rewrite IH.
  destruct (rows_loop t tabStyle 0 columns pColumn rows n (S i) pE false)
    as [[[ls' es'] pE']| |]; cbn [bind]; trivial.
  now rewrite after_row_indent, !map_app.
Qed.

(** X18. The indentation [posX], when it is accepted, changes nothing but
    the lines, and those only by the [posX] blanks in front of each: the
    return value, the table and the heap are those of the call with
    indentation 0, whatever the table, the style and the allocator. *)
Theorem print_indent (table : option TextTable_t) (cb : option callback)
    (tabStyle : TabStyle_e) (posX columns : nat) (h : heap) :
  posX <= TEXT_TABLE_MAX_X_POS ->
  TextTablePrint table cb tabStyle posX columns h
  = (r <- TextTablePrint table cb tabStyle 0 columns h ;;
     Done (indent_result posX r)).
Proof.
  intros Hp. unfold TextTablePrint.
  destruct table as [t|]; [|reflexivity].
  destruct cb as [c|]; [|reflexivity].
  destruct (Nat.ltb_spec TEXT_TABLE_MAX_X_POS posX) as [Hlt|_]; [lia|].
  change (TEXT_TABLE_MAX_X_POS <? 0) with false. cbv iota.
  destruct (columns =? 0); [reflexivity|].
  destruct (entries t =? 0); [reflexivity|].
  destruct (negb _); [reflexivity|].
  destruct (malloc h) as [[p0|] h0]; [|reflexivity].
  destruct (metrics_rows _ _ _ _) as [[rest pColumn]| |]; cbn [bind]; trivial.
  destruct (malloc h0) as [[p1|] h1]; [|reflexivity].
  destruct (malloc h1) as [[p2|] h2]; [|reflexivity].
  destruct (malloc h2) as [[p3|] h3]; [|reflexivity].
  rewrite rows_loop_indent.
  destruct (rows_loop t tabStyle 0 columns pColumn _ _ 0 (chain t) true)
    as [[[out es] pE]| |]; cbn [bind]; trivial.
  unfold indent_result. cbn [ret lines table_after heap_after].
  now rewrite last_line_indent, map_app.
Qed.

Lemma print_indent_witness :
  3 <= TEXT_TABLE_MAX_X_POS /\
  TextTablePrint (Some example_table) (Some PrintLine)
                 TABSTYLE_SEPARATED_HEAD_OFF 3 2 example_heap
  = (r <- TextTablePrint (Some example_table) (Some PrintLine)
                         TABSTYLE_SEPARATED_HEAD_OFF 0 2 example_heap ;;
     Done (indent_result 3 r)).
Proof.
  assert (H : 3 <= TEXT_TABLE_MAX_X_POS) by (unfold TEXT_TABLE_MAX_X_POS; lia).
  split; [exact H|].
  exact (@print_indent (Some example_table) (Some PrintLine)
           TABSTYLE_SEPARATED_HEAD_OFF 3 2 example_heap H).
Defined.
